(** * Email module: classification service and thread resolution engine

    A shallow embedding of [backend/services/classification_service.py]
    and of the threading engine exercised by
    [backend/tests/test_threading.py], with the properties the
    specification states about them.

    Python [str] values are modelled as [string]; a character is read as
    the Unicode code point of the same number, so the model covers every
    text made of code points U+0000..U+00FF.  On that range the tables
    below ([lower_char], [is_space], [is_digit]) are the ones of
    [str.lower], of [\s] and of [\d]. *)

(** The development also covers the validators of
    [backend/utils/validators.py], the retry schedule of
    [backend/tasks/email_tasks.py], [EmailTemplate.render] of
    [backend/models/signature.py], the mailbox synchronisation of
    [backend/services/sync_service.py], the authentication dependencies
    of [backend/utils/decorators.py] and the notification route of
    [backend/routes/webhooks.py].  Code that talks to the database, to
    the mail provider or to the cipher is a parameter of the model: a
    function that takes the session and returns it with a value or an
    exception. *)

From Stdlib Require Import Bool List Arith ZArith Lia Ascii String Floats Uint63.
Import ListNotations.

Set Warnings "-inexact-float,-register-all".

Open Scope string_scope.
Open Scope list_scope.

(** ** Characters and strings *)

Module Chars.

Definition code (c : ascii) : N := N_of_ascii c.

Definition between (lo hi n : N) : bool := (N.leb lo n && N.leb n hi)%N.

(** [str.isspace] and the class [\s]: TAB..CR, FS..US, space, NEL, NBSP. *)
Definition is_space (c : ascii) : bool :=
  let n := code c in
  between 9 13 n || between 28 32 n || N.eqb n 133 || N.eqb n 160.

(** The class [\d]. *)
Definition is_digit (c : ascii) : bool := between 48 57 (code c).

(** [str.lower] on one character: A..Z and the accented capitals
    U+00C0..U+00DE (the multiplication sign U+00D7 apart) move up by 32. *)
Definition lower_char (c : ascii) : ascii :=
  let n := code c in
  if between 65 90 n || (between 192 222 n && negb (N.eqb n 215))
  then ascii_of_N (n + 32)
  else c.

Fixpoint lower (s : string) : string :=
  match s with
  | EmptyString => EmptyString
  | String c s' => String (lower_char c) (lower s')
  end.

End Chars.

(** ** The fragment of [re] the pattern table uses *)

Module Re.
Import Chars.

Inductive atom : Type :=
| Lit (c : ascii)      (* an ordinary character *)
| Space                (* \s *)
| Digit.               (* \d *)

Inductive item : Type :=
| One (a : atom)       (* a  *)
| Many (a : atom)      (* a+ *)
| Maybe (a : atom).    (* a? *)

Inductive token : Type :=
| TAtom (a : atom)
| TPlus
| TQuest.

(** Characters that have a meaning of their own in a pattern and that the
    table never uses. *)
Definition is_special (c : ascii) : bool :=
  existsb (Ascii.eqb c)
    ["."; "^"; "$"; "*"; "("; ")"; "["; "]"; "{"; "}"; "|"]%char.

Fixpoint tokens (s : string) : option (list token) :=
  match s with
  | EmptyString => Some []
  | String "\" EmptyString => None
  | String "\" (String k s') =>
      match (if Ascii.eqb k "s" then Some Space
             else if Ascii.eqb k "d" then Some Digit
             else None) with
      | Some a => option_map (cons (TAtom a)) (tokens s')
      | None => None
      end
  | String "+" s' => option_map (cons TPlus) (tokens s')
  | String "?" s' => option_map (cons TQuest) (tokens s')
  | String c s' =>
      if is_special c then None
      else option_map (cons (TAtom (Lit c))) (tokens s')
  end.

Fixpoint items (ts : list token) : option (list item) :=
  match ts with
  | [] => Some []
  | TAtom a :: TPlus :: r => option_map (cons (Many a)) (items r)
  | TAtom a :: TQuest :: r => option_map (cons (Maybe a)) (items r)
  | TAtom a :: r => option_map (cons (One a)) (items r)
  | _ => None
  end.

(** [re.compile] on the fragment; [None] outside it. *)
Definition compile (pattern : string) : option (list item) :=
  match tokens pattern with
  | Some ts => items ts
  | None => None
  end.

(** One character against one atom, under [re.IGNORECASE]. *)
Definition atom_matches (a : atom) (c : ascii) : bool :=
  match a with
  | Lit p => Ascii.eqb (lower_char p) (lower_char c)
  | Space => is_space c
  | Digit => is_digit c
  end.

(** Does some prefix of [s] match the whole of [p]? *)
Fixpoint match_here (p : list item) (s : string) {struct p} : bool :=
  match p with
  | [] => true
  | One a :: r =>
      match s with
      | String c s' => if atom_matches a c then match_here r s' else false
      | EmptyString => false
      end
  | Maybe a :: r =>
      if match s with
         | String c s' => if atom_matches a c then match_here r s' else false
         | EmptyString => false
         end
      then true
      else match_here r s
  | Many a :: r =>
      (fix more (t : string) : bool :=
         match t with
         | String c t' =>
             if atom_matches a c
             then (if match_here r t' then true else more t')
             else false
         | EmptyString => false
         end) s
  end.

(** Does [p] match somewhere in [s]? *)
Fixpoint search_items (p : list item) (s : string) : bool :=
  if match_here p s then true
  else match s with
       | String _ s' => search_items p s'
       | EmptyString => false
       end.

(** [re.search(pattern, text, re.IGNORECASE) is not None]. *)
Definition search (pattern text : string) : bool :=
  match compile pattern with
  | Some p => search_items p text
  | None => false
  end.

(** The strings a pattern matches in full, as the [re] documentation
    describes them. *)
Inductive matches_all : list item -> string -> Prop :=
| matches_end : matches_all [] EmptyString
| matches_one a c r s :
    atom_matches a c = true -> matches_all r s ->
    matches_all (One a :: r) (String c s)
| matches_maybe_none a r s :
    matches_all r s -> matches_all (Maybe a :: r) s
| matches_maybe_one a c r s :
    atom_matches a c = true -> matches_all r s ->
    matches_all (Maybe a :: r) (String c s)
| matches_many_last a c r s :
    atom_matches a c = true -> matches_all r s ->
    matches_all (Many a :: r) (String c s)
| matches_many_more a c r s :
    atom_matches a c = true -> matches_all (Many a :: r) s ->
    matches_all (Many a :: r) (String c s).

End Re.

(** ** [services/classification_service.py] *)

Module Classifier.
Import Chars.

Inductive EmailType : Type :=
| NIL_FILING
| VAT_FILING
| GST_FILING
| ITR_SUBMISSION
| DOC_REQUEST
| COMPLIANCE_NOTICE
| RTI_SUBMISSION
| GENERAL.

Definition EmailType_eqb (a b : EmailType) : bool :=
  match a, b with
  | NIL_FILING, NIL_FILING
  | VAT_FILING, VAT_FILING
  | GST_FILING, GST_FILING
  | ITR_SUBMISSION, ITR_SUBMISSION
  | DOC_REQUEST, DOC_REQUEST
  | COMPLIANCE_NOTICE, COMPLIANCE_NOTICE
  | RTI_SUBMISSION, RTI_SUBMISSION
  | GENERAL, GENERAL => true
  | _, _ => false
  end.

(** The pattern table, a dict in insertion order. *)
Definition PATTERNS : list (EmailType * list string) :=
  [ (NIL_FILING,
      [ "nil\s+filing";
        "nil\s+return";
        "no\s+income";
        "nil\s+profit";
        "zero\s+return" ]);
    (VAT_FILING,
      [ "vat\s+filing";
        "vat\s+return";
        "vat\s+submission";
        "value\s+added\s+tax";
        "vat-\d+" ]);
    (GST_FILING,
      [ "gst\s+filing";
        "gst\s+return";
        "gst\s+submission";
        "goods\s+and\s+services\s+tax";
        "gstr-\d+";
        "gstin" ]);
    (ITR_SUBMISSION,
      [ "itr\s+submission";
        "income\s+tax\s+return";
        "itr\s+filed";
        "itr\s+status";
        "itr-\d+";
        "tax\s+return";
        "assessment\s+year" ]);
    (DOC_REQUEST,
      [ "please\s+provide";
        "please\s+submit";
        "document\s+required";
        "documentation\s+needed";
        "waiting\s+for";
        "awaiting";
        "kindly\s+send";
        "request\s+for\s+documents?";
        "pending\s+documents?" ]);
    (COMPLIANCE_NOTICE,
      [ "compliance\s+notice";
        "urgent\s+notice";
        "important\s+notice";
        "action\s+required";
        "immediate\s+attention";
        "penalty\s+notice";
        "show\s+cause";
        "scrutiny\s+notice" ]);
    (RTI_SUBMISSION,
      [ "rti\s+file";
        "rti\s+submission";
        "return\s+of\s+tax\s+information";
        "rti\s+generated";
        "rti\s+attached" ]) ].

(** Priority order (earlier = higher priority). *)
Definition PRIORITY_ORDER : list EmailType :=
  [ COMPLIANCE_NOTICE;
    RTI_SUBMISSION;
    NIL_FILING;
    VAT_FILING;
    GST_FILING;
    ITR_SUBMISSION;
    DOC_REQUEST ].

(** [table.get(email_type, [])]. *)
Fixpoint get (table : list (EmailType * list string)) (email_type : EmailType)
  : list string :=
  match table with
  | [] => []
  | (k, v) :: rest => if EmailType_eqb k email_type then v else get rest email_type
  end.

(** [f"{subject} {body or ''}".lower()]. *)
Definition text_of (subject : string) (body : option string) : string :=
  lower (subject ++ " " ++ match body with Some b => b | None => "" end).

(** The inner loop of [classify]: does any pattern of the list match? *)
Fixpoint any_match (patterns : list string) (text : string) : bool :=
  match patterns with
  | [] => false
  | pattern :: rest =>
      if Re.search pattern text then true else any_match rest text
  end.

(** The outer loop of [classify], over the priority order. *)
Fixpoint classify_loop (order : list EmailType) (text : string) : EmailType :=
  match order with
  | [] => GENERAL
  | email_type :: rest =>
      if any_match (get PATTERNS email_type) text then email_type
      else classify_loop rest text
  end.

Definition classify (subject : string) (body : option string) : EmailType :=
  classify_loop PRIORITY_ORDER (text_of subject body).

Record ClassificationResult : Type := mkResult {
  type : EmailType;
  confidence : float;
  matches : Z
}.

(** The inner loop of [get_classification_confidence]. *)
Fixpoint match_count (patterns : list string) (text : string) : Z :=
  match patterns with
  | [] => 0
  | pattern :: rest =>
      ((if Re.search pattern text then 1 else 0) + match_count rest text)%Z
  end.

(** The dict [matches], in insertion order: the types with a positive count. *)
Fixpoint count_table (table : list (EmailType * list string)) (text : string)
  : list (EmailType * Z) :=
  match table with
  | [] => []
  | (email_type, patterns) :: rest =>
      let n := match_count patterns text in
      if (0 <? n)%Z then (email_type, n) :: count_table rest text
      else count_table rest text
  end.

(** [max(matches, key=matches.get)]: the first key whose count is largest,
    a later key replacing the current one only when strictly larger. *)
Fixpoint max_from (best : EmailType * Z) (rest : list (EmailType * Z))
  : EmailType * Z :=
  match rest with
  | [] => best
  | entry :: rest' =>
      if (snd best <? snd entry)%Z then max_from entry rest'
      else max_from best rest'
  end.

(** [min(0.95, x)]: the later argument wins only when strictly smaller. *)
Definition min_095 (x : float) : float :=
  if (x <? 0.95)%float then x else 0.95%float.

Definition float_of_count (n : Z) : float := of_uint63 (Uint63.of_Z n).

(** [min(0.95, 0.6 + (best_count * 0.1))]. *)
Definition confidence_of (best_count : Z) : float :=
  min_095 (0.6 + (float_of_count best_count * 0.1))%float.

Definition get_classification_confidence (subject : string) (body : option string)
  : ClassificationResult :=
  let text := text_of subject body in
  match count_table PATTERNS text with
  | [] => mkResult GENERAL 0.5%float 0
  | first :: rest =>
      let best := max_from first rest in
      mkResult (fst best) (confidence_of (snd best)) (snd best)
  end.

(** *** Vocabulary of the statements *)

(** Some pattern of [email_type] matches [text]. *)
Definition matched (email_type : EmailType) (text : string) : Prop :=
  exists pattern,
    In pattern (get PATTERNS email_type) /\ Re.search pattern text = true.

(** The number of patterns of [email_type] that match [text]. *)
Definition count (email_type : EmailType) (text : string) : Z :=
  match_count (get PATTERNS email_type) text.

(** The count of every entry of the table, matched or not. *)
Definition counts (table : list (EmailType * list string)) (text : string)
  : list (EmailType * Z) :=
  map (fun entry => (fst entry, match_count (snd entry) text)) table.

End Classifier.

(** ** The threading engine ([services/threading_engine.py])

    The module itself is not part of the sources at hand: only its test
    suite [tests/test_threading.py] is.  Every definition of this part is
    therefore written from the specification (sections 3, 4.1 to 4.4 and
    6) and from the shapes and values the tests use. *)

Module Threading.
Import Chars.

(** *** Whitespace *)

(** [s.lstrip()]. *)
Fixpoint skip_ws (s : string) : string :=
  match s with
  | EmptyString => EmptyString
  | String c s' => if is_space c then skip_ws s' else s
  end.

(** [s.rstrip()]. *)
Fixpoint rtrim (s : string) : string :=
  match s with
  | EmptyString => EmptyString
  | String c s' =>
      match rtrim s' with
      | EmptyString => if is_space c then EmptyString else String c EmptyString
      | r => String c r
      end
  end.

(** [s.strip()]. *)
Definition trim (s : string) : string := skip_ws (rtrim s).

(** Every run of whitespace becomes one space: a whitespace character is
    dropped when another follows it, and is a space otherwise. *)
Fixpoint collapse_ws (s : string) : string :=
  match s with
  | EmptyString => EmptyString
  | String c s' =>
      if is_space c then
        match s' with
        | String d _ => if is_space d then collapse_ws s'
                        else String " " (collapse_ws s')
        | EmptyString => String " " EmptyString
        end
      else String c (collapse_ws s')
  end.

(** *** Subject normalizer (specification 4.1) *)

(** [s] without the prefix [w], compared without regard to case. *)
Fixpoint strip_prefix_ci (w s : string) : option string :=
  match w with
  | EmptyString => Some s
  | String a w' =>
      match s with
      | String c s' =>
          if Ascii.eqb (lower_char a) (lower_char c)
          then strip_prefix_ci w' s' else None
      | EmptyString => None
      end
  end.

(** What follows the first closing bracket. *)
Fixpoint after_close (s : string) : option string :=
  match s with
  | EmptyString => None
  | String c s' => if Ascii.eqb c "]" then Some s' else after_close s'
  end.

(** A bracketed tag such as [[URGENT]] at the head of [s]. *)
Definition strip_tag (s : string) : option string :=
  match s with
  | String c s' => if Ascii.eqb c "[" then after_close s' else None
  | EmptyString => None
  end.

(** The reply and forward markers. *)
Definition MARKERS : list string := ["re:"; "fwd:"; "fw:"].

Fixpoint strip_word (ws : list string) (s : string) : option string :=
  match ws with
  | [] => None
  | w :: rest =>
      match strip_prefix_ci w s with
      | Some r => Some r
      | None => strip_word rest s
      end
  end.

(** One marker at the head of [s], if there is one. *)
Definition strip_marker (s : string) : option string :=
  match strip_word MARKERS s with
  | Some r => Some r
  | None => strip_tag s
  end.

(** Modelled from the spec: the loop of the missing [_normalize_subject]
    that strips markers until none is left at the head (4.1).  The
    whitespace around a marker goes with it, as the chained example
    ["Re: Fwd: Re: X"] requires.  Each round removes at least two
    characters, so [fuel] rounds are enough for a string of [fuel]
    characters. *)
Fixpoint strip_markers (fuel : nat) (s : string) : string :=
  match fuel with
  | O => skip_ws s
  | S fuel' =>
      match strip_marker (skip_ws s) with
      | Some r => strip_markers fuel' r
      | None => skip_ws s
      end
  end.

(** Modelled from the spec: [EmailThreadingEngine._normalize_subject], whose
    module [services/threading_engine.py] is missing (4.1: empty for a
    null or empty subject; leading markers stripped repeatedly;
    whitespace runs collapsed, the result trimmed and lowercased). *)
Definition _normalize_subject (subject : option string) : string :=
  match subject with
  | None => ""
  | Some s => lower (trim (collapse_ws (strip_markers (String.length s) s)))
  end.

(** *** Identifier canonicalizer (specification 4.2) *)

(** [s] without its last character when that character is [>]. *)
Fixpoint strip_closing_angle (s : string) : option string :=
  match s with
  | EmptyString => None
  | String c EmptyString => if Ascii.eqb c ">" then Some EmptyString else None
  | String c s' => option_map (String c) (strip_closing_angle s')
  end.

(** Modelled from the spec: [EmailThreadingEngine._clean_message_id], whose
    module is missing (4.2: one pair of surrounding angle brackets is
    stripped when present, the identifier is unchanged otherwise, and a
    null identifier is the empty string). *)
Definition _clean_message_id (message_id : option string) : string :=
  match message_id with
  | None => ""
  | Some s =>
      match s with
      | String c s' =>
          if Ascii.eqb c "<" then
            match strip_closing_angle s' with
            | Some inner => inner
            | None => s
            end
          else s
      | EmptyString => ""
      end
  end.

(** *** Payloads

    A payload is the dictionary the mail provider sends; its values are
    dynamically typed. *)

Inductive value : Type :=
| VNone
| VBool (b : bool)
| VInt (n : Z)
| VStr (s : string)
| VList (l : list value)
| VDict (d : list (string * value)).

Fixpoint lookup_key (k : string) (d : list (string * value)) : option value :=
  match d with
  | [] => None
  | (k', v) :: rest => if String.eqb k' k then Some v else lookup_key k rest
  end.

(** Tolerant access: a missing key and a value that is no dictionary both
    read as [VNone]. *)
Definition field (v : value) (k : string) : value :=
  match v with
  | VDict d => match lookup_key k d with Some x => x | None => VNone end
  | _ => VNone
  end.

(** *** Participant extractor (specification 4.3) *)

Definition address_of (entry : value) : option string :=
  match field (field entry "emailAddress") "address" with
  | VStr a => Some (lower (trim a))
  | _ => None
  end.

(** Modelled from the spec: [EmailThreadingEngine._extract_from_address],
    whose module is missing (4.3: the lowercase, trimmed sender address,
    or the empty string when it is absent). *)
Definition _extract_from_address (email_data : value) : string :=
  match address_of (field email_data "from") with
  | Some a => a
  | None => ""
  end.

Fixpoint addresses (entries : list value) : list string :=
  match entries with
  | [] => []
  | entry :: rest =>
      match address_of entry with
      | Some a => a :: addresses rest
      | None => addresses rest
      end
  end.

(** Modelled from the spec: [EmailThreadingEngine._extract_recipients],
    whose module is missing (4.3: the lowercase, trimmed addresses of the
    named recipient list, and nothing when the list is absent or
    malformed). *)
Definition _extract_recipients (email_data : value) (field_name : string)
  : list string :=
  match field email_data field_name with
  | VList entries => addresses entries
  | _ => []
  end.

(** *** Headers *)

Fixpoint header (headers : list value) (name : string) : option string :=
  match headers with
  | [] => None
  | h :: rest =>
      match field h "name", field h "value" with
      | VStr n, VStr v => if String.eqb n name then Some v else header rest name
      | _, _ => header rest name
      end
  end.

Definition get_header (email_data : value) (name : string) : option string :=
  match field email_data "internetMessageHeaders" with
  | VList headers => header headers name
  | _ => None
  end.

(** [s.split()]: the maximal runs of characters that are not whitespace. *)
Fixpoint words (s : string) : list string :=
  match s with
  | EmptyString => []
  | String c s' =>
      if is_space c then words s'
      else
        match s' with
        | String d _ =>
            if is_space d then String c EmptyString :: words s'
            else match words s' with
                 | w :: ws => String c w :: ws
                 | [] => [String c EmptyString]
                 end
        | EmptyString => [String c EmptyString]
        end
  end.

(** Modelled from the spec: the header a reply points to in the missing
    [_check_in_reply_to] (4.4, layer 2): In-Reply-To, or else the last
    entry of References. *)
Definition reply_target (email_data : value) : option string :=
  match get_header email_data "In-Reply-To" with
  | Some v => Some v
  | None =>
      match get_header email_data "References" with
      | Some refs => last (map Some (words refs)) None
      | None => None
      end
  end.

(** [target] is the header value the payload replies to: its In-Reply-To
    header, or, when it has none, the last entry of its References. *)
Definition replies_to (email_data : value) (target : string) : Prop :=
  get_header email_data "In-Reply-To" = Some target \/
  (get_header email_data "In-Reply-To" = None /\
   exists refs init,
     get_header email_data "References" = Some refs /\
     words refs = init ++ [target]).

(** *** Stored conversations, as the lookup returns them

    Modelled from the spec: the rows of the missing [models/email.py] that
    the engine reads, and the records of the missing engine module (3
    and 6). *)

Record EmailThread : Type := mkThread {
  thread_key : string          (* EmailThread.id *)
}.

Record Email : Type := mkEmail {
  email_id : string;           (* Email.id *)
  email_thread_id : string     (* Email.thread_id *)
}.

(** Modelled from the spec: the read capability the missing engine is
    given (6).  A lookup that fails or times out answers [None] (7). *)
Record Lookup : Type := mkLookup {
  findThreadByConversationId : string -> option EmailThread;
  findEmailByCanonicalMessageId : string -> option Email;
  findRecentThreadBySubjectAndParticipants :
    string -> list string -> Z -> option EmailThread
}.

Record ThreadMatch : Type := mkMatch {
  match_thread_id : string;
  match_confidence : float;
  match_method : string;
  match_parent_id : option string
}.

Record ThreadingResult : Type := mkThreading {
  thread_id : string;
  confidence : float;
  method : string;
  is_new : bool;
  parent_id : option string
}.

(** *** Thread resolution engine (specification 4.4) *)

Section Engine.

Variable db : Lookup.

(** The recency window of the heuristic layer, in days, and the score it
    gives a thread it found: both are left open by the specification. *)
Variable window_days : Z.
Variable heuristic_confidence : value -> EmailThread -> float.

(** Modelled from the spec: [EmailThreadingEngine._check_conversation_id],
    whose module is missing (4.4, layer 1). *)
Definition _check_conversation_id (email_data : value) : option ThreadMatch :=
  match field email_data "conversationId" with
  | VStr conversation_id =>
      match findThreadByConversationId db conversation_id with
      | Some thread =>
          Some (mkMatch (thread_key thread) 1.0%float "conversation_id" None)
      | None => None
      end
  | _ => None
  end.

(** Modelled from the spec: [EmailThreadingEngine._check_in_reply_to],
    whose module is missing (4.4, layer 2). *)
Definition _check_in_reply_to (email_data : value) : option ThreadMatch :=
  match reply_target email_data with
  | Some target =>
      match findEmailByCanonicalMessageId db (_clean_message_id (Some target)) with
      | Some parent =>
          Some (mkMatch (email_thread_id parent) 0.99%float "rfc_in_reply_to"
                        (Some (email_id parent)))
      | None => None
      end
  | None => None
  end.

Definition subject_of (email_data : value) : option string :=
  match field email_data "subject" with
  | VStr s => Some s
  | _ => None
  end.

(** Sender and recipients. *)
Definition participants (email_data : value) : list string :=
  _extract_from_address email_data
    :: _extract_recipients email_data "toRecipients"
    ++ _extract_recipients email_data "ccRecipients".

(** Modelled from the spec: the subject and participant layer of the
    missing module (4.4, layer 3). *)
Definition _check_subject_participants (email_data : value) : option ThreadMatch :=
  match findRecentThreadBySubjectAndParticipants db
          (_normalize_subject (subject_of email_data))
          (participants email_data) window_days with
  | Some thread =>
      Some (mkMatch (thread_key thread) (heuristic_confidence email_data thread)
                    "subject_participant_heuristic" None)
  | None => None
  end.

(** Modelled from the spec: the layers of the missing engine, most
    specific first (4.4). *)
Definition LAYERS : list (value -> option ThreadMatch) :=
  [ _check_conversation_id; _check_in_reply_to; _check_subject_participants ].

(** The first layer that answers. *)
Fixpoint first_match (layers : list (value -> option ThreadMatch))
  (email_data : value) : option ThreadMatch :=
  match layers with
  | [] => None
  | layer :: rest =>
      match layer email_data with
      | Some m => Some m
      | None => first_match rest email_data
      end
  end.

(** Modelled from the spec: the identifier the missing [thread_email]
    makes for a new thread, a fixed prefix and the opaque token drawn for
    it (4.4, fallback; the prefix is the one the test checks). *)
Definition new_thread_id (token : string) : string := "thread_" ++ token.

(** Modelled from the spec: [EmailThreadingEngine.thread_email], whose
    module is missing (4.4: an ordered chain of layers, the first match
    wins, and a new thread otherwise).  [token] is the random token the
    call draws. *)
Definition thread_email (email_data : value) (token : string) : ThreadingResult :=
  match first_match LAYERS email_data with
  | Some m =>
      mkThreading (match_thread_id m) (match_confidence m) (match_method m)
                  false (match_parent_id m)
  | None => mkThreading (new_thread_id token) 0.0%float "new_thread" true None
  end.

End Engine.

(** *** Vocabulary of the statements *)

(** Every whitespace character of [s] is a space followed by a character
    that is no whitespace. *)
Fixpoint tidy (s : string) : bool :=
  match s with
  | EmptyString => true
  | String c s' =>
      (if is_space c
       then Ascii.eqb c " " &&
            match s' with
            | String d _ => negb (is_space d)
            | EmptyString => false
            end
       else true) && tidy s'
  end.

(** A word without whitespace. *)
Fixpoint solid (w : string) : bool :=
  match w with
  | EmptyString => true
  | String a w' => negb (is_space a) && solid w'
  end.

End Threading.

(** ** [EmailClassifier.get_type_display_name] *)

Module Display.
Import Classifier.

(** [email_type.value]: the members of [EmailType(str, Enum)]. *)
Definition value_of (email_type : EmailType) : string :=
  match email_type with
  | NIL_FILING => "NIL_FILING"
  | VAT_FILING => "VAT_FILING"
  | GST_FILING => "GST_FILING"
  | ITR_SUBMISSION => "ITR_SUBMISSION"
  | DOC_REQUEST => "DOC_REQUEST"
  | COMPLIANCE_NOTICE => "COMPLIANCE_NOTICE"
  | RTI_SUBMISSION => "RTI_SUBMISSION"
  | GENERAL => "GENERAL"
  end.

Definition display_names : list (EmailType * string) :=
  [ (NIL_FILING, "NIL Filing Confirmation");
    (VAT_FILING, "VAT Filing Confirmation");
    (GST_FILING, "GST Filing Confirmation");
    (ITR_SUBMISSION, "ITR Submission Status");
    (DOC_REQUEST, "Document Request");
    (COMPLIANCE_NOTICE, "Compliance Notice");
    (RTI_SUBMISSION, "RTI File Submission");
    (GENERAL, "General") ].

(** [table.get(key, default)]. *)
Fixpoint get_default (table : list (EmailType * string)) (key : EmailType)
  (default : string) : string :=
  match table with
  | [] => default
  | (k, v) :: rest =>
      if EmailType_eqb k key then v else get_default rest key default
  end.

Definition get_type_display_name (email_type : EmailType) : string :=
  get_default display_names email_type (value_of email_type).

(** [body or ''], as [classify] reads the body. *)
Definition body_text (body : option string) : string :=
  match body with Some b => b | None => "" end.

End Display.

(** ** Python string operations the validators use *)

Module Pystr.
Import Chars Threading.

(** [len(s)]. *)
Definition len (s : string) : Z := Z.of_nat (String.length s).

(** The first [n] characters of [s]. *)
Fixpoint prefix_of (n : nat) (s : string) : string :=
  match n, s with
  | S n', String c s' => String c (prefix_of n' s')
  | _, _ => EmptyString
  end.

(** The last [n] characters of [s]. *)
Fixpoint drop (n : nat) (s : string) : string :=
  match n, s with
  | S n', String _ s' => drop n' s'
  | _, _ => s
  end.

(** [s[:n]], a negative [n] counting from the end. *)
Definition take (n : Z) (s : string) : string :=
  prefix_of (Z.to_nat (if (n <? 0)%Z then len s + n else n)%Z) s.

(** ["".join(char for char in s if keep(char))]. *)
Fixpoint filter_chars (keep : ascii -> bool) (s : string) : string :=
  match s with
  | EmptyString => EmptyString
  | String c s' =>
      if keep c then String c (filter_chars keep s') else filter_chars keep s'
  end.

(** [sep.join(parts)]. *)
Fixpoint join (sep : string) (parts : list string) : string :=
  match parts with
  | [] => EmptyString
  | part :: rest =>
      match rest with
      | [] => part
      | _ :: _ => part ++ sep ++ join sep rest
      end
  end.

(** [not s]. *)
Definition is_empty (s : string) : bool :=
  match s with EmptyString => true | String _ _ => false end.

(** Every character of [s] satisfies [p]. *)
Fixpoint all_chars (p : ascii -> bool) (s : string) : bool :=
  match s with
  | EmptyString => true
  | String c s' => p c && all_chars p s'
  end.

(** Some character of [s] satisfies [p]. *)
Fixpoint some_char (p : ascii -> bool) (s : string) : bool :=
  match s with
  | EmptyString => false
  | String c s' => p c || some_char p s'
  end.

End Pystr.

(** ** [utils/validators.py] *)

Module SubjectValidator.
Import Chars Threading Pystr.
Local Open Scope string_scope.

Definition MAX_LENGTH : Z := 500.

(** [ord(char) >= 32 or char in "\t\n"]. *)
Definition kept (char : ascii) : bool :=
  N.leb 32 (code char) || Ascii.eqb char "009" || Ascii.eqb char "010".

Definition sanitize (subject : string) : string :=
  if is_empty subject then ""
  else
    let sanitized := filter_chars kept subject in
    let sanitized := join " " (words sanitized) in
    let sanitized :=
      if (MAX_LENGTH <? len sanitized)%Z
      then take (MAX_LENGTH - 3) sanitized ++ "..."
      else sanitized in
    trim sanitized.

Definition is_valid (subject : string) : bool :=
  negb (is_empty (sanitize subject)).

(** A character that is neither a control character nor whitespace. *)
Definition visible (c : ascii) : bool := N.leb 32 (code c) && negb (is_space c).

(** The subject once filtered and respaced, before the length limit. *)
Definition respaced (subject : string) : string :=
  join " " (words (filter_chars kept subject)).

End SubjectValidator.

Module BodyValidator.
Import Chars Pystr.

Definition MAX_LENGTH : Z := 1000000.

(** [ord(char) >= 32 or char in "\t\n\r"]. *)
Definition kept (char : ascii) : bool :=
  N.leb 32 (code char) || Ascii.eqb char "009" || Ascii.eqb char "010"
  || Ascii.eqb char "013".

Definition sanitize_text (text : string) : string :=
  if is_empty text then ""
  else
    let sanitized := filter_chars kept text in
    if (MAX_LENGTH <? len sanitized)%Z then take MAX_LENGTH sanitized
    else sanitized.

End BodyValidator.

(** ** Regular expressions, for the validators' patterns *)

Module Regex.
Local Open Scope string_scope.

Inductive regex : Type :=
| Void                          (* matches nothing *)
| Eps                           (* the empty string *)
| Class (p : ascii -> bool)     (* one character of a class *)
| Seq (a b : regex)             (* ab *)
| Alt (a b : regex)             (* a|b *)
| Star (a : regex).             (* a* *)

(** [a+], [a?], [a{n}] and one given character. *)
Definition Plus (a : regex) : regex := Seq a (Star a).
Definition Opt (a : regex) : regex := Alt a Eps.
Fixpoint Rep (n : nat) (a : regex) : regex :=
  match n with
  | O => Eps
  | S n' => Seq a (Rep n' a)
  end.
Definition Chr (c : ascii) : regex := Class (Ascii.eqb c).

(** Does the expression match the empty string? *)
Fixpoint nullable (r : regex) : bool :=
  match r with
  | Void => false
  | Eps => true
  | Class _ => false
  | Seq a b => nullable a && nullable b
  | Alt a b => nullable a || nullable b
  | Star _ => true
  end.

(** What is left to match after the character [c]. *)
Fixpoint deriv (c : ascii) (r : regex) : regex :=
  match r with
  | Void => Void
  | Eps => Void
  | Class p => if p c then Eps else Void
  | Seq a b =>
      if nullable a then Alt (Seq (deriv c a) b) (deriv c b)
      else Seq (deriv c a) b
  | Alt a b => Alt (deriv c a) (deriv c b)
  | Star a => Seq (deriv c a) (Star a)
  end.

(** [re.fullmatch(r, s) is not None]. *)
Fixpoint fullmatch (r : regex) (s : string) : bool :=
  match s with
  | EmptyString => nullable r
  | String c s' => fullmatch (deriv c r) s'
  end.

(** [re.match("^r$", s) is not None]: the end anchor also holds just before
    a newline that ends the string. *)
Definition match_anchored (r : regex) (s : string) : bool :=
  fullmatch (Seq r (Opt (Chr "010"))) s.

(** The strings an expression matches in full. *)
Inductive matches : regex -> string -> Prop :=
| matches_eps : matches Eps EmptyString
| matches_class p c : p c = true -> matches (Class p) (String c EmptyString)
| matches_seq a b s t :
    matches a s -> matches b t -> matches (Seq a b) (s ++ t)
| matches_alt_left a b s : matches a s -> matches (Alt a b) s
| matches_alt_right a b s : matches b s -> matches (Alt a b) s
| matches_star_none a : matches (Star a) EmptyString
| matches_star_more a s t :
    matches a s -> matches (Star a) t -> matches (Star a) (s ++ t).

End Regex.

Module PystrMore.
Import Chars Pystr.

(** [s[n:]], a negative [n] counting from the end. *)
Definition tail_from (n : Z) (s : string) : string :=
  drop (Z.to_nat (if (n <? 0)%Z then len s + n else n)%Z) s.

(** [s.startswith(prefix)]. *)
Definition startswith (s prefix : string) : bool := String.prefix prefix s.

End PystrMore.

Module RegexTerms.
Import Regex.

(** Every character class of [r] lies within [p]. *)
Fixpoint alphabet (p : ascii -> bool) (r : regex) : Prop :=
  match r with
  | Void | Eps => True
  | Class q => forall c, q c = true -> p c = true
  | Seq a b | Alt a b => alphabet p a /\ alphabet p b
  | Star a => alphabet p a
  end.

(** Every character class of [r] is closed under [f]. *)
Fixpoint closed_under (f : ascii -> ascii) (r : regex) : Prop :=
  match r with
  | Void | Eps => True
  | Class q => forall c, q c = true -> q (f c) = true
  | Seq a b | Alt a b => closed_under f a /\ closed_under f b
  | Star a => closed_under f a
  end.

End RegexTerms.

Module EmailAddressValidator.
Import Chars Threading Pystr Regex.

Definition alnum (c : ascii) : bool :=
  between 48 57 (code c) || between 65 90 (code c) || between 97 122 (code c).

(** [[a-zA-Z0-9_.+-]]. *)
Definition local_char (c : ascii) : bool :=
  alnum c || Ascii.eqb c "_" || Ascii.eqb c "." || Ascii.eqb c "+"
  || Ascii.eqb c "-".

(** [[a-zA-Z0-9-]]. *)
Definition domain_char (c : ascii) : bool := alnum c || Ascii.eqb c "-".

(** [[a-zA-Z0-9-.]]. *)
Definition suffix_char (c : ascii) : bool :=
  alnum c || Ascii.eqb c "-" || Ascii.eqb c ".".

(** [(^[a-zA-Z0-9_.+-]+@[a-zA-Z0-9-]+\.[a-zA-Z0-9-.]+$)], the anchors being
    those of [match_anchored]. *)
Definition EMAIL_REGEX : regex :=
  Seq (Plus (Class local_char))
      (Seq (Chr "@")
           (Seq (Plus (Class domain_char))
                (Seq (Chr ".") (Plus (Class suffix_char))))).

Definition is_valid (email : string) : bool :=
  if is_empty email then false else match_anchored EMAIL_REGEX email.

Fixpoint validate_loop (emails valid invalid : list string)
  : list string * list string :=
  match emails with
  | [] => (valid, invalid)
  | email :: rest =>
      if is_valid email
      then validate_loop rest (valid ++ [trim (lower email)]) invalid
      else validate_loop rest valid (invalid ++ [email])
  end.

Definition validate_list (emails : list string) : list string * list string :=
  validate_loop emails [] [].

Definition normalize (email : string) : string :=
  if is_empty email then "" else trim (lower email).

(** A character that is no whitespace. *)
Definition solid_char (c : ascii) : bool := negb (is_space c).

End EmailAddressValidator.

Module PhoneValidator.
Import Chars Threading Pystr PystrMore Regex.

(** [[\s\-]], which is also [[-\s]]. *)
Definition separator (c : ascii) : bool := is_space c || Ascii.eqb c "-".

(** [^(\+91[-\s]?)?\d{10}$], the anchors being those of [match_anchored]. *)
Definition PHONE_REGEX : regex :=
  Seq (Opt (Seq (Chr "+") (Seq (Chr "9") (Seq (Chr "1") (Opt (Class separator))))))
      (Rep 10 (Class is_digit)).

Definition is_valid (phone : string) : bool :=
  if is_empty phone then false
  else
    let cleaned := filter_chars (fun c => negb (separator c)) phone in
    match_anchored PHONE_REGEX cleaned.

Definition normalize (phone : string) : string :=
  if is_empty phone then ""
  else
    let digits := filter_chars is_digit phone in
    let digits :=
      if (len digits =? 12)%Z && startswith digits "91"
      then tail_from 2 digits else digits in
    if (10 <=? len digits)%Z then tail_from (-10) digits else digits.

(** The digits [normalize] answers, before the last ten are taken. *)
Definition national (phone : string) : string :=
  let digits := filter_chars is_digit phone in
  if (len digits =? 12)%Z && startswith digits "91"
  then tail_from 2 digits else digits.

End PhoneValidator.

Module ClientSchema.
Import Pystr.

(** What a validator does: it returns a value or raises [ValueError]. *)
Inductive outcome (A : Type) : Type :=
| Returned (value : A)
| Raised (message : string).
Arguments Returned {A} value.
Arguments Raised {A} message.

Definition validate_phone (v : option string) : outcome (option string) :=
  match v with
  | Some phone =>
      if negb (is_empty phone) && negb (PhoneValidator.is_valid phone)
      then Raised "Invalid phone number format"
      else if negb (is_empty phone)
           then Returned (Some (PhoneValidator.normalize phone))
           else Returned None
  | None => Returned None
  end.

End ClientSchema.

(** ** [tasks/email_tasks.py]: the retry schedule *)

Module Tasks.

(** [l[i]]: a negative index counts from the end, and [None] stands for
    [IndexError]. *)
Definition index {A : Type} (l : list A) (i : Z) : option A :=
  let n := Z.of_nat (List.length l) in
  if (i <? 0)%Z
  then (if (i + n <? 0)%Z then None else nth_error l (Z.to_nat (i + n)))
  else nth_error l (Z.to_nat i).

Definition retry_delays : list Z := [30; 300; 1800]%Z.

(** [retry_delays[min(self.request.retries, len(retry_delays) - 1)]]. *)
Definition countdown (retries : Z) : option Z :=
  index retry_delays (Z.min retries (Z.of_nat (List.length retry_delays) - 1)).

End Tasks.

(** ** [models/signature.py]: [EmailTemplate.render] *)

Module EmailTemplate.
Import Pystr.
Local Open Scope string_scope.

(** The loop of [s.replace(old, new)] for a non-empty [old]: [skip]
    characters of a replaced occurrence are still to be passed over. *)
Fixpoint replace_from (old new : string) (skip : nat) (s : string) : string :=
  match s with
  | EmptyString => EmptyString
  | String c s' =>
      match skip with
      | S k => replace_from old new k s'
      | O =>
          if String.prefix old s
          then new ++ replace_from old new (String.length old - 1) s'
          else String c (replace_from old new 0 s')
      end
  end.

(** [s.replace("", new)]: [new] before every character and at the end. *)
Fixpoint interleave (new s : string) : string :=
  match s with
  | EmptyString => new
  | String c s' => new ++ String c (interleave new s')
  end.

(** [s.replace(old, new)]. *)
Definition replace (s old new : string) : string :=
  if is_empty old then interleave new s else replace_from old new 0 s.

Record EmailTemplate : Type := mkTemplate {
  subject_template : string;
  body_template : option string;
  body_html_template : option string
}.

(** [text or ""]. *)
Definition or_empty (text : option string) : string :=
  match text with Some t => t | None => "" end.

(** The loop of [render] over [context.items()], each value given by its
    [str()]. *)
Fixpoint render_loop (context : list (string * string))
  (subject body_text body_html : string) : string * string * string :=
  match context with
  | [] => (subject, body_text, body_html)
  | (var, value) :: rest =>
      let placeholder := "{{" ++ var ++ "}}" in
      render_loop rest (replace subject placeholder value)
                  (replace body_text placeholder value)
                  (replace body_html placeholder value)
  end.

Definition render (t : EmailTemplate) (context : list (string * string))
  : string * string * string :=
  render_loop context (subject_template t) (or_empty (body_template t))
              (or_empty (body_html_template t)).

(** [needle in s]. *)
Fixpoint occurs (needle s : string) : bool :=
  if String.prefix needle s then true
  else match s with
       | EmptyString => false
       | String _ s' => occurs needle s'
       end.

(** A sample template with a plain subject. *)
Definition sample_template : EmailTemplate :=
  mkTemplate "Quarterly filing reminder"
             (Some "Dear {{client_name}}, your {{period}} return is due.")
             None.

Definition sample_context : list (string * string) :=
  [("client_name", "Asha"); ("period", "Q4")].

End EmailTemplate.

(** ** [services/sync_service.py]: [EmailSyncService] *)

Module SyncService.
Import Threading.
Export ClientSchema.
Local Open Scope string_scope.
Local Open Scope Z_scope.

(** The name Python prints for the type of a payload value. *)
Definition type_name (v : value) : string :=
  match v with
  | VNone => "NoneType"
  | VBool _ => "bool"
  | VInt _ => "int"
  | VStr _ => "str"
  | VList _ => "list"
  | VDict _ => "dict"
  end.

(** [v.get(key, default)]: only a dictionary has the method. *)
Definition get (v : value) (key : string) (default : value) : outcome value :=
  match v with
  | VDict d =>
      Returned (match lookup_key key d with Some x => x | None => default end)
  | _ => Raised ("'" ++ type_name v ++ "' object has no attribute 'get'")
  end.

(** [for x in v]: a list gives its items, a string its characters, a
    dictionary its keys; nothing else can be iterated. *)
Definition iterate (v : value) : outcome (list value) :=
  match v with
  | VList l => Returned l
  | VStr s => Returned (map (fun c => VStr (String c "")) (list_ascii_of_string s))
  | VDict d => Returned (map (fun kv => VStr (fst kv)) d)
  | _ => Raised ("'" ++ type_name v ++ "' object is not iterable")
  end.

(** The counters of one run and the entries of its [errors] list, each a
    message id with the text of the exception. *)
Record Counts : Type := mkCounts {
  synced_count : Z;
  new_count : Z;
  updated_count : Z;
  errors : list (value * string)
}.

(** What [sync_user_inbox] returns: the dictionary with status
    ["success"] or the one with status ["error"]. *)
Inductive SyncResult : Type :=
| Success (synced new updated : Z) (errors : option (list (value * string)))
          (last_sync : string)
| Error (error : string).

(** [errors if errors else None]. *)
Definition or_none {A : Type} (l : list A) : option (list A) :=
  match l with [] => None | _ => Some l end.

Section Service.

(** The database session and the user row it holds, as one state. *)
Variable Session : Type.

(** The collaborators; each may change the session and may raise. *)
Variable get_valid_access_token : Session -> Session * outcome string.
(** [graph.list_messages(folder=, limit=, filter_query=)] with a token. *)
Variable list_messages :
  string -> string -> Z -> option string -> outcome value.
(** Whether [db.query(Email).filter(graph_message_id == id).first()] finds
    a row. *)
Variable existing : Session -> value -> Session * outcome bool.
Variable sync_email_from_graph : Session -> value -> Session * outcome unit.
(** [user.last_email_sync_time = datetime.utcnow()], giving the time in
    ISO format with the session that holds it. *)
Variable touch : Session -> Session * string.
Variable commit : Session -> Session * outcome unit.

Definition failed (c : Counts) (message_id : value) (e : string) : Counts :=
  mkCounts (synced_count c) (new_count c) (updated_count c)
           (errors c ++ [(message_id, e)]).

(** The body of the loop for one message.  An exception is recorded
    under [email_data.get("id")]; where that call itself raises, it
    raises again in the handler and leaves the loop. *)
Definition sync_one (db : Session) (c : Counts) (email_data : value)
  : Session * outcome Counts :=
  match get email_data "id" VNone with
  | Raised e => (db, Raised e)
  | Returned graph_message_id =>
      match existing db graph_message_id with
      | (db, Raised e) => (db, Returned (failed c graph_message_id e))
      | (db, Returned true) =>
          (db, Returned (mkCounts (synced_count c + 1) (new_count c)
                                  (updated_count c + 1) (errors c)))
      | (db, Returned false) =>
          match sync_email_from_graph db email_data with
          | (db, Raised e) => (db, Returned (failed c graph_message_id e))
          | (db, Returned _) =>
              (db, Returned (mkCounts (synced_count c + 1) (new_count c + 1)
                                      (updated_count c) (errors c)))
          end
      end
  end.

Fixpoint sync_loop (messages : list value) (db : Session) (c : Counts)
  : Session * outcome Counts :=
  match messages with
  | [] => (db, Returned c)
  | email_data :: rest =>
      match sync_one db c email_data with
      | (db, Returned c) => sync_loop rest db c
      | (db, Raised e) => (db, Raised e)
      end
  end.

(** [result.get("value", [])], as the loop iterates it. *)
Definition listed (result : value) : outcome (list value) :=
  match get result "value" (VList []) with
  | Returned v => iterate v
  | Raised e => Raised e
  end.

(** [since] is the ISO text of the date, when one is given. *)
Definition filter_query (since : option string) : option string :=
  match since with
  | Some iso => Some ("receivedDateTime ge " ++ iso ++ "Z")
  | None => None
  end.

Definition sync_user_inbox (db : Session) (folder : string) (limit : Z)
  (since : option string) : Session * SyncResult :=
  match get_valid_access_token db with
  | (db, Raised e) => (db, Error e)
  | (db, Returned access_token) =>
      match list_messages access_token folder limit (filter_query since) with
      | Raised e => (db, Error e)
      | Returned result =>
          match listed result with
          | Raised e => (db, Error e)
          | Returned messages =>
              match sync_loop messages db (mkCounts 0 0 0 []) with
              | (db, Raised e) => (db, Error e)
              | (db, Returned c) =>
                  let (db, last_sync) := touch db in
                  match commit db with
                  | (db, Raised e) => (db, Error e)
                  | (db, Returned _) =>
                      (db, Success (synced_count c) (new_count c)
                                   (updated_count c) (or_none (errors c))
                                   last_sync)
                  end
              end
          end
      end
  end.

(** [r.get("synced_count", 0)]. *)
Definition synced_of (r : SyncResult) : Z :=
  match r with
  | Success synced _ _ _ _ => synced
  | Error _ => 0
  end.

Definition FOLDERS : list string := ["inbox"; "sentItems"; "drafts"].

Fixpoint sync_folders (folders : list string) (db : Session)
  (limit_per_folder : Z) : Session * list (string * SyncResult) :=
  match folders with
  | [] => (db, [])
  | folder :: rest =>
      let (db, r) := sync_user_inbox db folder limit_per_folder None in
      let (db, results) := sync_folders rest db limit_per_folder in
      (db, (folder, r) :: results)
  end.

(** [sync_all_folders]: the total with the results by folder. *)
Definition sync_all_folders (db : Session) (limit_per_folder : Z)
  : Session * (Z * list (string * SyncResult)) :=
  let (db, results) := sync_folders FOLDERS db limit_per_folder in
  (db, (fold_right Z.add 0 (map (fun kr => synced_of (snd kr)) results),
        results)).

End Service.

Arguments sync_one {Session}.
Arguments sync_loop {Session}.
Arguments sync_user_inbox {Session}.
Arguments sync_folders {Session}.
Arguments sync_all_folders {Session}.

(** Vocabulary for the statements: what the loop keeps true of its
    counters when [seen] messages have been handled, and the number of
    entries of a returned [errors]. *)
Definition balanced (seen : Z) (c : Counts) : Prop :=
  synced_count c = new_count c + updated_count c /\
  0 <= new_count c /\ 0 <= updated_count c /\
  synced_count c + Z.of_nat (List.length (errors c)) = seen.

Definition size (errors : option (list (value * string))) : Z :=
  match errors with Some l => Z.of_nat (List.length l) | None => 0 end.

(** The messages a result accounts for as new or updated. *)
Definition accounted (r : SyncResult) : Z :=
  match r with
  | Success _ new updated _ _ => new + updated
  | Error _ => 0
  end.

(** *** A sample store: the session is the list of the ids it holds *)

Definition sample_token (db : list string) : list string * outcome string :=
  (db, Returned "token").

Definition sample_messages (access_token folder : string) (limit : Z)
  (filter_query : option string) : outcome value :=
  if String.eqb folder "inbox"
  then Returned (VDict [("value",
         VList [VDict [("id", VStr "m1")];
                VDict [("id", VStr "m2")];
                VDict [("subject", VStr "no id")];
                VDict [("id", VStr "m2")]])])
  else if String.eqb folder "drafts"
  then Raised "Graph API error: 503"
  else Returned (VDict []).

Definition sample_existing (db : list string) (id : value)
  : list string * outcome bool :=
  match id with
  | VStr s => (db, Returned (existsb (String.eqb s) db))
  | _ => (db, Raised "unsupported operand")
  end.

Definition sample_sync (db : list string) (email_data : value)
  : list string * outcome unit :=
  match field email_data "id" with
  | VStr s => (s :: db, Returned tt)
  | _ => (db, Raised "id is missing")
  end.

Definition sample_touch (db : list string) : list string * string :=
  (db, "2024-03-31T10:00:00").

Definition sample_commit (db : list string) : list string * outcome unit :=
  (db, Returned tt).

End SyncService.

(** ** [utils/decorators.py]: the authentication dependencies *)

Module Decorators.
Export ClientSchema.
Local Open Scope string_scope.

(** The columns of [User] the dependencies read; [access_token] is
    stored encrypted, and each of the last three may be null. *)
Record User : Type := mkUser {
  id : string;
  access_token : option string;
  role : option string;
  is_active : option bool
}.

(** What a dependency does: it returns, or raises [HTTPException]. *)
Inductive result (A : Type) : Type :=
| Ok (value : A)
| HTTPException (status_code : Z) (detail : string).
Arguments Ok {A} value.
Arguments HTTPException {A} status_code detail.

(** Truth of a nullable boolean column. *)
Definition truthy (b : option bool) : bool :=
  match b with Some true => true | _ => false end.

Section Auth.

(** [encryption.decrypt], which may raise. *)
Variable decrypt : string -> outcome string.

(** The loop over the users that have an access token: the first whose
    token decrypts to the bearer token; a token that does not decrypt is
    passed over. *)
Fixpoint by_access_token (users : list User) (token : string) : option User :=
  match users with
  | [] => None
  | u :: rest =>
      match access_token u with
      | None => by_access_token rest token
      | Some encrypted =>
          match decrypt encrypted with
          | Returned decrypted =>
              if String.eqb decrypted token then Some u
              else by_access_token rest token
          | Raised _ => by_access_token rest token
          end
      end
  end.

(** [db] is the table of users. *)
Definition get_current_user (credentials : option string) (db : list User)
  : result User :=
  match credentials with
  | None => HTTPException 401 "Not authenticated"
  | Some token =>
      let user :=
        match find (fun u => String.eqb (id u) token) db with
        | Some u => Some u
        | None => by_access_token db token
        end in
      match user with
      | None => HTTPException 401 "Invalid authentication credentials"
      | Some user =>
          if negb (truthy (is_active user))
          then HTTPException 401 "User account is disabled"
          else Ok user
      end
  end.

Definition get_current_user_optional (credentials : option string)
  (db : list User) : option User :=
  match credentials with
  | None => None
  | Some _ =>
      match get_current_user credentials db with
      | Ok user => Some user
      | HTTPException _ _ => None
      end
  end.

(** [user.role in allowed_roles]. *)
Definition role_in (user : User) (allowed_roles : list string) : bool :=
  match role user with
  | Some r => existsb (String.eqb r) allowed_roles
  | None => false
  end.

(** [require_role(allowed_roles)], with the user that
    [Depends(get_current_user)] supplies. *)
Definition require_role (allowed_roles : list string)
  (credentials : option string) (db : list User) : result User :=
  match get_current_user credentials db with
  | Ok user =>
      if negb (role_in user allowed_roles)
      then HTTPException 403 "Insufficient permissions"
      else Ok user
  | HTTPException status_code detail => HTTPException status_code detail
  end.

Definition AdminOnly : option string -> list User -> result User :=
  require_role ["admin"].

End Auth.

(** A user that may use the bearer token [token]: the token is the
    user's id, or what the stored access token decrypts to. *)
Definition holds (decrypt : string -> outcome string) (user : User)
  (token : string) : Prop :=
  id user = token \/
  exists encrypted,
    access_token user = Some encrypted /\ decrypt encrypted = Returned token.

(** *** A sample table; stored tokens are the plain ones behind [enc:] *)

Definition sample_decrypt (encrypted : string) : outcome string :=
  match encrypted with
  | String "e" (String "n" (String "c" (String ":" plain))) => Returned plain
  | _ => Raised "InvalidToken"
  end.

Definition sample_users : list User :=
  [mkUser "u-1" (Some "garbled") (Some "accountant") (Some true);
   mkUser "u-2" (Some "enc:secret-2") (Some "admin") (Some true);
   mkUser "u-3" (Some "enc:secret-3") (Some "admin") (Some false)].

End Decorators.

(** ** [routes/webhooks.py]: [webhook_notification] *)

Module Webhooks.
Import Threading SyncService.
Local Open Scope string_scope.
Local Open Scope Z_scope.

(** Truth of a payload value. *)
Definition truthy (v : value) : bool :=
  match v with
  | VNone => false
  | VBool b => b
  | VInt n => negb (n =? 0)
  | VStr s => negb (Pystr.is_empty s)
  | VList l => match l with [] => false | _ => true end
  | VDict d => match d with [] => false | _ => true end
  end.

(** [key in v] for a string [key]; the exception is [TypeError]. *)
Definition contains (v : value) (key : string) : outcome bool :=
  match v with
  | VDict d => Returned (match lookup_key key d with Some _ => true | None => false end)
  | VList l =>
      Returned (existsb (fun x => match x with VStr s => String.eqb s key | _ => false end) l)
  | VStr s => Returned (EmailTemplate.occurs key s)
  | _ => Raised "TypeError"
  end.

(** [v[key]] for a string [key]. *)
Definition item (v : value) (key : string) : outcome value :=
  match v with
  | VDict d =>
      match lookup_key key d with
      | Some x => Returned x
      | None => Raised "KeyError"
      end
  | _ => Raised "TypeError"
  end.

(** [v[0]]. *)
Definition first (v : value) : outcome value :=
  match v with
  | VList (x :: _) => Returned x
  | VList [] => Raised "IndexError"
  | VStr (String c _) => Returned (VStr (String c ""))
  | VStr EmptyString => Raised "IndexError"
  | VDict _ => Raised "KeyError"
  | _ => Raised "TypeError"
  end.

(** An entry of [errors], by the place that appends it. *)
Inductive entry : Type :=
| InvalidClientState
| UnknownSubscription (subscription_id : value)
| TokenFailure (user_id : string)
| Failed (message : string).

(** What the route answers. *)
Inductive reply : Type :=
| PlainTextResponse (content : value)
| Processed (processed : Z) (errors : option (list entry))
| BadRequest (detail : string)
| Uncaught (exception : string).

Record Progress : Type := mkProgress {
  processed : Z;
  errors : list entry
}.

Definition note (p : Progress) (e : entry) : Progress :=
  mkProgress (processed p) (errors p ++ [e]).

Definition count (p : Progress) : Progress :=
  mkProgress (processed p + 1) (errors p).

Section Route.

Variable Session : Type.
Variable User : Type.
Variable user_id : User -> string.
(** [settings.webhook_secret]. *)
Variable webhook_secret : string.
(** [db.query(User).filter(graph_subscription_id == id).first()]. *)
Variable find_user : Session -> value -> Session * outcome (option User).
Variable get_valid_access_token : Session -> User -> Session * outcome string.
(** [GraphService(access_token).get_message(message_id)]. *)
Variable get_message : string -> value -> outcome value.
Variable sync_email_from_graph :
  Session -> value -> User -> Session * outcome unit.

(** Whether the notification carries the secret as its client state. *)
Definition authentic (notification : value) : bool :=
  match get notification "clientState" VNone with
  | Returned (VStr s) => String.eqb s webhook_secret
  | _ => false
  end.

(** The work for a notification of a known user with a token. *)
Definition apply_change (db : Session) (p : Progress) (user : User)
  (access_token : string) (change_type resource_data : value)
  : Session * Progress :=
  match change_type with
  | VStr "created" =>
      match get resource_data "id" VNone with
      | Raised e => (db, note p (Failed e))
      | Returned message_id =>
          if truthy message_id
          then
            match get_message access_token message_id with
            | Raised e => (db, note p (Failed e))
            | Returned email_data =>
                match sync_email_from_graph db email_data user with
                | (db, Raised e) => (db, note p (Failed e))
                | (db, Returned _) => (db, count p)
                end
            end
          else (db, p)
      end
  | VStr "updated" => (db, count p)
  | VStr "deleted" => (db, count p)
  | _ => (db, p)
  end.

(** What the handler of the loop does with an exception. *)
Definition attempt {A : Type} (o : outcome A) (db : Session) (p : Progress)
  (k : A -> Session * Progress) : Session * Progress :=
  match o with
  | Returned a => k a
  | Raised e => (db, note p (Failed e))
  end.

(** The body of the loop for one notification. *)
Definition handle (db : Session) (p : Progress) (notification : value)
  : Session * Progress :=
  attempt (get notification "clientState" VNone) db p (fun client_state =>
  if match client_state with
     | VStr s => negb (String.eqb s webhook_secret)
     | _ => true
     end
  then (db, note p InvalidClientState)
  else
    attempt (get notification "subscriptionId" VNone) db p (fun subscription_id =>
    attempt (get notification "changeType" VNone) db p (fun change_type =>
    attempt (get notification "resource" (VStr "")) db p (fun resource =>
    attempt (get notification "resourceData" (VDict [])) db p (fun resource_data =>
    match find_user db subscription_id with
    | (db, Raised e) => (db, note p (Failed e))
    | (db, Returned None) =>
        (db, note p (UnknownSubscription subscription_id))
    | (db, Returned (Some user)) =>
        match get_valid_access_token db user with
        | (db, Raised _) => (db, note p (TokenFailure (user_id user)))
        | (db, Returned access_token) =>
            apply_change db p user access_token change_type resource_data
        end
    end))))).

Fixpoint notify_loop (notifications : list value) (db : Session)
  (p : Progress) : Session * Progress :=
  match notifications with
  | [] => (db, p)
  | notification :: rest =>
      let (db, p) := handle db p notification in
      notify_loop rest db p
  end.

(** [body.get("value", [])], as the loop iterates it; [AttributeError]
    and [TypeError] are not caught. *)
Definition notifications_of (body : value) : outcome (list value) :=
  match get body "value" (VList []) with
  | Raised _ => Raised "AttributeError"
  | Returned v =>
      match iterate v with
      | Raised _ => Raised "TypeError"
      | Returned l => Returned l
      end
  end.

(** [validation_token] is [request.query_params["validationToken"]] when
    the key is there, [body] what [await request.json()] does. *)
Definition webhook_notification (validation_token : option string)
  (body : outcome value) (db : Session) : Session * reply :=
  match validation_token with
  | Some validation_token => (db, PlainTextResponse (VStr validation_token))
  | None =>
      match body with
      | Raised _ => (db, BadRequest "Invalid request body")
      | Returned body =>
          match contains body "validationTokens" with
          | Raised e => (db, Uncaught e)
          | Returned true =>
              match item body "validationTokens" with
              | Raised e => (db, Uncaught e)
              | Returned tokens =>
                  match first tokens with
                  | Raised e => (db, Uncaught e)
                  | Returned token => (db, PlainTextResponse token)
                  end
              end
          | Returned false =>
              match notifications_of body with
              | Raised e => (db, Uncaught e)
              | Returned notifications =>
                  let (db, p) :=
                    notify_loop notifications db (mkProgress 0 []) in
                  (db, Processed (processed p) (or_none (errors p)))
              end
          end
      end
  end.

End Route.

Arguments authentic webhook_secret notification : assert.
Arguments apply_change {Session User}.
Arguments attempt {Session A}.
Arguments handle {Session User}.
Arguments notify_loop {Session User}.
Arguments webhook_notification {Session User}.

(** The number of entries of a returned [errors]. *)
Definition size (errors : option (list entry)) : Z :=
  match errors with Some l => Z.of_nat (List.length l) | None => 0 end.

(** The entry a notification without the secret leaves. *)
Definition reject (notification : value) : entry :=
  match get notification "clientState" VNone with
  | Raised e => Failed e
  | Returned _ => InvalidClientState
  end.

(** What one notification adds: at most one count, and only when it
    carries the secret; an error entry when it does not. *)
Definition step_ok (authentic : bool) (p p' : Progress) : Prop :=
  let dp := processed p' - processed p in
  let de := Z.of_nat (List.length (errors p'))
            - Z.of_nat (List.length (errors p)) in
  0 <= dp /\ 0 <= de /\ dp + de <= 1 /\
  (authentic = false -> dp = 0 /\ de = 1).

(** The number of notifications that carry the secret. *)
Definition authentic_count (webhook_secret : string)
  (notifications : list value) : Z :=
  Z.of_nat (List.length (filter (authentic webhook_secret) notifications)).

(** *** A sample run: the session counts the synchronised messages *)

Definition sample_find (db : nat) (subscription_id : value)
  : nat * outcome (option string) :=
  match subscription_id with
  | VStr "sub-1" => (db, Returned (Some "u-1"))
  | _ => (db, Returned None)
  end.

Definition sample_token (db : nat) (user : string) : nat * outcome string :=
  (db, Returned "token").

Definition sample_message (access_token : string) (message_id : value)
  : outcome value :=
  Returned (VDict [("id", message_id)]).

Definition sample_sync (db : nat) (email_data : value) (user : string)
  : nat * outcome unit :=
  (S db, Returned tt).

Definition sample_body : value :=
  VDict [("value",
    VList [VDict [("clientState", VStr "s3cret"); ("subscriptionId", VStr "sub-1");
                  ("changeType", VStr "created");
                  ("resourceData", VDict [("id", VStr "m-1")])];
           VDict [("clientState", VStr "guess"); ("subscriptionId", VStr "sub-1");
                  ("changeType", VStr "created");
                  ("resourceData", VDict [("id", VStr "m-2")])];
           VDict [("clientState", VStr "s3cret"); ("subscriptionId", VStr "sub-9");
                  ("changeType", VStr "updated")]])].

Definition foreign_body : value :=
  VDict [("value",
    VList [VDict [("clientState", VStr "guess"); ("subscriptionId", VStr "sub-1");
                  ("changeType", VStr "created");
                  ("resourceData", VDict [("id", VStr "m-2")])];
           VDict [("subscriptionId", VStr "sub-1"); ("changeType", VStr "deleted")];
           VStr "sub-1"])].

End Webhooks.

(** ** Sample lookups and payloads, after the test suite *)

Module Examples.
Import Threading.

(** A store that knows nothing. *)
Definition empty_lookup : Lookup :=
  mkLookup (fun _ => None) (fun _ => None) (fun _ _ _ => None).

(** A store with the thread T1 of conversation conv-1, and with the email
    email-789 of thread-456, whose message id is parent@example.com. *)
Definition stored_lookup : Lookup :=
  mkLookup
    (fun conversation_id =>
       if String.eqb conversation_id "conv-1" then Some (mkThread "T1")
       else None)
    (fun message_id =>
       if String.eqb message_id "parent@example.com"
       then Some (mkEmail "email-789" "thread-456")
       else None)
    (fun _ _ _ => None).

Definition flat_confidence (email_data : value) (thread : EmailThread) : float :=
  0.7%float.

Definition address (a : string) : value :=
  VDict [("emailAddress", VDict [("address", VStr a)])].

Definition new_conversation : value :=
  VDict [ ("subject", VStr "Brand new conversation");
          ("from", address "sender@example.com");
          ("toRecipients", VList [address "recipient@example.com"]) ].

Definition in_conversation : value :=
  VDict [ ("conversationId", VStr "conv-1") ].

Definition reply : value :=
  VDict [ ("internetMessageHeaders",
           VList [ VDict [ ("name", VStr "In-Reply-To");
                           ("value", VStr "<parent@example.com>") ] ]) ].

Definition reply_by_references : value :=
  VDict [ ("internetMessageHeaders",
           VList [ VDict [ ("name", VStr "References");
                           ("value",
                            VStr "<root@example.com> <parent@example.com>") ] ]) ].

(** A reply that also carries the conversation id of a stored thread. *)
Definition reply_in_conversation : value :=
  VDict [ ("conversationId", VStr "conv-1");
          ("internetMessageHeaders",
           VList [ VDict [ ("name", VStr "In-Reply-To");
                           ("value", VStr "<parent@example.com>") ] ]) ].

Definition mixed_case : value :=
  VDict [ ("from", address " Sender@Example.COM ");
          ("toRecipients",
           VList [ address "user1@example.com";
                   VStr "not an entry";
                   address "User2@Example.COM" ]);
          ("ccRecipients", VStr "not a list") ].

End Examples.

(** * Properties *)

(** ** Pattern matching *)

Module ReFacts.
Import Chars Re.
Local Open Scope string_scope.

Lemma match_here_many (a : atom) (r : list item) (c : ascii) (t : string) :
  match_here (Many a :: r) (String c t) =
  if atom_matches a c
  then (if match_here r t then true else match_here (Many a :: r) t)
  else false.
Proof. reflexivity. Qed.

Lemma match_here_sound (p : list item) :
  forall s, match_here p s = true ->
            exists m rest, s = m ++ rest /\ matches_all p m.
Proof.
  induction p as [|[a|a|a] r IH]; intros s H.
  - exists EmptyString, s. split; [reflexivity | constructor].
  - destruct s as [|c s]; [discriminate|]. cbn [match_here] in H.
    destruct (atom_matches a c) eqn:A; [|discriminate].
    destruct (IH s H) as (m & rest & -> & Hm).
    exists (String c m), rest. split; [reflexivity | constructor; assumption].
  - induction s as [|c s IHs]; [discriminate|].
    rewrite match_here_many in H.
    destruct (atom_matches a c) eqn:A; [|discriminate].
    destruct (match_here r s) eqn:R.
    + destruct (IH s R) as (m & rest & -> & Hm).
      exists (String c m), rest.
      split; [reflexivity | apply matches_many_last; assumption].
    + destruct (IHs H) as (m & rest & -> & Hm).
      exists (String c m), rest.
      split; [reflexivity | apply matches_many_more; assumption].
  - cbn [match_here] in H.
    destruct s as [|c s].
    + destruct (IH _ H) as (m & rest & E & Hm).
      exists m, rest. split; [exact E | apply matches_maybe_none; exact Hm].
    + destruct (atom_matches a c) eqn:A.
      * destruct (match_here r s) eqn:R.
        -- destruct (IH s R) as (m & rest & -> & Hm).
           exists (String c m), rest.
           split; [reflexivity | apply matches_maybe_one; assumption].
        -- destruct (IH _ H) as (m & rest & E & Hm).
           exists m, rest. split; [exact E | apply matches_maybe_none; exact Hm].
      * destruct (IH _ H) as (m & rest & E & Hm).
        exists m, rest. split; [exact E | apply matches_maybe_none; exact Hm].
Qed.

Lemma match_here_complete (p : list item) (m : string) :
  matches_all p m -> forall rest, match_here p (m ++ rest) = true.
Proof.
  induction 1 as [ | a c r s A _ IH | a r s _ IH | a c r s A _ IH
                   | a c r s A _ IH | a c r s A _ IH ]; intros rest.
  - reflexivity.
  - cbn [append match_here]. rewrite A. apply IH.
  - cbn [match_here]. rewrite IH.
    destruct (s ++ rest) as [|c t]; [reflexivity|].
    destruct (atom_matches a c); [destruct (match_here r t)|]; reflexivity.
  - cbn [append match_here]. rewrite A, IH. reflexivity.
  - cbn [append]. rewrite match_here_many, A, IH. reflexivity.
  - cbn [append]. rewrite match_here_many, A, IH.
    destruct (match_here r (s ++ rest)); reflexivity.
Qed.

(** [search_items] finds a match exactly when some part of the text matches
    the pattern in full. *)
Lemma search_items_spec (p : list item) (s : string) :
  search_items p s = true <->
  exists before m after, s = before ++ m ++ after /\ matches_all p m.
Proof.
  split.
  - induction s as [|c s IH]; cbn [search_items].
    + destruct (match_here p EmptyString) eqn:E; [|discriminate]. intros _.
      destruct (match_here_sound p _ E) as (m & rest & Hs & Hm).
      exists EmptyString, m, rest. auto.
    + destruct (match_here p (String c s)) eqn:E.
      * intros _. destruct (match_here_sound p _ E) as (m & rest & Hs & Hm).
        exists EmptyString, m, rest. auto.
      * intros H. destruct (IH H) as (before & m & after & -> & Hm).
        exists (String c before), m, after. auto.
  - intros (before & m & after & -> & Hm).
    induction before as [|c before IH]; cbn [append].
    + destruct (m ++ after) eqn:E; cbn [search_items]; rewrite <- E;
        rewrite (match_here_complete p m Hm after); reflexivity.
    + cbn [search_items]. rewrite IH.
      destruct (match_here p (String c (before ++ m ++ after))); reflexivity.
Qed.

End ReFacts.

(** ** Classification *)

Module ClassifierFacts.
Import Chars Classifier.

Lemma EmailType_eqb_eq (a b : EmailType) : EmailType_eqb a b = true <-> a = b.
Proof. destruct a, b; simpl; split; congruence. Qed.

(** Every pattern of the table lies in the fragment [Re.compile] reads. *)
Lemma PATTERNS_compile :
  forallb (fun entry => forallb (fun p => match Re.compile p with Some _ => true | None => false end)
                          (snd entry)) PATTERNS = true.
Proof. vm_compute. reflexivity. Qed.

Lemma any_match_true (patterns : list string) (text : string) :
  any_match patterns text = true <->
  exists pattern, In pattern patterns /\ Re.search pattern text = true.
Proof.
  induction patterns as [|p ps IH]; simpl.
  - split; [discriminate | intros (q & [] & _)].
  - destruct (Re.search p text) eqn:E.
    + split; [intros _; exists p; auto | reflexivity].
    + rewrite IH. split.
      * intros (q & Hq & Hs). exists q. auto.
      * intros (q & [<- | Hq] & Hs); [congruence | exists q; auto].
Qed.

Lemma any_match_false (patterns : list string) (text : string) :
  any_match patterns text = false <->
  forall pattern, In pattern patterns -> Re.search pattern text = false.
Proof.
  split.
  - intros H q Hq. destruct (Re.search q text) eqn:E; [|reflexivity].
    assert (any_match patterns text = true) as H'
      by (apply any_match_true; exists q; auto).
    congruence.
  - intros H. destruct (any_match patterns text) eqn:E; [|reflexivity].
    apply any_match_true in E. destruct E as (q & Hq & Hs).
    rewrite (H q Hq) in Hs. discriminate.
Qed.

Lemma classify_loop_cons (t : EmailType) (order : list EmailType) (text : string) :
  classify_loop (t :: order) text =
  if any_match (get PATTERNS t) text then t else classify_loop order text.
Proof. reflexivity. Qed.

(** The loop of [classify] stops at the first type of [order] with a match. *)
Lemma classify_loop_first (order : list EmailType) (text : string) :
  (exists email_type, In email_type order /\ matched email_type text) ->
  exists before after,
    order = before ++ classify_loop order text :: after /\
    matched (classify_loop order text) text /\
    forall earlier, In earlier before -> ~ matched earlier text.
Proof.
  induction order as [|t order IH]; intros (t0 & Hin & Hm).
  - destruct Hin.
  - rewrite classify_loop_cons.
    destruct (any_match (get PATTERNS t) text) eqn:E.
    + exists [], order. repeat split.
      * apply any_match_true. exact E.
      * intros earlier [].
    + destruct Hin as [-> | Hin].
      * apply any_match_true in Hm. congruence.
      * destruct IH as (before & after & Heq & Hhit & Hmiss).
        { exists t0. auto. }
        exists (t :: before), after. repeat split.
        -- simpl. f_equal. exact Heq.
        -- exact Hhit.
        -- intros earlier [<- | Hearlier].
           ++ intros Hc. apply any_match_true in Hc. congruence.
           ++ apply Hmiss. exact Hearlier.
Qed.

Lemma classify_loop_none (order : list EmailType) (text : string) :
  (forall email_type, In email_type order -> ~ matched email_type text) ->
  classify_loop order text = GENERAL.
Proof.
  induction order as [|t order IH]; intros H.
  - reflexivity.
  - rewrite classify_loop_cons.
    destruct (any_match (get PATTERNS t) text) eqn:E.
    + exfalso. apply (H t); [left; reflexivity | apply any_match_true; exact E].
    + apply IH. intros t' Ht'. apply H. right. exact Ht'.
Qed.

(** A type with a pattern of its own stands in the priority order. *)
Lemma matched_in_priority (email_type : EmailType) (text : string) :
  matched email_type text -> In email_type PRIORITY_ORDER.
Proof.
  intros (p & Hp & _). destruct email_type; simpl; auto 10; destruct Hp.
Qed.

Lemma general_unmatched (text : string) : ~ matched GENERAL text.
Proof. intros (p & [] & _). Qed.

(** C1: whenever the lowercased text of subject and body matches a pattern
    of COMPLIANCE_NOTICE and a pattern of GST_FILING, [classify] answers
    COMPLIANCE_NOTICE; the subject "URGENT NOTICE: GST Filing Required" is
    such a text. *)
Theorem classify_compliance_preempts_gst :
  (forall subject body,
     matched COMPLIANCE_NOTICE (text_of subject body) ->
     matched GST_FILING (text_of subject body) ->
     classify subject body = COMPLIANCE_NOTICE) /\
  (matched COMPLIANCE_NOTICE (text_of "URGENT NOTICE: GST Filing Required" None) /\
   matched GST_FILING (text_of "URGENT NOTICE: GST Filing Required" None) /\
   classify "URGENT NOTICE: GST Filing Required" None = COMPLIANCE_NOTICE).
Proof.
  split.
  - intros subject body Hnotice _. unfold classify, PRIORITY_ORDER.
    rewrite classify_loop_cons.
    apply any_match_true in Hnotice. rewrite Hnotice. reflexivity.
  - split; [|split].
    + exists "urgent\s+notice". split; [simpl; tauto | vm_compute; reflexivity].
    + exists "gst\s+filing". split; [simpl; tauto | vm_compute; reflexivity].
    + vm_compute. reflexivity.
Qed.

Lemma classify_compliance_preempts_gst_witness :
  classify "Penalty notice: GST return overdue" (Some "GSTIN 22AAAAA0000A1Z5")
  = COMPLIANCE_NOTICE.
Proof.
  apply (proj1 classify_compliance_preempts_gst).
  - exists "penalty\s+notice". split; [simpl; tauto | vm_compute; reflexivity].
  - exists "gstin". split; [simpl; tauto | vm_compute; reflexivity].
Defined.

(** C3: [classify] always answers; the answer is GENERAL exactly when no
    pattern of any type matches the lowercased subject and body (an absent
    body counting as the empty string), and it is otherwise the first type
    of the priority order that has a matching pattern. *)
Theorem classify_general_iff_unmatched (subject : string) (body : option string) :
  let text := text_of subject body in
  (exists answer, classify subject body = answer) /\
  text_of subject None = lower (subject ++ " " ++ "") /\
  (classify subject body = GENERAL <->
   forall email_type pattern,
     In pattern (get PATTERNS email_type) -> Re.search pattern text = false) /\
  ((exists email_type, matched email_type text) ->
   exists before after,
     PRIORITY_ORDER = before ++ classify subject body :: after /\
     matched (classify subject body) text /\
     forall earlier, In earlier before -> ~ matched earlier text).
Proof.
  intros text. subst text. set (text := text_of subject body).
  split; [eexists; reflexivity|]. split; [reflexivity|].
  assert (Hfirst : (exists email_type, matched email_type text) ->
                   exists before after,
                     PRIORITY_ORDER = before ++ classify subject body :: after /\
                     matched (classify subject body) text /\
                     forall earlier, In earlier before -> ~ matched earlier text).
  { intros (t & Ht). apply classify_loop_first. exists t.
    split; [eapply matched_in_priority; exact Ht | exact Ht]. }
  split; [split|exact Hfirst].
  - intros Hgen t p Hp. destruct (Re.search p text) eqn:E; [|reflexivity].
    exfalso. destruct Hfirst as (before & after & _ & Hhit & _).
    { exists t, p. auto. }
    rewrite Hgen in Hhit. exact (general_unmatched _ Hhit).
  - intros Hnone. apply classify_loop_none. intros t _ (p & Hp & Hs).
    fold text in Hs. rewrite (Hnone t p Hp) in Hs. discriminate.
Qed.

(** C4: the two entry points can disagree: a text with one pattern of
    COMPLIANCE_NOTICE and two of GST_FILING is COMPLIANCE_NOTICE for
    [classify] and GST_FILING for [get_classification_confidence]. *)
Theorem classify_and_confidence_disagree :
  exists subject body,
    count COMPLIANCE_NOTICE (text_of subject body) = 1%Z /\
    count GST_FILING (text_of subject body) = 2%Z /\
    classify subject body = COMPLIANCE_NOTICE /\
    type (get_classification_confidence subject body) = GST_FILING /\
    classify subject body <> type (get_classification_confidence subject body).
Proof.
  exists "Urgent notice: GST filing and GST return", None.
  repeat split; try (vm_compute; reflexivity).
  vm_compute. discriminate.
Qed.

(** *** Counting *)

Local Open Scope Z_scope.

Lemma count_table_filter (table : list (EmailType * list string)) (text : string) :
  count_table table text = filter (fun e => 0 <? snd e) (counts table text).
Proof.
  induction table as [|[t ps] table IH]; simpl; [reflexivity|].
  destruct (0 <? match_count ps text); rewrite IH; reflexivity.
Qed.

Lemma match_count_bounds (patterns : list string) (text : string) :
  0 <= match_count patterns text <= Z.of_nat (List.length patterns).
Proof.
  induction patterns as [|p ps IH]; simpl List.length; simpl match_count.
  - lia.
  - destruct (Re.search p text); lia.
Qed.

Lemma match_count_positive (patterns : list string) (text : string) :
  0 < match_count patterns text <-> any_match patterns text = true.
Proof.
  induction patterns as [|p ps IH]; simpl.
  - split; [lia | discriminate].
  - pose proof (match_count_bounds ps text) as Hb.
    destruct (Re.search p text); [split; [reflexivity | lia]|].
    rewrite <- IH. split; lia.
Qed.

(** [max_from] answers the first entry whose count is largest. *)
Lemma max_from_first (rest : list (EmailType * Z)) :
  forall best, exists pre post,
    best :: rest = pre ++ max_from best rest :: post /\
    (forall e, In e pre -> snd e < snd (max_from best rest)) /\
    (forall e, In e post -> snd e <= snd (max_from best rest)).
Proof.
  induction rest as [|e rest IH]; intros best; simpl.
  - exists [], []. repeat split; intros ? [].
  - destruct (snd best <? snd e) eqn:E.
    + apply Z.ltb_lt in E.
      destruct (IH e) as (pre & post & Heq & Hpre & Hpost).
      exists (best :: pre), post. repeat split.
      * simpl. f_equal. exact Heq.
      * intros x [<- | Hx]; [|apply Hpre; exact Hx].
        destruct pre as [|y pre]; simpl in Heq; injection Heq as Hy _.
        -- rewrite <- Hy. exact E.
        -- subst y. specialize (Hpre e (or_introl eq_refl)). lia.
      * exact Hpost.
    + apply Z.ltb_ge in E.
      destruct (IH best) as (pre & post & Heq & Hpre & Hpost).
      destruct pre as [|y pre]; simpl in Heq; injection Heq as Hy Hrest.
      * exists [], (e :: rest). repeat split.
        -- simpl. f_equal. exact Hy.
        -- intros ? [].
        -- intros x [<- | Hx]; [rewrite <- Hy; exact E|].
           apply Hpost. rewrite <- Hrest. exact Hx.
      * subst y. exists (best :: e :: pre), post. repeat split.
        -- simpl. do 2 f_equal. exact Hrest.
        -- intros x [<- | [<- | Hx]].
           ++ apply Hpre. left. reflexivity.
           ++ specialize (Hpre best (or_introl eq_refl)). lia.
           ++ apply Hpre. right. exact Hx.
        -- exact Hpost.
Qed.

Lemma filter_split {A : Type} (f : A -> bool) (l : list A) :
  forall pre x post,
    filter f l = pre ++ x :: post ->
    exists pre' post',
      l = pre' ++ x :: post' /\ filter f pre' = pre /\ filter f post' = post.
Proof.
  induction l as [|a l IH]; intros pre x post H; simpl in H.
  - destruct pre; discriminate.
  - destruct (f a) eqn:E.
    + destruct pre as [|y pre]; simpl in H; injection H as Ha Hl.
      * subst a. exists [], l. auto.
      * subst y. destruct (IH _ _ _ Hl) as (pre' & post' & -> & Hp & Hq).
        exists (a :: pre'), post'. simpl. rewrite E, Hp. auto.
    + destruct (IH _ _ _ H) as (pre' & post' & -> & Hp & Hq).
      exists (a :: pre'), post'. simpl. rewrite E. auto.
Qed.

(** The table holds each type once: [get] reads the entry itself. *)
Lemma PATTERNS_get (email_type : EmailType) (patterns : list string) :
  In (email_type, patterns) PATTERNS -> get PATTERNS email_type = patterns.
Proof.
  unfold PATTERNS. simpl In.
  intros H. repeat (destruct H as [H | H]; [injection H as <- <-; reflexivity|]).
  destruct H.
Qed.

Lemma PATTERNS_sizes (email_type : EmailType) (patterns : list string) :
  In (email_type, patterns) PATTERNS ->
  email_type <> GENERAL /\ Z.of_nat (List.length patterns) <= 9.
Proof.
  unfold PATTERNS. simpl In.
  intros H.
  repeat (destruct H as [H | H];
          [injection H as <- <-; split; [discriminate | simpl; lia]|]).
  destruct H.
Qed.

Lemma count_outside_table (email_type : EmailType) (text : string) :
  ~ In email_type (map fst PATTERNS) -> count email_type text = 0.
Proof.
  intros H. unfold count.
  destruct email_type; try reflexivity; exfalso; apply H; simpl; auto 10.
Qed.

(** The entry [get_classification_confidence] settles on. *)
Lemma winner_spec (text : string) (first : EmailType * Z)
  (rest : list (EmailType * Z)) :
  count_table PATTERNS text = first :: rest ->
  exists before patterns after,
    PATTERNS = before ++ (fst (max_from first rest), patterns) :: after /\
    snd (max_from first rest) = match_count patterns text /\
    0 < snd (max_from first rest) /\
    (forall e, In e before ->
       match_count (snd e) text < snd (max_from first rest)) /\
    (forall e, In e after ->
       match_count (snd e) text <= snd (max_from first rest)).
Proof.
  intros Htable.
  destruct (max_from_first rest first) as (pre & post & Heq & Hpre & Hpost).
  set (best := max_from first rest) in *.
  rewrite <- Htable, count_table_filter in Heq.
  destruct (filter_split _ _ _ _ _ Heq) as (pre' & post' & Hcounts & Hp & Hq).
  assert (Hpos : 0 < snd best).
  { assert (In best (filter (fun e => 0 <? snd e) (counts PATTERNS text))) as Hin
      by (rewrite Heq; apply in_or_app; right; left; reflexivity).
    apply filter_In in Hin. apply Z.ltb_lt. apply Hin. }
  unfold counts in Hcounts.
  apply map_eq_app in Hcounts. destruct Hcounts as (before & tail & HP & Hb & Ht).
  apply map_eq_cons in Ht. destruct Ht as (entry & after & -> & He & Ha).
  destruct entry as [t ps]. simpl in He.
  exists before, ps, after. rewrite <- He. simpl. repeat split.
  - exact HP.
  - rewrite <- He in Hpos. exact Hpos.
  - intros e Hin.
    assert (In (fst e, match_count (snd e) text) pre') as Hin'
      by (rewrite <- Hb; apply (in_map (fun entry => (fst entry, match_count (snd entry) text))); exact Hin).
    destruct (0 <? match_count (snd e) text) eqn:E.
    + assert (In (fst e, match_count (snd e) text) pre) as Hin2
        by (rewrite <- Hp; apply filter_In; split; [exact Hin' | exact E]).
      specialize (Hpre _ Hin2). rewrite <- He in Hpre. exact Hpre.
    + apply Z.ltb_ge in E. rewrite <- He in Hpos. simpl in Hpos. lia.
  - intros e Hin.
    assert (In (fst e, match_count (snd e) text) post') as Hin'
      by (rewrite <- Ha; apply (in_map (fun entry => (fst entry, match_count (snd entry) text))); exact Hin).
    destruct (0 <? match_count (snd e) text) eqn:E.
    + assert (In (fst e, match_count (snd e) text) post) as Hin2
        by (rewrite <- Hq; apply filter_In; split; [exact Hin' | exact E]).
      specialize (Hpost _ Hin2). rewrite <- He in Hpost. exact Hpost.
    + apply Z.ltb_ge in E. rewrite <- He in Hpos. simpl in Hpos. lia.
Qed.

Lemma PATTERNS_entry (email_type : EmailType) (pattern : string) :
  In pattern (get PATTERNS email_type) ->
  In (email_type, get PATTERNS email_type) PATTERNS.
Proof.
  destruct email_type; intros H; simpl in *; tauto.
Qed.

Lemma filter_none {A : Type} (f : A -> bool) (l : list A) :
  filter f l = [] <-> forall x, In x l -> f x = false.
Proof.
  induction l as [|a l IH]; simpl.
  - split; [intros _ x [] | reflexivity].
  - destruct (f a) eqn:E.
    + split; [discriminate|]. intros H. rewrite (H a) in E; [discriminate | auto].
    + rewrite IH. split.
      * intros H x [<- | Hx]; auto.
      * intros H x Hx. apply H. auto.
Qed.

(** The dict [matches] is empty exactly when nothing matches. *)
Lemma count_table_empty (text : string) :
  count_table PATTERNS text = [] <->
  forall email_type pattern,
    In pattern (get PATTERNS email_type) -> Re.search pattern text = false.
Proof.
  rewrite count_table_filter, filter_none. split.
  - intros H t p Hp.
    pose proof (PATTERNS_entry t p Hp) as Hentry.
    specialize (H (t, match_count (get PATTERNS t) text)).
    simpl in H.
    assert (Hz : (0 <? match_count (get PATTERNS t) text) = false).
    { apply H. unfold counts.
      apply (in_map (fun entry => (fst entry, match_count (snd entry) text))
                    PATTERNS (t, get PATTERNS t)).
      exact Hentry. }
    apply Z.ltb_ge in Hz.
    destruct (any_match (get PATTERNS t) text) eqn:E.
    + apply match_count_positive in E. lia.
    + exact (proj1 (any_match_false _ _) E p Hp).
  - intros H e He. unfold counts in He. apply in_map_iff in He.
    destruct He as ([t ps] & <- & Hin). simpl.
    apply Z.ltb_ge.
    destruct (any_match ps text) eqn:E.
    + apply any_match_true in E. destruct E as (p & Hp & Hs).
      rewrite <- (PATTERNS_get _ _ Hin) in Hp.
      rewrite (H t p Hp) in Hs. discriminate.
    + pose proof (match_count_bounds ps text) as Hb.
      destruct (Z.ltb_spec 0 (match_count ps text)) as [Hlt|Hge]; [|exact Hge].
      apply match_count_positive in Hlt. congruence.
Qed.

Lemma unmatched_iff (text : string) :
  (forall email_type pattern,
     In pattern (get PATTERNS email_type) -> Re.search pattern text = false) <->
  ~ exists email_type, matched email_type text.
Proof.
  split.
  - intros H (t & p & Hp & Hs). rewrite (H t p Hp) in Hs. discriminate.
  - intros H t p Hp. destruct (Re.search p text) eqn:E; [|reflexivity].
    exfalso. apply H. exists t, p. auto.
Qed.

(** The scores of one to nine matches. *)
Lemma confidence_of_values (n : Z) :
  1 <= n <= 9 ->
  (n = 1 -> confidence_of n = 0.7%float) /\
  (n = 2 -> confidence_of n = 0.8%float) /\
  (n = 3 -> confidence_of n = 0.9%float) /\
  (4 <= n -> confidence_of n = 0.95%float).
Proof.
  intros H.
  assert (n = 1 \/ n = 2 \/ n = 3 \/ n = 4 \/ n = 5 \/ n = 6 \/ n = 7 \/
          n = 8 \/ n = 9) as Hn by lia.
  repeat (destruct Hn as [-> | Hn];
          [repeat split; intros; try lia; vm_compute; reflexivity|]).
  subst n. repeat split; intros; try lia; vm_compute; reflexivity.
Qed.

(** The score of one to nine matches lies between 0.7 and 0.95. *)
Lemma confidence_of_range (n : Z) :
  1 <= n <= 9 ->
  (confidence_of n =? 0.5)%float = false /\
  (0.7 <=? confidence_of n)%float = true /\
  (confidence_of n <=? 0.95)%float = true.
Proof.
  intros H.
  assert (n = 1 \/ n = 2 \/ n = 3 \/ n = 4 \/ n = 5 \/ n = 6 \/ n = 7 \/
          n = 8 \/ n = 9) as Hn by lia.
  repeat (destruct Hn as [-> | Hn]; [vm_compute; auto|]).
  subst n. vm_compute. auto.
Qed.

(** C2: with no matching pattern the answer is GENERAL, 0.5 and 0 matches;
    otherwise it is the type whose count of matching patterns is largest,
    the first such type in the order of the table, with that count as
    [matches] and [min(0.95, 0.6 + 0.1 * matches)] as confidence. *)
Theorem confidence_picks_first_maximum (subject : string) (body : option string) :
  let text := text_of subject body in
  let r := get_classification_confidence subject body in
  ((forall email_type pattern,
      In pattern (get PATTERNS email_type) -> Re.search pattern text = false) ->
   r = mkResult GENERAL 0.5%float 0) /\
  ((exists email_type, matched email_type text) ->
   matches r = count (type r) text /\
   (forall email_type, count email_type text <= matches r) /\
   (exists before after,
      map fst PATTERNS = before ++ type r :: after /\
      forall earlier, In earlier before -> count earlier text < matches r) /\
   confidence r = min_095 (0.6 + float_of_count (matches r) * 0.1)%float /\
   (matches r = 1 -> confidence r = 0.7%float) /\
   (matches r = 2 -> confidence r = 0.8%float) /\
   (matches r = 3 -> confidence r = 0.9%float) /\
   (4 <= matches r -> confidence r = 0.95%float)).
Proof.
  intros text r. subst text r. set (text := text_of subject body).
  unfold get_classification_confidence. fold text.
  split.
  - intros H. apply count_table_empty in H. rewrite H. reflexivity.
  - intros Hsome.
    destruct (count_table PATTERNS text) as [|first rest] eqn:Htable.
    { exfalso.
      exact (proj1 (unmatched_iff text)
                   (proj1 (count_table_empty text) Htable) Hsome). }
    destruct (winner_spec text first rest Htable)
      as (before & ps & after & HP & Hn & Hpos & Hbefore & Hafter).
    set (best := max_from first rest) in *. cbn [type matches confidence].
    assert (Hentry : In (fst best, ps) PATTERNS)
      by (rewrite HP; apply in_or_app; right; left; reflexivity).
    assert (Hown : count (fst best) text = snd best)
      by (unfold count; rewrite (PATTERNS_get _ _ Hentry); auto).
    assert (Hof : forall e, In e PATTERNS ->
                            count (fst e) text = match_count (snd e) text).
    { intros [t' ps'] Hin. unfold count. cbn [fst snd].
      rewrite (PATTERNS_get _ _ Hin). reflexivity. }
    assert (Hrange : 1 <= snd best <= 9).
    { pose proof (match_count_bounds ps text).
      pose proof (proj2 (PATTERNS_sizes _ _ Hentry)). lia. }
    split; [symmetry; exact Hown|].
    split; [|split; [|split; [reflexivity | exact (confidence_of_values _ Hrange)]]].
    + intros t.
      destruct (in_dec (fun a b : EmailType =>
                          ltac:(decide equality) : {a = b} + {a <> b})
                       t (map fst PATTERNS)) as [Hin | Hout].
      * apply in_map_iff in Hin. destruct Hin as (e & <- & Hin).
        rewrite (Hof e Hin). rewrite HP in Hin.
        apply in_app_or in Hin. destruct Hin as [Hin | [<- | Hin]].
        -- specialize (Hbefore e Hin). lia.
        -- simpl. lia.
        -- exact (Hafter e Hin).
      * rewrite (count_outside_table _ _ Hout). lia.
    + exists (map fst before), (map fst after). split.
      * rewrite HP, map_app. reflexivity.
      * intros t Hin. apply in_map_iff in Hin. destruct Hin as (e & <- & Hin).
        rewrite (Hof e); [exact (Hbefore e Hin)|].
        rewrite HP. apply in_or_app. left. exact Hin.
Qed.

(** C10: in every answer of [get_classification_confidence] the type is
    GENERAL exactly when [matches] is 0, and exactly when the confidence
    is 0.5; GENERAL never comes with a positive count, and any other type
    comes with a confidence of at least 0.7. *)
Theorem confidence_general_iff_zero (subject : string) (body : option string) :
  let r := get_classification_confidence subject body in
  (type r = GENERAL <-> matches r = 0) /\
  (matches r = 0 <-> (confidence r =? 0.5)%float = true) /\
  (0 < matches r -> type r <> GENERAL) /\
  (type r <> GENERAL -> (0.7 <=? confidence r)%float = true).
Proof.
  intros r. subst r. set (text := text_of subject body).
  unfold get_classification_confidence. fold text.
  destruct (count_table PATTERNS text) as [|first rest] eqn:Htable.
  - simpl. repeat split; try reflexivity; try lia; congruence.
  - destruct (winner_spec text first rest Htable)
      as (before & ps & after & HP & Hn & Hpos & _ & _).
    set (best := max_from first rest) in *. cbn [type matches confidence].
    assert (Hentry : In (fst best, ps) PATTERNS)
      by (rewrite HP; apply in_or_app; right; left; reflexivity).
    destruct (PATTERNS_sizes _ _ Hentry) as [Hty Hlen].
    pose proof (match_count_bounds ps text) as Hb.
    assert (Hrange : 1 <= snd best <= 9) by lia.
    destruct (confidence_of_range _ Hrange) as (Hne & Hge & _).
    repeat split; intros; try congruence; try lia.
Qed.

Lemma confidence_picks_first_maximum_witness :
  get_classification_confidence "Meeting tomorrow" None
  = mkResult GENERAL 0.5%float 0.
Proof.
  apply (proj1 (confidence_picks_first_maximum "Meeting tomorrow" None)).
  apply count_table_empty. vm_compute. reflexivity.
Defined.

Lemma confidence_general_iff_zero_witness :
  (0.7 <=? confidence (get_classification_confidence "GST Return for GSTR-1" None))%float
  = true.
Proof.
  apply (confidence_general_iff_zero "GST Return for GSTR-1" None).
  vm_compute. discriminate.
Defined.

Lemma classify_general_iff_unmatched_witness :
  classify "Hello, how are you?" None = GENERAL.
Proof.
  apply (classify_general_iff_unmatched "Hello, how are you?" None).
  apply count_table_empty. vm_compute. reflexivity.
Defined.

(** *** The cases of [tests/test_classification.py] *)

Lemma test_classification :
  classify "NIL Filing Confirmation for March 2026" None = NIL_FILING /\
  classify "Nil Return Submitted" None = NIL_FILING /\
  classify "VAT Filing Status Update" None = VAT_FILING /\
  classify "GST Return for Q4" None = GST_FILING /\
  classify "GSTR-1 for January 2026" None = GST_FILING /\
  classify "ITR Submission Confirmation AY 2025-26" None = ITR_SUBMISSION /\
  classify "Income Tax Return Filed Successfully" None = ITR_SUBMISSION /\
  classify "Please provide bank statements" None = DOC_REQUEST /\
  classify "Awaiting PAN card copy" None = DOC_REQUEST /\
  classify "URGENT NOTICE: Action Required" None = COMPLIANCE_NOTICE /\
  classify "Penalty Notice for Late Filing" None = COMPLIANCE_NOTICE /\
  classify "RTI File Generated and Attached" None = RTI_SUBMISSION /\
  classify "Hello, how are you?" None = GENERAL /\
  classify "Update"
    (Some "Please provide the bank statements for the assessment")
  = DOC_REQUEST /\
  classify "URGENT NOTICE: GST Filing Required" None = COMPLIANCE_NOTICE.
Proof. vm_compute. repeat split. Qed.

Lemma test_confidence :
  get_classification_confidence "GST Return for GSTR-1" None
  = mkResult GST_FILING 0.8%float 2 /\
  get_classification_confidence "Meeting tomorrow" None
  = mkResult GENERAL 0.5%float 0.
Proof. vm_compute. repeat split. Qed.

End ClassifierFacts.

(** ** Threading *)

Module ThreadingFacts.
Import Chars Threading.

(** *** Characters *)

Ltac by_cases_on_char c :=
  destruct c as [[] [] [] [] [] [] [] []]; vm_compute; try reflexivity;
  try discriminate; auto.

Lemma lower_char_idem (c : ascii) : lower_char (lower_char c) = lower_char c.
Proof. by_cases_on_char c. Qed.

Lemma is_space_lower_char (c : ascii) : is_space (lower_char c) = is_space c.
Proof. by_cases_on_char c. Qed.

Lemma lower_char_space (c : ascii) : is_space c = true -> lower_char c = c.
Proof. by_cases_on_char c. Qed.

Lemma lower_char_is_close (c : ascii) :
  Ascii.eqb (lower_char c) "]" = Ascii.eqb c "]".
Proof. by_cases_on_char c. Qed.

Lemma lower_char_is_open (c : ascii) :
  Ascii.eqb (lower_char c) "[" = Ascii.eqb c "[".
Proof. by_cases_on_char c. Qed.

Lemma space_is_not_close (c : ascii) :
  is_space c = true -> Ascii.eqb c "]" = false.
Proof. by_cases_on_char c. Qed.

(** A letter of a marker never stands for a whitespace character. *)
Lemma lower_char_apart (a c : ascii) :
  is_space a = false -> is_space c = true ->
  Ascii.eqb (lower_char a) (lower_char c) = false.
Proof.
  intros Ha Hc. apply Ascii.eqb_neq. intros Heq.
  rewrite (lower_char_space c Hc) in Heq.
  rewrite <- is_space_lower_char, Heq, Hc in Ha. discriminate.
Qed.

(** *** Whitespace *)

Lemma lower_idem (s : string) : lower (lower s) = lower s.
Proof.
  induction s as [|c s IH]; simpl; [reflexivity|].
  rewrite lower_char_idem, IH. reflexivity.
Qed.

Lemma skip_ws_lower (s : string) : skip_ws (lower s) = lower (skip_ws s).
Proof.
  induction s as [|c s IH]; simpl; [reflexivity|].
  rewrite is_space_lower_char. destruct (is_space c); [exact IH | reflexivity].
Qed.

Lemma rtrim_lower (s : string) : rtrim (lower s) = lower (rtrim s).
Proof.
  induction s as [|c s IH]; simpl; [reflexivity|].
  rewrite IH, is_space_lower_char.
  destruct (rtrim s); simpl; [destruct (is_space c)|]; reflexivity.
Qed.

Lemma collapse_ws_lower (s : string) :
  collapse_ws (lower s) = lower (collapse_ws s).
Proof.
  induction s as [|c s IH]; [reflexivity|].
  cbn [lower collapse_ws]. rewrite is_space_lower_char, IH.
  destruct (is_space c); [|reflexivity].
  destruct s as [|d s]; [reflexivity|].
  cbn [lower]. rewrite is_space_lower_char.
  destruct (is_space d); reflexivity.
Qed.

Lemma trim_lower (s : string) : trim (lower s) = lower (trim s).
Proof. unfold trim. rewrite rtrim_lower, skip_ws_lower. reflexivity. Qed.

Lemma skip_ws_idem (s : string) : skip_ws (skip_ws s) = skip_ws s.
Proof.
  induction s as [|c s IH]; simpl; [reflexivity|].
  destruct (is_space c) eqn:E; [exact IH|]. simpl. rewrite E. reflexivity.
Qed.

Lemma rtrim_cons (c : ascii) (s : string) :
  is_space c = false \/ rtrim s <> EmptyString ->
  rtrim (String c s) = String c (rtrim s).
Proof.
  intros H. simpl. destruct (rtrim s) eqn:E; [|reflexivity].
  destruct H as [-> | H]; [reflexivity | congruence].
Qed.

Lemma rtrim_skip_ws (s : string) : rtrim (skip_ws s) = skip_ws (rtrim s).
Proof.
  induction s as [|c s IH]; [reflexivity|].
  cbn [skip_ws]. destruct (is_space c) eqn:E.
  - rewrite IH. simpl. destruct (rtrim s) eqn:R; rewrite ?E; simpl; rewrite ?E;
      reflexivity.
  - rewrite (rtrim_cons c s) by auto. simpl skip_ws. rewrite E. reflexivity.
Qed.

Lemma tidy_collapse (s : string) : tidy s = true -> collapse_ws s = s.
Proof.
  induction s as [|c s IH]; [reflexivity|].
  cbn [tidy collapse_ws]. intros H. apply andb_prop in H. destruct H as [Hc Hs].
  rewrite (IH Hs). destruct (is_space c); [|reflexivity].
  apply andb_prop in Hc. destruct Hc as [Hsp Hnext].
  apply Ascii.eqb_eq in Hsp. subst c.
  destruct s as [|d s]; [discriminate|].
  destruct (is_space d); [discriminate | reflexivity].
Qed.

Lemma tidy_rtrim (s : string) : tidy s = true -> rtrim s = s.
Proof.
  induction s as [|c s IH]; [reflexivity|].
  cbn [tidy rtrim]. intros H. apply andb_prop in H. destruct H as [Hc Hs].
  rewrite (IH Hs). destruct s as [|d s]; [|reflexivity].
  destruct (is_space c); [|reflexivity].
  rewrite andb_false_r in Hc. discriminate.
Qed.

Lemma tidy_skip_ws (s : string) : tidy s = true -> tidy (skip_ws s) = true.
Proof.
  induction s as [|c s IH]; [reflexivity|].
  intros H. cbn [skip_ws]. destruct (is_space c); [|exact H].
  apply IH. cbn [tidy] in H. apply andb_prop in H. apply H.
Qed.

Lemma rtrim_head (c : ascii) (s : string) :
  is_space c = false -> rtrim (String c s) <> EmptyString.
Proof.
  intros H. rewrite rtrim_cons by auto. discriminate.
Qed.

Lemma tidy_rtrim_collapse (s : string) : tidy (rtrim (collapse_ws s)) = true.
Proof.
  induction s as [|c s IH]; [reflexivity|].
  cbn [collapse_ws]. destruct (is_space c) eqn:E.
  - destruct s as [|d s]; [reflexivity|].
    destruct (is_space d) eqn:D; [exact IH|].
    assert (Hne : rtrim (collapse_ws (String d s)) <> EmptyString).
    { cbn [collapse_ws]. rewrite D. apply rtrim_head. exact D. }
    rewrite rtrim_cons by auto.
    cbn [tidy]. rewrite IH, andb_true_r.
    change (is_space " ") with true. cbn [Ascii.eqb Bool.eqb andb].
    revert Hne. cbn [collapse_ws]. rewrite D.
    rewrite (rtrim_cons d) by auto. intros _. rewrite D. reflexivity.
  - rewrite rtrim_cons by auto. cbn [tidy]. rewrite E. exact IH.
Qed.

(** Collapsing and trimming a second time changes nothing. *)
Lemma trim_collapse_idem (s : string) :
  trim (collapse_ws (trim (collapse_ws s))) = trim (collapse_ws s).
Proof.
  assert (Ht : tidy (trim (collapse_ws s)) = true)
    by (apply tidy_skip_ws, tidy_rtrim_collapse).
  rewrite (tidy_collapse _ Ht). unfold trim at 1.
  rewrite (tidy_rtrim _ Ht). unfold trim. apply skip_ws_idem.
Qed.

Lemma trim_idem (s : string) : trim (trim s) = trim s.
Proof.
  unfold trim. rewrite <- rtrim_skip_ws, skip_ws_idem.
  rewrite rtrim_skip_ws. f_equal.
  induction s as [|c s IH]; [reflexivity|].
  simpl. destruct (rtrim s) as [|d r] eqn:R.
  - destruct (is_space c) eqn:E; simpl; rewrite ?E; reflexivity.
  - rewrite rtrim_cons; [f_equal; exact IH | right; rewrite IH; discriminate].
Qed.

(** *** Markers *)

Lemma skip_ws_length (s : string) :
  (String.length (skip_ws s) <= String.length s)%nat.
Proof.
  induction s as [|c s IH]; simpl; [lia|].
  destruct (is_space c); simpl; lia.
Qed.

Lemma strip_prefix_ci_length (w s r : string) :
  strip_prefix_ci w s = Some r ->
  (String.length r + String.length w = String.length s)%nat.
Proof.
  revert s. induction w as [|a w IH]; intros s H; simpl in H.
  - injection H as <-. simpl. lia.
  - destruct s as [|c s]; [discriminate|].
    destruct (Ascii.eqb (lower_char a) (lower_char c)); [|discriminate].
    apply IH in H. simpl. lia.
Qed.

Lemma after_close_length (s r : string) :
  after_close s = Some r -> (String.length r < String.length s)%nat.
Proof.
  induction s as [|c s IH]; simpl; [discriminate|].
  destruct (Ascii.eqb c "]"); intros H.
  - injection H as <-. lia.
  - apply IH in H. lia.
Qed.

(** Stripping a marker shortens the string. *)
Lemma strip_marker_length (s r : string) :
  strip_marker s = Some r -> (String.length r < String.length s)%nat.
Proof.
  unfold strip_marker, MARKERS, strip_word. intros H.
  destruct (strip_prefix_ci "re:" s) eqn:E1.
  { injection H as <-. apply strip_prefix_ci_length in E1. simpl in E1. lia. }
  destruct (strip_prefix_ci "fwd:" s) eqn:E2.
  { injection H as <-. apply strip_prefix_ci_length in E2. simpl in E2. lia. }
  destruct (strip_prefix_ci "fw:" s) eqn:E3.
  { injection H as <-. apply strip_prefix_ci_length in E3. simpl in E3. lia. }
  unfold strip_tag in H. destruct s as [|c s]; [discriminate|].
  destruct (Ascii.eqb c "["); [|discriminate].
  apply after_close_length in H. simpl. lia.
Qed.

(** What the loop leaves starts with no whitespace ... *)
Lemma strip_markers_head (fuel : nat) (s : string) :
  skip_ws (strip_markers fuel s) = strip_markers fuel s.
Proof.
  revert s. induction fuel as [|fuel IH]; intros s; simpl.
  - apply skip_ws_idem.
  - destruct (strip_marker (skip_ws s)); [apply IH | apply skip_ws_idem].
Qed.

(** ... and, with enough fuel, with no marker. *)
Lemma strip_markers_done (fuel : nat) (s : string) :
  (String.length s <= fuel)%nat ->
  strip_marker (strip_markers fuel s) = None.
Proof.
  revert s. induction fuel as [|fuel IH]; intros s H; simpl.
  - destruct s; [reflexivity | simpl in H; lia].
  - destruct (strip_marker (skip_ws s)) as [r|] eqn:E; [|exact E].
    apply IH. apply strip_marker_length in E.
    pose proof (skip_ws_length s). lia.
Qed.

(** A string with nothing to strip goes through the loop unchanged. *)
Lemma strip_markers_stable (fuel : nat) (s : string) :
  skip_ws s = s -> strip_marker s = None -> strip_markers fuel s = s.
Proof.
  intros Hw Hm. destruct fuel; simpl; rewrite Hw; [|rewrite Hm]; reflexivity.
Qed.

(** The head of a collapsed, right-trimmed, lowercased string. *)
Lemma squeeze_cons (c : ascii) (s : string) :
  is_space c = false ->
  lower (rtrim (collapse_ws (String c s))) =
  String (lower_char c) (lower (rtrim (collapse_ws s))).
Proof.
  intros H. cbn [collapse_ws]. rewrite H, rtrim_cons by auto. reflexivity.
Qed.

Lemma collapse_ws_cons (c : ascii) (s : string) :
  collapse_ws (String c s) =
  if is_space c then
    match s with
    | String d _ => if is_space d then collapse_ws s
                    else String " " (collapse_ws s)
    | EmptyString => String " " EmptyString
    end
  else String c (collapse_ws s).
Proof. reflexivity. Qed.

Lemma squeeze_space (c : ascii) (s : string) :
  is_space c = true ->
  lower (rtrim (collapse_ws (String c s))) = EmptyString \/
  exists rest, lower (rtrim (collapse_ws (String c s))) = String " " rest.
Proof.
  revert c. induction s as [|d s IH]; intros c H; rewrite collapse_ws_cons, H.
  - left. reflexivity.
  - destruct (is_space d) eqn:D; [exact (IH d D)|].
    right. rewrite rtrim_cons.
    + eexists. reflexivity.
    + right. rewrite collapse_ws_cons, D. apply rtrim_head. exact D.
Qed.

Lemma trim_collapse_head (s : string) :
  skip_ws s = s ->
  lower (trim (collapse_ws s)) = lower (rtrim (collapse_ws s)).
Proof.
  intros H. destruct s as [|c s]; [reflexivity|].
  assert (E : is_space c = false).
  { destruct (is_space c) eqn:E; [|reflexivity]. exfalso.
    simpl in H. rewrite E in H.
    pose proof (skip_ws_length s) as L. rewrite H in L. simpl in L. lia. }
  unfold trim. cbn [collapse_ws]. rewrite E, rtrim_cons by auto.
  simpl. rewrite E. reflexivity.
Qed.

Lemma strip_prefix_ci_squeeze (w : string) :
  solid w = true ->
  forall s, strip_prefix_ci w s = None ->
            strip_prefix_ci w (lower (rtrim (collapse_ws s))) = None.
Proof.
  induction w as [|a w IH]; intros Hw s H; [discriminate|].
  cbn [solid] in Hw. apply andb_prop in Hw. destruct Hw as [Ha Hw].
  apply negb_true_iff in Ha.
  destruct s as [|c s]; [reflexivity|].
  destruct (is_space c) eqn:E.
  - destruct (squeeze_space c s E) as [-> | (rest & ->)]; [reflexivity|].
    cbn [strip_prefix_ci].
    rewrite (lower_char_apart a " " Ha) by reflexivity. reflexivity.
  - rewrite squeeze_cons by exact E. cbn [strip_prefix_ci] in *.
    rewrite lower_char_idem.
    destruct (Ascii.eqb (lower_char a) (lower_char c)); [|reflexivity].
    apply IH; assumption.
Qed.

Lemma after_close_collapse (s : string) :
  after_close s = None -> after_close (collapse_ws s) = None.
Proof.
  induction s as [|c s IH]; [reflexivity|].
  cbn [after_close collapse_ws].
  destruct (Ascii.eqb c "]") eqn:C; [discriminate|]. intros H.
  destruct (is_space c) eqn:E.
  - destruct s as [|d s]; [reflexivity|].
    destruct (is_space d); [apply IH; exact H|].
    cbn [after_close]. change (Ascii.eqb " " "]") with false.
    apply IH. exact H.
  - cbn [after_close]. rewrite C. apply IH. exact H.
Qed.

Lemma after_close_rtrim (s : string) :
  after_close s = None -> after_close (rtrim s) = None.
Proof.
  induction s as [|c s IH]; [reflexivity|].
  cbn [after_close rtrim].
  destruct (Ascii.eqb c "]") eqn:C; [discriminate|]. intros H.
  specialize (IH H).
  destruct (rtrim s) eqn:R.
  - destruct (is_space c); [reflexivity|]. simpl. rewrite C. reflexivity.
  - cbn [after_close]. rewrite C. exact IH.
Qed.

Lemma after_close_lower (s : string) :
  after_close s = None -> after_close (lower s) = None.
Proof.
  induction s as [|c s IH]; [reflexivity|].
  cbn [after_close lower]. rewrite lower_char_is_close.
  destruct (Ascii.eqb c "]"); [discriminate | exact IH].
Qed.

Lemma strip_tag_squeeze (s : string) :
  strip_tag s = None -> strip_tag (lower (rtrim (collapse_ws s))) = None.
Proof.
  destruct s as [|c s]; [reflexivity|]. intros H.
  destruct (is_space c) eqn:E.
  - destruct (squeeze_space c s E) as [-> | (rest & ->)]; reflexivity.
  - rewrite squeeze_cons by exact E. cbn [strip_tag] in *.
    rewrite lower_char_is_open.
    destruct (Ascii.eqb c "["); [|reflexivity].
    apply after_close_lower, after_close_rtrim, after_close_collapse. exact H.
Qed.

(** Collapsing, trimming and lowercasing bring no marker to the head. *)
Lemma strip_marker_squeeze (s : string) :
  strip_marker s = None ->
  strip_marker (lower (rtrim (collapse_ws s))) = None.
Proof.
  unfold strip_marker, MARKERS, strip_word. intros H.
  destruct (strip_prefix_ci "re:" s) eqn:E1; [discriminate|].
  destruct (strip_prefix_ci "fwd:" s) eqn:E2; [discriminate|].
  destruct (strip_prefix_ci "fw:" s) eqn:E3; [discriminate|].
  rewrite (strip_prefix_ci_squeeze "re:" eq_refl s E1).
  rewrite (strip_prefix_ci_squeeze "fwd:" eq_refl s E2).
  rewrite (strip_prefix_ci_squeeze "fw:" eq_refl s E3).
  apply strip_tag_squeeze. exact H.
Qed.

(** The cases of [TestSubjectNormalization] and [TestMessageIdCleaning]. *)
Lemma test_normalize_subject :
  _normalize_subject (Some "Re: GST Filing") = "gst filing" /\
  _normalize_subject (Some "Re: Re: Re: GST Filing") = "gst filing" /\
  _normalize_subject (Some "Fwd: Tax Return") = "tax return" /\
  _normalize_subject (Some "Fw: Tax Return") = "tax return" /\
  _normalize_subject (Some "Re: Fwd: Re: Tax Filing") = "tax filing" /\
  _normalize_subject (Some "[URGENT] Tax Filing") = "tax filing" /\
  _normalize_subject (Some "GST FILING CONFIRMATION") = "gst filing confirmation" /\
  _normalize_subject (Some "GST   Filing    Confirmation")
  = "gst filing confirmation" /\
  _normalize_subject (Some "") = "" /\
  _normalize_subject None = "".
Proof. vm_compute. repeat split. Qed.

Lemma test_clean_message_id :
  _clean_message_id (Some "<abc123@example.com>") = "abc123@example.com" /\
  _clean_message_id (Some "abc123@example.com") = "abc123@example.com" /\
  _clean_message_id (Some "") = "" /\
  _clean_message_id None = "".
Proof. vm_compute. repeat split. Qed.

(** C8: subject normalization is idempotent; a null and an empty subject
    both normalize to the empty string. *)
Theorem normalize_subject_idempotent :
  _normalize_subject None = "" /\
  _normalize_subject (Some "") = "" /\
  forall subject : option string,
    _normalize_subject (Some (_normalize_subject subject))
    = _normalize_subject subject.
Proof.
  split; [reflexivity|]. split; [reflexivity|].
  intros [s|]; [|reflexivity].
  unfold _normalize_subject.
  set (r := strip_markers (String.length s) s).
  assert (Hhead : skip_ws r = r) by apply strip_markers_head.
  assert (Hdone : strip_marker r = None)
    by (apply strip_markers_done; apply Nat.le_refl).
  set (t := lower (trim (collapse_ws r))).
  assert (Hstable : strip_markers (String.length t) t = t).
  { apply strip_markers_stable.
    - unfold t, trim. rewrite skip_ws_lower, skip_ws_idem. reflexivity.
    - unfold t. rewrite trim_collapse_head by exact Hhead.
      apply strip_marker_squeeze. exact Hdone. }
  rewrite Hstable. unfold t.
  rewrite collapse_ws_lower, trim_lower, lower_idem, trim_collapse_idem.
  reflexivity.
Qed.

(** *** The engine *)

(** A positive score is not zero. *)
Lemma positive_nonzero (x : float) :
  (0 <? x)%float = true -> (x =? 0)%float = false.
Proof.
  rewrite FloatAxioms.ltb_spec, FloatAxioms.eqb_spec.
  change (Prim2SF 0) with (S754_zero false).
  destruct (Prim2SF x) as [sx | sx | | sx mx ex]; try discriminate.
  - destruct sx; [discriminate | reflexivity].
  - destruct sx; [discriminate | reflexivity].
Qed.

Lemma new_thread_id_injective (token token' : string) :
  new_thread_id token = new_thread_id token' -> token = token'.
Proof. unfold new_thread_id. simpl. intros H. injection H as H. exact H. Qed.

Section EngineFacts.

Variable db : Lookup.
Variable window_days : Z.
Variable heuristic_confidence : value -> EmailThread -> float.

(** The score of the heuristic layer lies strictly between that of no
    match and that of the reference chain (specification 3). *)
Hypothesis heuristic_band :
  forall email_data thread,
    (0 <? heuristic_confidence email_data thread)%float = true /\
    (heuristic_confidence email_data thread <? 0.99)%float = true.

Lemma first_match_layers (email_data : value) :
  first_match (LAYERS db window_days heuristic_confidence) email_data =
  match _check_conversation_id db email_data with
  | Some m => Some m
  | None =>
      match _check_in_reply_to db email_data with
      | Some m => Some m
      | None => _check_subject_participants db window_days
                  heuristic_confidence email_data
      end
  end.
Proof.
  unfold LAYERS, first_match.
  destruct (_check_conversation_id db email_data); [reflexivity|].
  destruct (_check_in_reply_to db email_data); [reflexivity|].
  destruct (_check_subject_participants _ _ _ _); reflexivity.
Qed.

(** What a layer answers is never scored zero nor tagged as new. *)
Lemma layer_match_known (email_data : value) (m : ThreadMatch) :
  first_match (LAYERS db window_days heuristic_confidence) email_data = Some m ->
  (match_confidence m =? 0)%float = false /\ match_method m <> "new_thread".
Proof.
  rewrite first_match_layers.
  unfold _check_conversation_id, _check_in_reply_to, _check_subject_participants.
  destruct (field email_data "conversationId") as [| | |cid| |];
    try destruct (findThreadByConversationId db cid) as [th|];
    try (intros H; injection H as <-; split; [reflexivity | discriminate]);
    (destruct (reply_target email_data) as [target|];
     [destruct (findEmailByCanonicalMessageId db _) as [parent|];
      [intros H; injection H as <-; split; [reflexivity | discriminate]|]|]);
    (destruct (findRecentThreadBySubjectAndParticipants db _ _ _) as [th'|];
     [|discriminate]);
    intros H; injection H as <-; cbn [match_confidence match_method];
    (split; [apply positive_nonzero, heuristic_band | discriminate]).
Qed.

(** C5: in every result of [thread_email], being new, having confidence
    0.0 and having the method "new_thread" go together; and when no layer
    matches, the result is new, with no parent and with an identifier made
    for this call from its token, which is not empty. *)
Theorem thread_email_new_iff (email_data : value) (token : string) :
  let r := thread_email db window_days heuristic_confidence email_data token in
  (is_new r = true <-> (confidence r =? 0)%float = true) /\
  ((confidence r =? 0)%float = true <-> method r = "new_thread") /\
  (_check_conversation_id db email_data = None ->
   _check_in_reply_to db email_data = None ->
   _check_subject_participants db window_days heuristic_confidence email_data
     = None ->
   is_new r = true /\ confidence r = 0%float /\ method r = "new_thread" /\
   parent_id r = None /\
   thread_id r = new_thread_id token /\ thread_id r <> "" /\
   forall token', new_thread_id token' = thread_id r -> token' = token).
Proof.
  intros r. subst r. unfold thread_email.
  destruct (first_match (LAYERS db window_days heuristic_confidence) email_data)
    as [m|] eqn:E.
  - destruct (layer_match_known email_data m E) as [Hc Hm].
    cbn [is_new confidence method]. rewrite Hc.
    split; [split; discriminate|].
    split; [split; [discriminate | intros H; exfalso; exact (Hm H)]|].
    rewrite first_match_layers in E. intros H1 H2 H3.
    rewrite H1, H2, H3 in E. discriminate.
  - cbn [is_new confidence method parent_id thread_id].
    split; [split; reflexivity|]. split; [split; reflexivity|].
    intros _ _ _. repeat split; try discriminate.
    intros token' H. apply new_thread_id_injective. exact H.
Qed.

(** C6: when the payload carries a conversation id under which the lookup
    finds a thread, [thread_email] answers that thread's id with confidence
    1.0 and method "conversation_id"; without a conversation id, or
    without a thread under it, the conversation-id layer has no match. *)
Theorem conversation_id_match (email_data : value) (token : string) :
  (forall conversation_id thread,
     field email_data "conversationId" = VStr conversation_id ->
     findThreadByConversationId db conversation_id = Some thread ->
     let r := thread_email db window_days heuristic_confidence email_data token in
     thread_id r = thread_key thread /\
     confidence r = 1.0%float /\
     method r = "conversation_id" /\
     is_new r = false) /\
  ((forall conversation_id,
      field email_data "conversationId" <> VStr conversation_id) ->
   _check_conversation_id db email_data = None) /\
  (forall conversation_id,
     field email_data "conversationId" = VStr conversation_id ->
     findThreadByConversationId db conversation_id = None ->
     _check_conversation_id db email_data = None).
Proof.
  split; [|split].
  - intros cid th Hcid Hth r. subst r. unfold thread_email.
    rewrite first_match_layers. unfold _check_conversation_id.
    rewrite Hcid, Hth. repeat split.
  - intros H. unfold _check_conversation_id.
    destruct (field email_data "conversationId") as [| | |cid| |];
      try reflexivity.
    exfalso. exact (H cid eq_refl).
  - intros cid Hcid Hth. unfold _check_conversation_id.
    rewrite Hcid, Hth. reflexivity.
Qed.

Lemma replies_to_target (email_data : value) (target : string) :
  replies_to email_data target -> reply_target email_data = Some target.
Proof.
  unfold replies_to, reply_target.
  intros [-> | (-> & refs & init & -> & Hw)]; [reflexivity|].
  rewrite Hw, map_app. simpl. apply last_last.
Qed.

(** C7, as amended: when the In-Reply-To header (or, without it, the last
    entry of References) names a prior email the lookup finds, the
    reference-chain layer answers that email's thread with confidence 0.99,
    method "rfc_in_reply_to" and the email as parent; and so does
    [thread_email], provided the conversation-id layer has no match. *)
Theorem in_reply_to_match (email_data : value) (target : string)
  (parent : Email) (token : string) :
  replies_to email_data target ->
  findEmailByCanonicalMessageId db (_clean_message_id (Some target))
    = Some parent ->
  _check_in_reply_to db email_data =
    Some (mkMatch (email_thread_id parent) 0.99%float "rfc_in_reply_to"
                  (Some (email_id parent))) /\
  (_check_conversation_id db email_data = None ->
   let r := thread_email db window_days heuristic_confidence email_data token in
   thread_id r = email_thread_id parent /\
   confidence r = 0.99%float /\
   method r = "rfc_in_reply_to" /\
   parent_id r = Some (email_id parent) /\
   is_new r = false).
Proof.
  intros Htarget Hparent.
  assert (Hlayer : _check_in_reply_to db email_data =
                   Some (mkMatch (email_thread_id parent) 0.99%float
                                 "rfc_in_reply_to" (Some (email_id parent)))).
  { unfold _check_in_reply_to.
    rewrite (replies_to_target _ _ Htarget), Hparent. reflexivity. }
  split; [exact Hlayer|].
  intros Hconv r. subst r. unfold thread_email.
  rewrite first_match_layers, Hconv, Hlayer. repeat split.
Qed.

End EngineFacts.

Lemma flat_confidence_band (email_data : value) (thread : EmailThread) :
  (0 <? Examples.flat_confidence email_data thread)%float = true /\
  (Examples.flat_confidence email_data thread <? 0.99)%float = true.
Proof. split; reflexivity. Qed.

Lemma thread_email_new_iff_witness :
  let r := thread_email Examples.empty_lookup 30 Examples.flat_confidence
             Examples.new_conversation "6f1d2c" in
  (is_new r = true <-> (confidence r =? 0)%float = true) /\
  ((confidence r =? 0)%float = true <-> method r = "new_thread") /\
  is_new r = true /\ confidence r = 0%float /\ method r = "new_thread" /\
  parent_id r = None /\ thread_id r = "thread_6f1d2c".
Proof.
  destruct (thread_email_new_iff Examples.empty_lookup 30
              Examples.flat_confidence flat_confidence_band
              Examples.new_conversation "6f1d2c") as (H1 & H2 & H3).
  destruct (H3 eq_refl eq_refl eq_refl) as (Hn & Hc & Hm & Hp & Hid & _).
  repeat split; try apply H1; try apply H2; assumption.
Defined.

Lemma conversation_id_match_witness :
  let r := thread_email Examples.stored_lookup 30 Examples.flat_confidence
             Examples.in_conversation "6f1d2c" in
  thread_id r = "T1" /\ confidence r = 1.0%float /\
  method r = "conversation_id" /\ is_new r = false.
Proof.
  exact (proj1 (conversation_id_match Examples.stored_lookup 30
                  Examples.flat_confidence Examples.in_conversation "6f1d2c")
               "conv-1" (mkThread "T1") eq_refl eq_refl).
Defined.

Lemma in_reply_to_match_witness :
  let r := thread_email Examples.stored_lookup 30 Examples.flat_confidence
             Examples.reply_by_references "6f1d2c" in
  thread_id r = "thread-456" /\ confidence r = 0.99%float /\
  method r = "rfc_in_reply_to" /\ parent_id r = Some "email-789" /\
  is_new r = false.
Proof.
  refine (proj2 (in_reply_to_match Examples.stored_lookup 30
                   Examples.flat_confidence Examples.reply_by_references
                   "<parent@example.com>" (mkEmail "email-789" "thread-456")
                   "6f1d2c" _ eq_refl) eq_refl).
  right. split; [reflexivity|].
  exists "<root@example.com> <parent@example.com>", ["<root@example.com>"].
  split; reflexivity.
Defined.

(** C7, as stated, fails: a reply that also carries the conversation id of a
    stored thread is answered by the conversation-id layer, which comes
    first. *)
Lemma in_reply_to_match_preempted :
  ~ (forall (db : Lookup) (window_days : Z)
            (heuristic_confidence : value -> EmailThread -> float)
            (email_data : value) (target : string) (parent : Email)
            (token : string),
       (forall e t, (0 <? heuristic_confidence e t)%float = true /\
                    (heuristic_confidence e t <? 0.99)%float = true) ->
       replies_to email_data target ->
       findEmailByCanonicalMessageId db (_clean_message_id (Some target))
         = Some parent ->
       let r := thread_email db window_days heuristic_confidence email_data token in
       thread_id r = email_thread_id parent /\
       confidence r = 0.99%float /\
       method r = "rfc_in_reply_to" /\
       parent_id r = Some (email_id parent)).
Proof.
  intros H.
  destruct (H Examples.stored_lookup 30%Z Examples.flat_confidence
              Examples.reply_in_conversation "<parent@example.com>"
              (mkEmail "email-789" "thread-456") "6f1d2c"
              flat_confidence_band (or_introl eq_refl) eq_refl)
    as (Hid & _).
  vm_compute in Hid. discriminate.
Qed.

(** The cases of [TestConversationIdMatching], [TestInReplyToMatching] and
    [TestThreadingOrchestrator], the mocked session answering every query
    with the same row. *)
Lemma test_layers :
  let found :=
    mkLookup (fun _ => Some (mkThread "thread-123"))
             (fun _ => Some (mkEmail "email-789" "thread-456"))
             (fun _ _ _ => None) in
  _check_conversation_id found (VDict [("conversationId", VStr "conv-abc123")])
  = Some (mkMatch "thread-123" 1.0%float "conversation_id" None) /\
  _check_conversation_id Examples.empty_lookup
    (VDict [("conversationId", VStr "unknown-conv")]) = None /\
  _check_conversation_id found (VDict []) = None /\
  _check_in_reply_to found Examples.reply
  = Some (mkMatch "thread-456" 0.99%float "rfc_in_reply_to" (Some "email-789")) /\
  thread_email Examples.empty_lookup 30 Examples.flat_confidence
    Examples.new_conversation "6f1d2c"
  = mkThreading "thread_6f1d2c" 0.0%float "new_thread" true None.
Proof. vm_compute. repeat split. Qed.

(** *** Participants *)

Lemma address_of_clean (entry : value) (a : string) :
  address_of entry = Some a -> lower a = a /\ trim a = a.
Proof.
  unfold address_of.
  destruct (field (field entry "emailAddress") "address"); try discriminate.
  intros H. injection H as <-. split.
  - apply lower_idem.
  - rewrite trim_lower, trim_idem. reflexivity.
Qed.

Lemma addresses_clean (entries : list value) (a : string) :
  In a (addresses entries) -> lower a = a /\ trim a = a.
Proof.
  induction entries as [|entry entries IH]; simpl; [intros []|].
  destruct (address_of entry) as [b|] eqn:E; [|exact IH].
  intros [<- | H]; [exact (address_of_clean _ _ E) | exact (IH H)].
Qed.

Lemma addresses_complete (entries : list value) (entry : value) (a : string) :
  In entry entries -> address_of entry = Some a -> In a (addresses entries).
Proof.
  induction entries as [|e entries IH]; simpl; [intros []|].
  intros [-> | H] Ha.
  - rewrite Ha. left. reflexivity.
  - destruct (address_of e); [right|]; exact (IH H Ha).
Qed.

Lemma addresses_length (entries : list value) :
  (List.length (addresses entries) <= List.length entries)%nat.
Proof.
  induction entries as [|e entries IH]; simpl; [lia|].
  destruct (address_of e); simpl; lia.
Qed.

(** The cases of [TestRecipientExtraction]. *)
Lemma test_extraction :
  _extract_from_address (VDict [("from", Examples.address "Sender@Example.COM")])
  = "sender@example.com" /\
  _extract_recipients
    (VDict [("toRecipients", VList [ Examples.address "user1@example.com";
                                     Examples.address "User2@Example.COM" ])])
    "toRecipients"
  = ["user1@example.com"; "user2@example.com"] /\
  _extract_from_address (VDict []) = "" /\
  _extract_recipients (VDict []) "toRecipients" = [].
Proof. vm_compute. repeat split. Qed.

(** C9: the extraction helpers answer on every payload, whatever its shape.
    The sender is the lowercase, trimmed address of the from field, and the
    empty string when that field or its address is absent; the recipients
    are the lowercase, trimmed addresses of the well-formed entries of the
    named list, and none at all when the field is absent or is no list. *)
Theorem extraction_tolerates_absence (email_data : value) (field_name : string) :
  (forall a,
     field (field (field email_data "from") "emailAddress") "address" = VStr a ->
     _extract_from_address email_data = lower (trim a)) /\
  (field email_data "from" = VNone -> _extract_from_address email_data = "") /\
  ((forall a, field (field (field email_data "from") "emailAddress") "address"
              <> VStr a) ->
   _extract_from_address email_data = "") /\
  (lower (_extract_from_address email_data) = _extract_from_address email_data /\
   trim (_extract_from_address email_data) = _extract_from_address email_data) /\
  (field email_data field_name = VNone ->
   _extract_recipients email_data field_name = []) /\
  ((forall entries, field email_data field_name <> VList entries) ->
   _extract_recipients email_data field_name = []) /\
  (forall a, In a (_extract_recipients email_data field_name) ->
             lower a = a /\ trim a = a) /\
  (forall entries,
     field email_data field_name = VList entries ->
     (List.length (_extract_recipients email_data field_name)
      <= List.length entries)%nat /\
     forall entry a,
       In entry entries ->
       field (field entry "emailAddress") "address" = VStr a ->
       In (lower (trim a)) (_extract_recipients email_data field_name)).
Proof.
  unfold _extract_from_address, _extract_recipients.
  repeat apply conj.
  - intros a H. unfold address_of. rewrite H. reflexivity.
  - intros H. rewrite H. reflexivity.
  - intros H. unfold address_of.
    destruct (field (field (field email_data "from") "emailAddress") "address")
      as [| | |a| |]; try reflexivity.
    exfalso. exact (H a eq_refl).
  - destruct (address_of (field email_data "from")) as [a|] eqn:E;
      [exact (proj1 (address_of_clean _ _ E)) | reflexivity].
  - destruct (address_of (field email_data "from")) as [a|] eqn:E;
      [exact (proj2 (address_of_clean _ _ E)) | reflexivity].
  - intros H. rewrite H. reflexivity.
  - intros H. destruct (field email_data field_name) as [| | | |entries|];
      try reflexivity.
    exfalso. exact (H entries eq_refl).
  - destruct (field email_data field_name) as [| | | |entries|];
      try (intros a []).
    apply addresses_clean.
  - intros entries H. rewrite H. split; [apply addresses_length|].
    intros entry a Hin Ha. apply (addresses_complete entries entry); [exact Hin|].
    unfold address_of. rewrite Ha. reflexivity.
Qed.

Lemma extraction_tolerates_absence_witness :
  _extract_from_address Examples.mixed_case = "sender@example.com" /\
  _extract_from_address Examples.in_conversation = "" /\
  _extract_recipients Examples.in_conversation "toRecipients" = [] /\
  _extract_recipients Examples.mixed_case "ccRecipients" = [] /\
  In "user2@example.com" (_extract_recipients Examples.mixed_case "toRecipients").
Proof.
  repeat apply conj.
  - exact (proj1 (extraction_tolerates_absence Examples.mixed_case "toRecipients")
                 " Sender@Example.COM " eq_refl).
  - exact (proj1 (proj2 (extraction_tolerates_absence Examples.in_conversation
                           "toRecipients")) eq_refl).
  - destruct (extraction_tolerates_absence Examples.in_conversation "toRecipients")
      as (_ & _ & _ & _ & H & _).
    exact (H eq_refl).
  - destruct (extraction_tolerates_absence Examples.mixed_case "ccRecipients")
      as (_ & _ & _ & _ & _ & H & _).
    apply H. intros entries. discriminate.
  - destruct (extraction_tolerates_absence Examples.mixed_case "toRecipients")
      as (_ & _ & _ & _ & _ & _ & _ & H).
    exact (proj2 (H _ eq_refl) (Examples.address "User2@Example.COM")
                 "User2@Example.COM" (or_intror (or_intror (or_introl eq_refl)))
                 eq_refl).
Defined.

End ThreadingFacts.

(** ** Further properties of the classification service *)

Module ClassifierMore.
Import Chars Classifier Display ClassifierFacts.
Local Open Scope string_scope.

(** X1: every email type has a display name of its own in the table of
    [get_type_display_name]: the fallback to the raw value is never
    taken, and two types never share a name. *)
Theorem display_name_injective :
  (forall email_type,
     In (email_type, get_type_display_name email_type) display_names /\
     get_type_display_name email_type <> value_of email_type) /\
  (forall a b,
     get_type_display_name a = get_type_display_name b -> a = b).
Proof.
  split.
  - intros t. destruct t; (split; [simpl; tauto | discriminate]).
  - intros a b. destruct a, b; try reflexivity; vm_compute; discriminate.
Qed.

(** *** Strings *)

Lemma append_nil_r (s : string) : s ++ "" = s.
Proof. induction s as [|c s IH]; simpl; [reflexivity | rewrite IH; reflexivity]. Qed.

Lemma append_assoc (a b c : string) : (a ++ b) ++ c = a ++ (b ++ c).
Proof. induction a as [|x a IH]; simpl; [reflexivity | rewrite IH; reflexivity]. Qed.

Lemma lower_append (a b : string) : lower (a ++ b) = lower a ++ lower b.
Proof. induction a as [|x a IH]; simpl; [reflexivity | rewrite IH; reflexivity]. Qed.

Lemma text_of_lower (subject : string) (body : option string) :
  text_of subject body = lower subject ++ " " ++ lower (body_text body).
Proof.
  unfold text_of. fold (body_text body). rewrite !lower_append. reflexivity.
Qed.

(** X2: classification ignores case: subjects and bodies that differ only
    in the case of their letters get the same type, confidence and count
    from both entry points. *)
Theorem classification_ignores_case (subject subject' : string)
  (body body' : option string) :
  lower subject = lower subject' ->
  lower (body_text body) = lower (body_text body') ->
  classify subject body = classify subject' body' /\
  get_classification_confidence subject body
  = get_classification_confidence subject' body'.
Proof.
  intros Hs Hb.
  assert (Ht : text_of subject body = text_of subject' body')
    by (rewrite !text_of_lower, Hs, Hb; reflexivity).
  unfold classify, get_classification_confidence. rewrite Ht. auto.
Qed.

Lemma classification_ignores_case_witness :
  classify "URGENT NOTICE: gst FILING" (Some "See Attached")
  = classify "urgent notice: GST filing" (Some "SEE ATTACHED") /\
  get_classification_confidence "URGENT NOTICE: gst FILING" (Some "See Attached")
  = get_classification_confidence "urgent notice: GST filing" (Some "SEE ATTACHED").
Proof.
  apply classification_ignores_case; reflexivity.
Defined.

(** *** The answer of [get_classification_confidence] *)

Local Open Scope Z_scope.

(** Either nothing matched and the answer is the fixed GENERAL one, or the
    answer is an entry of the table with the largest count. *)
Lemma confidence_cases (subject : string) (body : option string) :
  let text := text_of subject body in
  let r := get_classification_confidence subject body in
  (count_table PATTERNS text = [] /\ r = mkResult GENERAL 0.5%float 0) \/
  (exists patterns,
     In (type r, patterns) PATTERNS /\
     matches r = match_count patterns text /\
     1 <= matches r <= 9 /\
     confidence r = confidence_of (matches r) /\
     forall email_type, count email_type text <= matches r).
Proof.
  intros text r. subst r. unfold get_classification_confidence. fold text.
  destruct (count_table PATTERNS text) as [|first rest] eqn:Htable.
  { left. auto. }
  right.
  destruct (winner_spec text first rest Htable)
    as (before & ps & after & HP & Hn & Hpos & Hbefore & Hafter).
  set (best := max_from first rest) in *. cbn [type matches confidence].
  assert (Hentry : In (fst best, ps) PATTERNS)
    by (rewrite HP; apply in_or_app; right; left; reflexivity).
  exists ps. split; [exact Hentry|]. split; [exact Hn|].
  split.
  { pose proof (match_count_bounds ps text).
    pose proof (proj2 (PATTERNS_sizes _ _ Hentry)). lia. }
  split; [reflexivity|].
  intros t.
  destruct (in_dec (fun a b : EmailType =>
                      ltac:(decide equality) : {a = b} + {a <> b})
                   t (map fst PATTERNS)) as [Hin | Hout].
  - apply in_map_iff in Hin. destruct Hin as ([t' ps'] & <- & Hin).
    unfold count. cbn [fst]. rewrite (PATTERNS_get _ _ Hin).
    rewrite HP in Hin. apply in_app_or in Hin.
    destruct Hin as [Hin | [Heq | Hin]].
    + specialize (Hbefore _ Hin). cbn [snd] in Hbefore. lia.
    + injection Heq as _ <-. lia.
    + exact (Hafter _ Hin).
  - rewrite (count_outside_table _ _ Hout). lia.
Qed.

Lemma classify_general (text : string) :
  classify_loop PRIORITY_ORDER text = GENERAL <->
  ~ exists email_type, matched email_type text.
Proof.
  split.
  - intros Hgen (t & Ht).
    destruct (classify_loop_first PRIORITY_ORDER text) as (_ & _ & _ & Hhit & _).
    { exists t. split; [eapply matched_in_priority; exact Ht | exact Ht]. }
    rewrite Hgen in Hhit. exact (general_unmatched _ Hhit).
  - intros H. apply classify_loop_none. intros t _ Ht. apply H. exists t. exact Ht.
Qed.

(** X3: the two entry points agree on whether anything matched:
    [classify] answers GENERAL exactly when
    [get_classification_confidence] does. *)
Theorem entry_points_agree_on_general (subject : string) (body : option string) :
  classify subject body = GENERAL <->
  type (get_classification_confidence subject body) = GENERAL.
Proof.
  unfold classify. rewrite classify_general, <- unmatched_iff, <- count_table_empty.
  destruct (confidence_cases subject body)
    as [[Hempty ->] | (ps & Hentry & _)]; cbn zeta in *.
  - split; [reflexivity | intros _; exact Hempty].
  - split.
    + intros Hempty. unfold get_classification_confidence in Hentry |- *.
      rewrite Hempty in *. reflexivity.
    + intros Hgen. exfalso. rewrite Hgen in Hentry.
      exact (proj1 (PATTERNS_sizes _ _ Hentry) eq_refl).
Qed.

(** The scores of one to nine matches, in order. *)
Lemma confidence_of_monotone (n m : Z) :
  1 <= n <= m -> m <= 9 ->
  (0.5 <=? confidence_of n)%float = true /\
  (confidence_of n <=? confidence_of m)%float = true.
Proof.
  intros Hn Hm.
  assert (n = 1 \/ n = 2 \/ n = 3 \/ n = 4 \/ n = 5 \/ n = 6 \/ n = 7 \/
          n = 8 \/ n = 9) as Hn' by lia.
  assert (m = 1 \/ m = 2 \/ m = 3 \/ m = 4 \/ m = 5 \/ m = 6 \/ m = 7 \/
          m = 8 \/ m = 9) as Hm' by lia.
  destruct Hn' as [->|[->|[->|[->|[->|[->|[->|[->| ->]]]]]]]];
    destruct Hm' as [->|[->|[->|[->|[->|[->|[->|[->| ->]]]]]]]];
    try lia; split; vm_compute; reflexivity.
Qed.

(** X4: whatever the subject and body, [matches] lies between 0 and 9 (the
    longest pattern list) and the confidence between 0.5 and 0.95. *)
Theorem confidence_result_bounds (subject : string) (body : option string) :
  let r := get_classification_confidence subject body in
  0 <= matches r <= 9 /\
  (0.5 <=? confidence r)%float = true /\
  (confidence r <=? 0.95)%float = true.
Proof.
  destruct (confidence_cases subject body)
    as [[_ ->] | (ps & _ & _ & Hrange & Hconf & _)]; cbn zeta in *.
  - repeat split; try reflexivity; cbn; lia.
  - rewrite Hconf.
    destruct (confidence_of_range _ Hrange) as (_ & _ & Hhigh).
    destruct (confidence_of_monotone _ _ (conj (proj1 Hrange) (Z.le_refl _))
                (proj2 Hrange)) as [Hlow _].
    split; [lia|]. split; assumption.
Qed.

(** *** A longer text *)

Lemma search_append (pattern text suffix : string) :
  Re.search pattern text = true ->
  Re.search pattern (text ++ suffix)%string = true.
Proof.
  unfold Re.search. destruct (Re.compile pattern) as [p|]; [|discriminate].
  rewrite !ReFacts.search_items_spec.
  intros (before & m & after & -> & Hm).
  exists before, m, (after ++ suffix)%string. split; [|exact Hm].
  rewrite !append_assoc. reflexivity.
Qed.

Lemma match_count_append (patterns : list string) (text suffix : string) :
  match_count patterns text <= match_count patterns (text ++ suffix)%string.
Proof.
  induction patterns as [|p ps IH]; simpl; [lia|].
  destruct (Re.search p text) eqn:E.
  - rewrite (search_append _ _ suffix E). lia.
  - destruct (Re.search p (text ++ suffix)); lia.
Qed.

Lemma matched_append (email_type : EmailType) (text suffix : string) :
  matched email_type text -> matched email_type (text ++ suffix)%string.
Proof.
  intros (p & Hp & Hs). exists p. split; [exact Hp | apply search_append; exact Hs].
Qed.

Lemma text_of_body (subject : string) (body : option string) :
  text_of subject body
  = (text_of subject None ++ lower (body_text body))%string.
Proof.
  rewrite !text_of_lower. cbn [body_text lower].
  rewrite !append_assoc. reflexivity.
Qed.

Lemma match_count_none (patterns : list string) (text : string) :
  any_match patterns text = false -> match_count patterns text = 0.
Proof.
  induction patterns as [|p ps IH]; simpl; [reflexivity|].
  destruct (Re.search p text); [discriminate|]. intros H. rewrite (IH H). lia.
Qed.

(** [matches] is the count of the answered type, and no type has more. *)
Lemma matches_is_max (subject : string) (body : option string) :
  let text := text_of subject body in
  let r := get_classification_confidence subject body in
  matches r = count (type r) text /\
  forall email_type, count email_type text <= matches r.
Proof.
  destruct (confidence_cases subject body)
    as [[Hempty ->] | (ps & Hentry & Hn & _ & _ & Hmax)]; cbn zeta in *.
  - split; [reflexivity|]. intros t. cbn [matches]. unfold count.
    rewrite match_count_none; [lia|].
    apply any_match_false. intros p Hp.
    exact (proj1 (count_table_empty _) Hempty t p Hp).
  - split; [|exact Hmax]. unfold count.
    rewrite (PATTERNS_get _ _ Hentry). exact Hn.
Qed.

Lemma classify_matched (text : string) :
  (exists email_type, matched email_type text) ->
  matched (classify_loop PRIORITY_ORDER text) text.
Proof.
  intros (t & Ht).
  destruct (classify_loop_first PRIORITY_ORDER text) as (_ & _ & _ & Hhit & _);
    [|exact Hhit].
  exists t. split; [eapply matched_in_priority; exact Ht | exact Ht].
Qed.

Lemma matched_or_not (text : string) :
  (exists email_type, matched email_type text) \/
  ~ (exists email_type, matched email_type text).
Proof.
  destruct (count_table PATTERNS text) as [|first rest] eqn:E.
  - right. apply unmatched_iff, count_table_empty. exact E.
  - left. destruct (winner_spec text first rest E)
      as (before & ps & after & HP & Hn & Hpos & _).
    exists (fst (max_from first rest)).
    assert (Hentry : In (fst (max_from first rest), ps) PATTERNS)
      by (rewrite HP; apply in_or_app; right; left; reflexivity).
    unfold matched. rewrite (PATTERNS_get _ _ Hentry).
    apply any_match_true, match_count_positive. lia.
Qed.

Lemma classify_hit (text : string) :
  classify_loop PRIORITY_ORDER text <> GENERAL ->
  matched (classify_loop PRIORITY_ORDER text) text.
Proof.
  intros H. apply classify_matched.
  destruct (matched_or_not text) as [Hsome | Hnone]; [exact Hsome|].
  exfalso. apply H. apply classify_general. exact Hnone.
Qed.

(** X5: a body only adds evidence.  With a body, no type matches fewer
    patterns than with the subject alone, so [matches] and the confidence
    do not drop; a subject that is a COMPLIANCE_NOTICE stays one, and a
    subject that is not GENERAL does not become GENERAL. *)
Theorem body_adds_evidence (subject : string) (body : option string) :
  let alone := get_classification_confidence subject None in
  let full := get_classification_confidence subject body in
  (forall email_type,
     count email_type (text_of subject None)
     <= count email_type (text_of subject body)) /\
  matches alone <= matches full /\
  (confidence alone <=? confidence full)%float = true /\
  (classify subject None = COMPLIANCE_NOTICE ->
   classify subject body = COMPLIANCE_NOTICE) /\
  (classify subject None <> GENERAL -> classify subject body <> GENERAL).
Proof.
  intros alone full.
  assert (Hcount : forall t, count t (text_of subject None)
                             <= count t (text_of subject body)).
  { intros t. unfold count. rewrite (text_of_body subject body).
    apply match_count_append. }
  destruct (matches_is_max subject None) as [Hown0 _].
  destruct (matches_is_max subject body) as [_ Hmax1].
  cbn zeta in *. fold alone in Hown0. fold full in Hmax1.
  assert (Hm : matches alone <= matches full).
  { rewrite Hown0. specialize (Hcount (type alone)).
    specialize (Hmax1 (type alone)). lia. }
  split; [exact Hcount|]. split; [exact Hm|]. split; [|split].
  - destruct (confidence_cases subject body)
      as [[_ Hfull] | (_ & _ & _ & Hr1 & Hc1 & _)];
      destruct (confidence_cases subject None)
        as [[_ Halone] | (_ & _ & _ & Hr0 & Hc0 & _)];
      cbn zeta in *; fold alone in Halone || fold alone in Hr0, Hc0;
      fold full in Hfull || fold full in Hr1, Hc1.
    + rewrite Halone, Hfull. reflexivity.
    + rewrite Hfull in Hm. cbn [matches] in Hm. lia.
    + rewrite Halone, Hc1. cbn [confidence].
      exact (proj1 (confidence_of_monotone _ _
                      (conj (proj1 Hr1) (Z.le_refl _)) (proj2 Hr1))).
    + rewrite Hc0, Hc1.
      exact (proj2 (confidence_of_monotone _ _ (conj (proj1 Hr0) Hm) (proj2 Hr1))).
  - unfold classify. intros H0.
    assert (Hhit : matched COMPLIANCE_NOTICE (text_of subject None))
      by (rewrite <- H0; apply classify_hit; rewrite H0; discriminate).
    rewrite (text_of_body subject body).
    apply (matched_append _ _ (lower (body_text body))) in Hhit.
    apply any_match_true in Hhit.
    unfold PRIORITY_ORDER. rewrite classify_loop_cons, Hhit. reflexivity.
  - unfold classify. intros H0 H1.
    apply classify_hit in H0.
    apply (matched_append _ _ (lower (body_text body))) in H0.
    rewrite <- text_of_body in H0.
    apply classify_general in H1. apply H1. eexists. exact H0.
Qed.

(** X6: when the patterns of one type only match the text, both entry
    points answer that type. *)
Theorem single_category_agreement (subject : string) (body : option string)
  (email_type : EmailType) :
  matched email_type (text_of subject body) ->
  (forall other, matched other (text_of subject body) -> other = email_type) ->
  classify subject body = email_type /\
  type (get_classification_confidence subject body) = email_type.
Proof.
  intros Hhit Honly. split.
  - apply Honly. apply classify_matched. exists email_type. exact Hhit.
  - apply Honly.
    destruct (confidence_cases subject body)
      as [[Hempty _] | (ps & Hentry & Hn & Hrange & _)]; cbn zeta in *.
    + exfalso.
      apply (proj1 (unmatched_iff _) (proj1 (count_table_empty _) Hempty)).
      exists email_type. exact Hhit.
    + unfold matched. rewrite (PATTERNS_get _ _ Hentry).
      apply any_match_true, match_count_positive. lia.
Qed.

Lemma single_category_agreement_witness :
  classify "Penalty Notice for Late Filing" None = COMPLIANCE_NOTICE /\
  type (get_classification_confidence "Penalty Notice for Late Filing" None)
  = COMPLIANCE_NOTICE.
Proof.
  apply single_category_agreement.
  - exists "penalty\s+notice". split; [simpl; tauto | vm_compute; reflexivity].
  - intros other (p & Hp & Hs).
    destruct other; simpl in Hp;
      repeat (destruct Hp as [<- | Hp]; [try reflexivity; vm_compute in Hs; discriminate|]);
      destruct Hp.
Defined.

End ClassifierMore.

(** ** Validators *)

Module PystrFacts.
Import Chars Threading ThreadingFacts Pystr.
Local Open Scope string_scope.

Lemma length_append (a b : string) :
  String.length (a ++ b) = (String.length a + String.length b)%nat.
Proof. induction a as [|c a IH]; simpl; [reflexivity | rewrite IH; reflexivity]. Qed.

Lemma prefix_of_length (n : nat) (s : string) :
  String.length (prefix_of n s) = Nat.min n (String.length s).
Proof.
  revert s. induction n as [|n IH]; intros [|c s]; simpl; try reflexivity.
  rewrite IH. reflexivity.
Qed.

Lemma rtrim_length (s : string) :
  (String.length (rtrim s) <= String.length s)%nat.
Proof.
  induction s as [|c s IH]; simpl; [lia|].
  destruct (rtrim s); [destruct (is_space c)|]; simpl in *; lia.
Qed.

Lemma trim_length (s : string) :
  (String.length (trim s) <= String.length s)%nat.
Proof.
  unfold trim. pose proof (skip_ws_length (rtrim s)). pose proof (rtrim_length s). lia.
Qed.

(** *** Characters kept by a filter *)

Lemma filter_chars_all (p : ascii -> bool) (s : string) :
  all_chars p (filter_chars p s) = true.
Proof.
  induction s as [|c s IH]; simpl; [reflexivity|].
  destruct (p c) eqn:E; simpl; rewrite ?E; exact IH.
Qed.

Lemma filter_chars_id (p : ascii -> bool) (s : string) :
  all_chars p s = true -> filter_chars p s = s.
Proof.
  induction s as [|c s IH]; simpl; [reflexivity|].
  intros H. apply andb_prop in H. destruct H as [Hc Hs].
  rewrite Hc, (IH Hs). reflexivity.
Qed.

Lemma all_chars_append (p : ascii -> bool) (a b : string) :
  all_chars p (a ++ b) = all_chars p a && all_chars p b.
Proof.
  induction a as [|c a IH]; simpl; [reflexivity|].
  rewrite IH, andb_assoc. reflexivity.
Qed.

Lemma all_chars_prefix (p : ascii -> bool) (n : nat) (s : string) :
  all_chars p s = true -> all_chars p (prefix_of n s) = true.
Proof.
  revert s. induction n as [|n IH]; intros [|c s]; simpl; try reflexivity.
  intros H. apply andb_prop in H. destruct H as [Hc Hs].
  rewrite Hc. exact (IH s Hs).
Qed.

Lemma all_chars_skip_ws (p : ascii -> bool) (s : string) :
  all_chars p s = true -> all_chars p (skip_ws s) = true.
Proof.
  induction s as [|c s IH]; simpl; [reflexivity|].
  intros H. destruct (is_space c); [|exact H].
  apply IH. apply andb_prop in H. apply H.
Qed.

Lemma all_chars_rtrim (p : ascii -> bool) (s : string) :
  all_chars p s = true -> all_chars p (rtrim s) = true.
Proof.
  induction s as [|c s IH]; simpl; [reflexivity|].
  intros H. apply andb_prop in H. destruct H as [Hc Hs].
  specialize (IH Hs).
  destruct (rtrim s); [destruct (is_space c)|]; simpl in *; rewrite ?Hc; auto.
Qed.

Lemma all_chars_collapse (p : ascii -> bool) (s : string) :
  p " "%char = true ->
  all_chars p s = true -> all_chars p (collapse_ws s) = true.
Proof.
  intros Hsp. induction s as [|c s IH]; [reflexivity|].
  rewrite collapse_ws_cons. cbn [all_chars].
  intros H. apply andb_prop in H. destruct H as [Hc Hs]. specialize (IH Hs).
  destruct (is_space c).
  - destruct s as [|d s]; [simpl; rewrite Hsp; reflexivity|].
    destruct (is_space d); [exact IH|]. cbn [all_chars]. rewrite Hsp. exact IH.
  - cbn [all_chars]. rewrite Hc. exact IH.
Qed.

(** *** [" ".join(s.split())] *)

Lemma words_head (c : ascii) (s : string) :
  is_space c = false ->
  exists w rest, words (String c s) = String c w :: rest.
Proof.
  intros H. cbn [words]. rewrite H.
  destruct s as [|d s]; [eauto|].
  destruct (is_space d); [eauto|].
  destruct (words (String d s)); eauto.
Qed.

Lemma join_cons_char (c : ascii) (w : string) (rest : list string) :
  join " " (String c w :: rest) = String c (join " " (w :: rest)).
Proof. cbn [join]. destruct rest; reflexivity. Qed.

(** What is left of [s] once whitespace runs are collapsed and the end is
    trimmed: its words, a space apart, after a space when [s] starts with
    whitespace. *)
Lemma rtrim_collapse_words (s : string) :
  rtrim (collapse_ws s) =
  (if match s with String c _ => is_space c | EmptyString => false end
   then match words s with [] => "" | _ :: _ => " " end
   else "") ++ join " " (words s).
Proof.
  induction s as [|c s IH]; [reflexivity|].
  rewrite collapse_ws_cons.
  destruct (is_space c) eqn:C.
  - cbn [words]. rewrite C.
    destruct s as [|d s]; [reflexivity|].
    destruct (is_space d) eqn:D; [exact IH|].
    destruct (words_head d s D) as (w & rest & Hw).
    rewrite Hw in *. cbn [append] in IH.
    rewrite rtrim_cons; [rewrite IH; reflexivity|].
    right. rewrite IH. rewrite join_cons_char. discriminate.
  - rewrite rtrim_cons by auto. rewrite IH. cbn [append].
    cbn [words]. rewrite C.
    destruct s as [|d s]; [reflexivity|].
    destruct (is_space d) eqn:D.
    + destruct (words (String d s)) as [|w rest]; reflexivity.
    + destruct (words_head d s D) as (w & rest & Hw). rewrite Hw.
      cbn [append]. rewrite !join_cons_char. reflexivity.
Qed.

Lemma join_words_head (s : string) :
  skip_ws (join " " (words s)) = join " " (words s).
Proof.
  induction s as [|c s IH]; [reflexivity|].
  destruct (is_space c) eqn:C.
  - cbn [words]. rewrite C. exact IH.
  - destruct (words_head c s C) as (w & rest & Hw). rewrite Hw.
    rewrite join_cons_char. simpl. rewrite C. reflexivity.
Qed.

(** [" ".join(s.split())] collapses the whitespace runs and trims. *)
Lemma join_words (s : string) :
  join " " (words s) = trim (collapse_ws s).
Proof.
  unfold trim. rewrite rtrim_collapse_words.
  destruct s as [|c s]; [reflexivity|].
  destruct (is_space c).
  - destruct (words (String c s)) as [|w rest] eqn:E; [reflexivity|].
    change (" " ++ join " " (w :: rest)) with (String " " (join " " (w :: rest))).
    cbn [skip_ws]. change (is_space " ") with true. cbv iota.
    rewrite <- E. symmetry. apply join_words_head.
  - cbn [append]. symmetry. apply join_words_head.
Qed.

End PystrFacts.

Module ValidatorFacts.
Import Chars Threading ThreadingFacts Pystr PystrFacts.
Local Open Scope string_scope.

Lemma skip_ws_fixed (c : ascii) (s : string) :
  skip_ws (String c s) = String c s -> is_space c = false.
Proof.
  intros H. destruct (is_space c) eqn:E; [|reflexivity]. exfalso.
  simpl in H. rewrite E in H.
  pose proof (skip_ws_length s) as L. rewrite H in L. simpl in L. lia.
Qed.

Lemma tidy_fixed (s : string) :
  tidy s = true -> skip_ws s = s -> trim s = s /\ collapse_ws s = s.
Proof.
  intros Ht Hs. unfold trim. rewrite (tidy_rtrim _ Ht), Hs.
  split; [reflexivity | apply tidy_collapse; exact Ht].
Qed.

Lemma tidy_prefix_dots (s : string) :
  tidy s = true -> forall n, tidy (prefix_of n s ++ "...") = true.
Proof.
  induction s as [|c s IH]; intros Ht [|n]; try reflexivity.
  cbn [tidy] in Ht. apply andb_prop in Ht. destruct Ht as [Hc Hs].
  cbn [prefix_of append tidy]. rewrite (IH Hs n), andb_true_r.
  destruct (is_space c); [|reflexivity].
  apply andb_prop in Hc. destruct Hc as [Hsp Hnext]. rewrite Hsp. cbn [andb].
  destruct s as [|d s]; [discriminate|].
  destruct n; [reflexivity | exact Hnext].
Qed.

Lemma head_prefix_dots (s : string) (n : nat) :
  skip_ws s = s -> skip_ws (prefix_of n s ++ "...") = prefix_of n s ++ "...".
Proof.
  intros H. destruct s as [|c s]; [destruct n; reflexivity|].
  destruct n; [reflexivity|].
  cbn [prefix_of append skip_ws]. rewrite (skip_ws_fixed _ _ H). reflexivity.
Qed.

Lemma take_prefix (n : Z) (s : string) :
  (0 <= n)%Z -> take n s = prefix_of (Z.to_nat n) s.
Proof.
  intros H. unfold take. destruct (Z.ltb_spec n 0); [lia | reflexivity].
Qed.

End ValidatorFacts.

Module SubjectFacts.
Import Chars Threading ThreadingFacts Pystr PystrFacts ValidatorFacts SubjectValidator.
Local Open Scope string_scope.

Lemma kept_space : kept " " = true.
Proof. reflexivity. Qed.

Lemma kept_visible (c : ascii) : kept c && negb (is_space c) = visible c.
Proof. destruct c as [[] [] [] [] [] [] [] []]; vm_compute; reflexivity. Qed.

Lemma respaced_canonical (subject : string) :
  tidy (respaced subject) = true /\
  skip_ws (respaced subject) = respaced subject /\
  all_chars kept (respaced subject) = true.
Proof.
  unfold respaced. rewrite join_words. unfold trim. repeat split.
  - apply tidy_skip_ws, tidy_rtrim_collapse.
  - apply skip_ws_idem.
  - apply all_chars_skip_ws, all_chars_rtrim, all_chars_collapse;
      [exact kept_space | apply filter_chars_all].
Qed.

(** The subject after the length limit: the last step, [strip], changes
    nothing. *)
Lemma sanitize_unfold (subject : string) :
  sanitize subject =
  if is_empty subject then ""
  else if (MAX_LENGTH <? len (respaced subject))%Z
       then prefix_of 497 (respaced subject) ++ "..."
       else respaced subject.
Proof.
  unfold sanitize. fold (respaced subject).
  destruct (is_empty subject); [reflexivity|].
  destruct (respaced_canonical subject) as (Ht & Hh & _).
  destruct (MAX_LENGTH <? len (respaced subject))%Z.
  - rewrite take_prefix by (unfold MAX_LENGTH; lia).
    change (Z.to_nat (MAX_LENGTH - 3)) with 497%nat.
    apply tidy_fixed; [apply tidy_prefix_dots; exact Ht | apply head_prefix_dots; exact Hh].
  - apply tidy_fixed; assumption.
Qed.

Lemma sanitize_bounded (subject : string) :
  (len (sanitize subject) <= MAX_LENGTH)%Z.
Proof.
  rewrite sanitize_unfold. unfold len, MAX_LENGTH.
  destruct (is_empty subject); [simpl; lia|].
  destruct (Z.ltb_spec 500 (Z.of_nat (String.length (respaced subject)))).
  - rewrite length_append, prefix_of_length. simpl String.length. lia.
  - lia.
Qed.

Lemma sanitize_facts (subject : string) :
  tidy (sanitize subject) = true /\
  skip_ws (sanitize subject) = sanitize subject /\
  all_chars kept (sanitize subject) = true.
Proof.
  rewrite sanitize_unfold.
  destruct (is_empty subject); [repeat split|].
  destruct (respaced_canonical subject) as (Ht & Hh & Hk).
  destruct (MAX_LENGTH <? len (respaced subject))%Z; [|auto].
  repeat split.
  - apply tidy_prefix_dots. exact Ht.
  - apply head_prefix_dots. exact Hh.
  - rewrite all_chars_append, all_chars_prefix by exact Hk. reflexivity.
Qed.

Lemma kept_printable (c : ascii) :
  kept c = true -> is_space c = false -> N.leb 32 (code c) = true.
Proof. destruct c as [[] [] [] [] [] [] [] []]; vm_compute; auto. Qed.

Lemma tidy_printable (s : string) :
  tidy s = true -> all_chars kept s = true ->
  all_chars (fun c => N.leb 32 (code c)) s = true.
Proof.
  induction s as [|c s IH]; [reflexivity|].
  cbn [tidy all_chars]. intros Ht Hk.
  apply andb_prop in Ht. destruct Ht as [Hc Ht].
  apply andb_prop in Hk. destruct Hk as [Hkc Hk].
  rewrite (IH Ht Hk), andb_true_r.
  destruct (is_space c) eqn:E.
  - apply andb_prop in Hc. destruct Hc as [Hsp _].
    apply Ascii.eqb_eq in Hsp. subst c. reflexivity.
  - apply kept_printable; assumption.
Qed.

(** X7: whatever the subject, [SubjectValidator.sanitize] returns a text
    of at most [MAX_LENGTH] (500) characters, without control characters,
    whose only whitespace is single spaces between words, and which
    [strip] leaves as it is: the three dots of a truncation never bring
    the result over the limit, and a space the cut leaves before them
    stays a single inner space. *)
Theorem sanitize_canonical (subject : string) :
  (len (sanitize subject) <= MAX_LENGTH)%Z /\
  all_chars (fun c => N.leb 32 (code c)) (sanitize subject) = true /\
  tidy (sanitize subject) = true /\
  trim (sanitize subject) = sanitize subject.
Proof.
  destruct (sanitize_facts subject) as (Ht & Hh & Hk).
  split; [apply sanitize_bounded|].
  split; [apply tidy_printable; assumption|]. split; [exact Ht|].
  apply tidy_fixed; assumption.
Qed.

(** X8: [SubjectValidator.sanitize] is idempotent: a sanitized subject,
    truncated or not, is returned unchanged when it is sanitized again. *)
Theorem sanitize_idempotent (subject : string) :
  sanitize (sanitize subject) = sanitize subject.
Proof.
  destruct (sanitize_facts subject) as (Ht & Hh & Hk).
  pose proof (sanitize_bounded subject) as Hl.
  set (r := sanitize subject) in *.
  rewrite (sanitize_unfold r).
  destruct (is_empty r) eqn:E; [destruct r; [reflexivity | discriminate]|].
  assert (Hr : respaced r = r).
  { unfold respaced. rewrite (filter_chars_id _ _ Hk), join_words.
    destruct (tidy_fixed r Ht Hh) as [H1 H2]. rewrite H2. exact H1. }
  rewrite Hr. destruct (Z.ltb_spec MAX_LENGTH (len r)); [lia | reflexivity].
Qed.

Lemma words_none (s : string) :
  match words s with [] => true | _ :: _ => false end
  = negb (some_char (fun c => negb (is_space c)) s).
Proof.
  induction s as [|c s IH]; [reflexivity|].
  destruct (is_space c) eqn:C.
  - cbn [words some_char]. rewrite C. exact IH.
  - destruct (words_head c s C) as (w & rest & ->).
    cbn [some_char]. rewrite C. reflexivity.
Qed.

Lemma some_char_filter (p q : ascii -> bool) (s : string) :
  some_char q (filter_chars p s) = some_char (fun c => p c && q c) s.
Proof.
  induction s as [|c s IH]; [reflexivity|].
  cbn [filter_chars some_char]. destruct (p c); cbn [some_char andb]; rewrite IH; reflexivity.
Qed.

Lemma some_char_ext (p q : ascii -> bool) (s : string) :
  (forall c, p c = q c) -> some_char p s = some_char q s.
Proof.
  intros H. induction s as [|c s IH]; [reflexivity|].
  cbn [some_char]. rewrite H, IH. reflexivity.
Qed.

Lemma join_empty (parts : list string) :
  (forall w, In w parts -> w <> "") ->
  is_empty (join " " parts) = match parts with [] => true | _ :: _ => false end.
Proof.
  destruct parts as [|w rest]; [reflexivity|]. intros H.
  assert (Hw : w <> "") by (apply H; left; reflexivity).
  destruct w as [|c w]; [congruence|].
  cbn [join]. destruct rest; reflexivity.
Qed.

Lemma respaced_empty (subject : string) :
  is_empty (respaced subject) = negb (some_char visible subject).
Proof.
  unfold respaced.
  rewrite <- (some_char_ext _ _ subject kept_visible), <- some_char_filter, <- words_none.
  set (f := filter_chars kept subject).
  induction f as [|c f IH]; [reflexivity|].
  destruct (is_space c) eqn:C.
  - cbn [words]. rewrite C. exact IH.
  - destruct (words_head c f C) as (w & rest & ->).
    rewrite join_cons_char. reflexivity.
Qed.

(** X9: [SubjectValidator.is_valid] accepts a subject exactly when it
    holds a character that is neither a control character nor
    whitespace; neither the length limit nor the truncation ever turns a
    subject invalid. *)
Theorem is_valid_iff_visible (subject : string) :
  is_valid subject = some_char visible subject.
Proof.
  unfold is_valid. rewrite sanitize_unfold.
  destruct subject as [|c subject]; [reflexivity|].
  cbn [is_empty].
  pose proof (respaced_empty (String c subject)) as He.
  destruct (Z.ltb_spec MAX_LENGTH (len (respaced (String c subject)))).
  - destruct (respaced (String c subject)) as [|d r] eqn:R.
    + unfold len, MAX_LENGTH in *. simpl in *. lia.
    + cbn [is_empty] in He. cbn [prefix_of append is_empty negb].
      destruct (some_char visible (String c subject)); [reflexivity | discriminate].
  - rewrite He. apply negb_involutive.
Qed.

End SubjectFacts.

Module BodyFacts.
Import Chars Pystr PystrFacts ValidatorFacts BodyValidator.
Local Open Scope string_scope.

Lemma sanitize_text_facts (text : string) :
  all_chars kept (sanitize_text text) = true /\
  (len (sanitize_text text) <= MAX_LENGTH)%Z.
Proof.
  unfold sanitize_text.
  destruct (is_empty text); [split; [reflexivity | unfold len, MAX_LENGTH; simpl; lia]|].
  pose proof (filter_chars_all kept text) as Hk.
  destruct (Z.ltb_spec MAX_LENGTH (len (filter_chars kept text))).
  - rewrite take_prefix by (unfold MAX_LENGTH; lia). split.
    + apply all_chars_prefix. exact Hk.
    + unfold len. rewrite prefix_of_length. unfold MAX_LENGTH. lia.
  - auto.
Qed.

(** X10: [BodyValidator.sanitize_text] returns a text of at most
    [MAX_LENGTH] (1000000) characters whose control characters are only
    line feeds, carriage returns and tabs, and it is idempotent. *)
Theorem sanitize_text_idempotent (text : string) :
  all_chars kept (sanitize_text text) = true /\
  (len (sanitize_text text) <= MAX_LENGTH)%Z /\
  sanitize_text (sanitize_text text) = sanitize_text text.
Proof.
  destruct (sanitize_text_facts text) as [Hk Hl].
  split; [exact Hk|]. split; [exact Hl|].
  set (r := sanitize_text text) in *.
  unfold sanitize_text at 1.
  destruct (is_empty r) eqn:E; [destruct r; [reflexivity | discriminate]|].
  rewrite (filter_chars_id _ _ Hk).
  destruct (Z.ltb_spec MAX_LENGTH (len r)); [lia | reflexivity].
Qed.

End BodyFacts.

(** ** Regular expressions *)

Module RegexFacts.
Import Regex.
Local Open Scope string_scope.

Lemma append_empty (s t : string) : s ++ t = "" -> s = "" /\ t = "".
Proof. destruct s; simpl; [auto | discriminate]. Qed.

Lemma nullable_spec (r : regex) : nullable r = true <-> matches r "".
Proof.
  induction r as [| |p|a IHa b IHb|a IHa b IHb|a IHa]; simpl.
  - split; [discriminate | intros H; inversion H].
  - split; [constructor | reflexivity].
  - split; [discriminate | intros H; inversion H].
  - rewrite andb_true_iff, IHa, IHb. split.
    + intros [Ha Hb]. exact (matches_seq a b "" "" Ha Hb).
    + intros H. inversion H as [| |a' b' s t Ha Hb Heq Hst| | | |]; subst.
      apply append_empty in Hst. destruct Hst as [-> ->]. auto.
  - rewrite orb_true_iff, IHa, IHb. split.
    + intros [H | H]; [apply matches_alt_left | apply matches_alt_right]; exact H.
    + intros H. inversion H; subst; auto.
  - split; [constructor | reflexivity].
Qed.

(** A non-empty match of [a*] starts with a non-empty match of [a]. *)
Lemma star_cons (a : regex) (c : ascii) (s : string) :
  matches (Star a) (String c s) ->
  exists s1 s2, s = s1 ++ s2 /\ matches a (String c s1) /\ matches (Star a) s2.
Proof.
  intros H. remember (Star a) as r eqn:Er. remember (String c s) as w eqn:Ew.
  revert s Ew.
  induction H as [| | | | | |a' s1 t H1 _ H2 IH2]; intros u Ew; try discriminate.
  injection Er as ->.
  destruct s1 as [|d s1].
  - simpl in Ew. exact (IH2 eq_refl u Ew).
  - simpl in Ew. injection Ew as Hd Hu. subst d u. exists s1, t. auto.
Qed.

Lemma deriv_spec (r : regex) :
  forall c s, matches (deriv c r) s <-> matches r (String c s).
Proof.
  induction r as [| |p|a IHa b IHb|a IHa b IHb|a IHa]; intros c s; simpl.
  - split; intros H; inversion H.
  - split; intros H; inversion H.
  - destruct (p c) eqn:E; split; intros H; inversion H; subst.
    + constructor. exact E.
    + constructor.
    + congruence.
  - assert (Hfirst : forall s1 t, matches (deriv c a) s1 -> matches b t ->
                                  matches (Seq a b) (String c (s1 ++ t))).
    { intros s1 t H1 H2. apply IHa in H1.
      exact (matches_seq a b (String c s1) t H1 H2). }
    assert (Hinv : matches (Seq a b) (String c s) ->
                   (exists s1 t, s = s1 ++ t /\ matches (deriv c a) s1 /\ matches b t) \/
                   (matches a "" /\ matches (deriv c b) s)).
    { intros H. inversion H as [| |a' b' s1 t H1 H2 Heq Hst| | | |]; subst.
      destruct s1 as [|d s1]; simpl in Hst.
      - right. subst t. split; [exact H1 | apply IHb; exact H2].
      - injection Hst as Hd Hu. subst d s. left. exists s1, t.
        split; [reflexivity|].
        split; [apply IHa; exact H1 | exact H2]. }
    destruct (nullable a) eqn:N.
    + split.
      * intros H. inversion H as [| | |a' b' s' H'| a' b' s' H'| |]; subst.
        -- inversion H' as [| |a'' b'' s1 t H1 H2 Heq Hst| | | |]; subst.
           apply Hfirst; assumption.
        -- apply nullable_spec in N. apply IHb in H'.
           exact (matches_seq a b "" (String c s) N H').
      * intros H. destruct (Hinv H) as [(s1 & t & -> & H1 & H2) | [_ H2]].
        -- apply matches_alt_left. constructor; assumption.
        -- apply matches_alt_right. exact H2.
    + split.
      * intros H. inversion H as [| |a'' b'' s1 t H1 H2 Heq Hst| | | |]; subst.
        apply Hfirst; assumption.
      * intros H. destruct (Hinv H) as [(s1 & t & -> & H1 & H2) | [H1 _]].
        -- constructor; assumption.
        -- apply nullable_spec in H1. congruence.
  - split; intros H; inversion H; subst.
    + apply matches_alt_left, IHa. assumption.
    + apply matches_alt_right, IHb. assumption.
    + apply matches_alt_left, IHa. assumption.
    + apply matches_alt_right, IHb. assumption.
  - split.
    + intros H. inversion H as [| |a'' b'' s1 t H1 H2 Heq Hst| | | |]; subst.
      apply IHa in H1. exact (matches_star_more a (String c s1) t H1 H2).
    + intros H. destruct (star_cons a c s H) as (s1 & s2 & -> & H1 & H2).
      constructor; [apply IHa; exact H1 | exact H2].
Qed.

(** The matcher decides the language of the expression. *)
Lemma fullmatch_spec (s : string) :
  forall r, fullmatch r s = true <-> matches r s.
Proof.
  induction s as [|c s IH]; intros r; simpl.
  - apply nullable_spec.
  - rewrite IH. apply deriv_spec.
Qed.

End RegexFacts.

Module RegexMore.
Import Chars Pystr Regex RegexTerms RegexFacts.
Local Open Scope string_scope.

Lemma matches_seq_inv (a b : regex) (s : string) :
  matches (Seq a b) s -> exists u v, s = u ++ v /\ matches a u /\ matches b v.
Proof. intros H. inversion H; subst. eauto. Qed.

Lemma matches_opt_inv (a : regex) (s : string) :
  matches (Opt a) s -> s = "" \/ matches a s.
Proof.
  intros H. inversion H as [| | |a' b' s' H'|a' b' s' H'| |]; subst; [auto|].
  inversion H'. auto.
Qed.

Lemma matches_class_inv (p : ascii -> bool) (s : string) :
  matches (Class p) s -> exists c, s = String c "" /\ p c = true.
Proof. intros H. inversion H; subst. eauto. Qed.

Lemma matches_chr_inv (c : ascii) (s : string) :
  matches (Chr c) s -> s = String c "".
Proof.
  intros H. apply matches_class_inv in H. destruct H as (d & -> & Hd).
  apply Ascii.eqb_eq in Hd. subst d. reflexivity.
Qed.

Lemma matches_chr (c : ascii) : matches (Chr c) (String c "").
Proof. constructor. apply Ascii.eqb_refl. Qed.

Lemma matches_alphabet (p : ascii -> bool) (r : regex) (s : string) :
  alphabet p r -> matches r s -> all_chars p s = true.
Proof.
  intros Ha H. induction H; simpl in Ha |- *; try reflexivity.
  - rewrite (Ha _ H). reflexivity.
  - rewrite PystrFacts.all_chars_append, IHmatches1, IHmatches2; tauto.
  - apply IHmatches. tauto.
  - apply IHmatches. tauto.
  - rewrite PystrFacts.all_chars_append, IHmatches1, IHmatches2; tauto.
Qed.

Lemma matches_lower (r : regex) (s : string) :
  closed_under lower_char r -> matches r s -> matches r (lower s).
Proof.
  intros Hc H. induction H; simpl in Hc |- *.
  - constructor.
  - constructor. apply Hc. assumption.
  - rewrite ClassifierMore.lower_append. constructor; [apply IHmatches1 | apply IHmatches2]; tauto.
  - apply matches_alt_left, IHmatches. tauto.
  - apply matches_alt_right, IHmatches. tauto.
  - constructor.
  - rewrite ClassifierMore.lower_append. constructor; [apply IHmatches1 | apply IHmatches2]; tauto.
Qed.

Lemma matches_rep (p : ascii -> bool) (n : nat) (s : string) :
  matches (Rep n (Class p)) s <-> String.length s = n /\ all_chars p s = true.
Proof.
  revert s. induction n as [|n IH]; intros s; simpl.
  - split.
    + intros H. inversion H. auto.
    + intros [H _]. destruct s; [constructor | discriminate].
  - split.
    + intros H. apply matches_seq_inv in H. destruct H as (u & v & -> & Hu & Hv).
      apply matches_class_inv in Hu. destruct Hu as (c & -> & Hc).
      apply IH in Hv. destruct Hv as [Hl Ha]. simpl. rewrite Hc, Hl, Ha. auto.
    + intros [Hl Ha]. destruct s as [|c s]; [discriminate|].
      simpl in Hl, Ha. apply andb_prop in Ha. destruct Ha as [Hc Ha].
      change (String c s) with (String c "" ++ s).
      constructor; [constructor; exact Hc | apply IH; split; [lia | exact Ha]].
Qed.

(** [match_anchored] accepts the strings of the expression and the same
    strings followed by one newline. *)
Lemma match_anchored_spec (r : regex) (s : string) :
  match_anchored r s = true <->
  exists m, matches r m /\ (s = m \/ s = m ++ String "010" "").
Proof.
  unfold match_anchored. rewrite fullmatch_spec. split.
  - intros H. apply matches_seq_inv in H. destruct H as (u & v & -> & Hu & Hv).
    exists u. split; [exact Hu|].
    apply matches_opt_inv in Hv. destruct Hv as [-> | Hv].
    + left. apply ClassifierMore.append_nil_r.
    + right. apply matches_chr_inv in Hv. rewrite Hv. reflexivity.
  - intros (m & Hm & [-> | ->]).
    + rewrite <- (ClassifierMore.append_nil_r m) at 1.
      constructor; [exact Hm | apply matches_alt_right; constructor].
    + constructor; [exact Hm | apply matches_alt_left, matches_chr].
Qed.

End RegexMore.

(** ** Address and phone validators *)

Module EmailFacts.
Import Chars Threading ThreadingFacts Pystr PystrFacts Regex RegexTerms RegexFacts
       RegexMore EmailAddressValidator.
Local Open Scope string_scope.

Lemma email_alphabet : alphabet solid_char EMAIL_REGEX.
Proof.
  assert (H1 : forall c, local_char c = true -> solid_char c = true)
    by (intros c; by_cases_on_char c).
  assert (H2 : forall c, domain_char c = true -> solid_char c = true)
    by (intros c; by_cases_on_char c).
  assert (H3 : forall c, suffix_char c = true -> solid_char c = true)
    by (intros c; by_cases_on_char c).
  assert (H4 : forall c, Ascii.eqb "@" c = true -> solid_char c = true)
    by (intros c; by_cases_on_char c).
  assert (H5 : forall c, Ascii.eqb "." c = true -> solid_char c = true)
    by (intros c; by_cases_on_char c).
  simpl. tauto.
Qed.

Lemma email_closed : closed_under lower_char EMAIL_REGEX.
Proof.
  assert (H1 : forall c, local_char c = true -> local_char (lower_char c) = true)
    by (intros c; by_cases_on_char c).
  assert (H2 : forall c, domain_char c = true -> domain_char (lower_char c) = true)
    by (intros c; by_cases_on_char c).
  assert (H3 : forall c, suffix_char c = true -> suffix_char (lower_char c) = true)
    by (intros c; by_cases_on_char c).
  assert (H4 : forall c, Ascii.eqb "@" c = true -> Ascii.eqb "@" (lower_char c) = true)
    by (intros c; by_cases_on_char c).
  assert (H5 : forall c, Ascii.eqb "." c = true -> Ascii.eqb "." (lower_char c) = true)
    by (intros c; by_cases_on_char c).
  simpl. tauto.
Qed.

(** A string without whitespace is not changed by [strip], and loses a
    newline that follows it. *)
Lemma solid_skip_ws (s : string) :
  all_chars solid_char s = true -> skip_ws s = s.
Proof.
  destruct s as [|c s]; [reflexivity|]. simpl. unfold solid_char at 1.
  destruct (is_space c); [discriminate | reflexivity].
Qed.

Lemma solid_rtrim (s t : string) :
  all_chars solid_char s = true -> all_chars is_space t = true ->
  rtrim (s ++ t) = s.
Proof.
  intros Hs Ht. induction s as [|c s IH].
  - simpl. induction t as [|d t IHt]; [reflexivity|].
    simpl in Ht |- *. apply andb_prop in Ht. destruct Ht as [Hd Ht].
    rewrite (IHt Ht), Hd. reflexivity.
  - simpl in Hs. apply andb_prop in Hs. destruct Hs as [Hc Hs].
    cbn [append]. rewrite rtrim_cons.
    + rewrite (IH Hs). reflexivity.
    + left. unfold solid_char in Hc. destruct (is_space c); [discriminate | reflexivity].
Qed.

Lemma solid_trim (s t : string) :
  all_chars solid_char s = true -> all_chars is_space t = true ->
  trim (s ++ t) = s.
Proof.
  intros Hs Ht. unfold trim. rewrite solid_rtrim by assumption.
  apply solid_skip_ws. exact Hs.
Qed.

Lemma lower_solid (s : string) :
  all_chars solid_char (lower s) = all_chars solid_char s.
Proof.
  induction s as [|c s IH]; [reflexivity|].
  simpl. unfold solid_char at 1 3. rewrite is_space_lower_char, IH. reflexivity.
Qed.

(** A valid address is a match of the expression, possibly followed by a
    newline; its normal form is that match in lower case. *)
Lemma is_valid_normal (email : string) :
  is_valid email = true ->
  exists m, matches EMAIL_REGEX m /\ trim (lower email) = lower m.
Proof.
  unfold is_valid. destruct (is_empty email); [discriminate|].
  rewrite match_anchored_spec. intros (m & Hm & Heq). exists m.
  split; [exact Hm|].
  pose proof (matches_alphabet _ _ _ email_alphabet Hm) as Hsolid.
  rewrite <- lower_solid in Hsolid.
  destruct Heq as [-> | ->].
  - rewrite <- (ClassifierMore.append_nil_r (lower m)) at 1.
    apply solid_trim; [exact Hsolid | reflexivity].
  - rewrite ClassifierMore.lower_append.
    apply solid_trim; [exact Hsolid | reflexivity].
Qed.

Lemma matches_valid (m : string) :
  matches EMAIL_REGEX m -> is_valid m = true.
Proof.
  intros Hm. unfold is_valid.
  destruct m as [|c m].
  - apply nullable_spec in Hm. discriminate.
  - cbn [is_empty]. apply match_anchored_spec. exists (String c m). auto.
Qed.

Lemma normalize_idem (email : string) :
  normalize (normalize email) = normalize email.
Proof.
  unfold normalize. destruct (is_empty email); [reflexivity|].
  destruct (is_empty (trim (lower email))) eqn:E.
  - destruct (trim (lower email)); [reflexivity | discriminate].
  - rewrite (trim_lower email), lower_idem, trim_lower, trim_idem. reflexivity.
Qed.

Lemma normalize_valid (email : string) :
  is_valid email = true ->
  is_valid (normalize email) = true /\
  all_chars solid_char (normalize email) = true.
Proof.
  intros Hv.
  destruct (is_valid_normal email Hv) as (m & Hm & Hn).
  unfold normalize. unfold is_valid in Hv.
  destruct (is_empty email); [discriminate|]. rewrite Hn. split.
  - apply matches_valid, matches_lower; [exact email_closed | exact Hm].
  - rewrite lower_solid. exact (matches_alphabet _ _ _ email_alphabet Hm).
Qed.

(** X11: [EmailAddressValidator.normalize] is idempotent, and the
    normal form of an address that [is_valid] accepts is accepted again
    and holds no whitespace: lower-casing and stripping never leave the
    language of [EMAIL_REGEX]. *)
Theorem normalize_keeps_valid (email : string) :
  normalize (normalize email) = normalize email /\
  (is_valid email = true ->
   is_valid (normalize email) = true /\
   all_chars solid_char (normalize email) = true).
Proof.
  split; [apply normalize_idem | apply normalize_valid].
Qed.

Lemma normalize_keeps_valid_witness :
  is_valid (normalize "John.Doe@Example.COM") = true /\
  all_chars solid_char (normalize "John.Doe@Example.COM") = true.
Proof.
  exact (proj2 (normalize_keeps_valid "John.Doe@Example.COM") eq_refl).
Defined.

Lemma validate_loop_spec (emails : list string) :
  forall valid invalid,
    validate_loop emails valid invalid =
    ((valid ++ map normalize (filter is_valid emails))%list,
     (invalid ++ filter (fun e => negb (is_valid e)) emails)%list).
Proof.
  induction emails as [|e emails IH]; intros valid invalid; simpl.
  - rewrite !app_nil_r. reflexivity.
  - destruct (is_valid e) eqn:E; simpl; rewrite IH, <- app_assoc; simpl.
    + unfold normalize at 2. unfold is_valid in E.
      destruct (is_empty e); [discriminate | reflexivity].
    + reflexivity.
Qed.

(** X12: [EmailAddressValidator.validate_list] splits its input: no
    address is lost or counted twice, the invalid addresses come back
    unchanged and in order, the valid ones normalized and in order, and
    every address of the valid list is valid and in normal form. *)
Theorem validate_list_partition (emails : list string) :
  let valid := fst (validate_list emails) in
  let invalid := snd (validate_list emails) in
  (List.length valid + List.length invalid = List.length emails)%nat /\
  invalid = filter (fun e => negb (is_valid e)) emails /\
  valid = map normalize (filter is_valid emails) /\
  (forall v, In v valid -> is_valid v = true /\ normalize v = v).
Proof.
  unfold validate_list. rewrite validate_loop_spec. cbn [fst snd app].
  split; [|split; [reflexivity | split; [reflexivity|]]].
  - rewrite length_map. induction emails as [|e emails IH]; simpl; [reflexivity|].
    destruct (is_valid e); simpl; lia.
  - intros v Hin. apply in_map_iff in Hin. destruct Hin as (e & <- & He).
    apply filter_In in He. destruct He as [_ He].
    split; [apply normalize_valid; exact He | apply normalize_idem].
Qed.

End EmailFacts.

Module PhoneFacts.
Import Chars Threading ThreadingFacts Pystr PystrMore PystrFacts Regex RegexTerms
       RegexFacts RegexMore PhoneValidator ClientSchema.
Local Open Scope string_scope.

Lemma drop_length (n : nat) (s : string) :
  String.length (drop n s) = (String.length s - n)%nat.
Proof.
  revert s. induction n as [|n IH]; intros [|c s]; simpl; try reflexivity.
  apply IH.
Qed.

Lemma all_chars_drop (p : ascii -> bool) (n : nat) (s : string) :
  all_chars p s = true -> all_chars p (drop n s) = true.
Proof.
  revert s. induction n as [|n IH]; intros [|c s]; simpl; try tauto.
  intros H. apply andb_prop in H. apply IH, H.
Qed.

Lemma tail_from_facts (p : ascii -> bool) (n : Z) (s : string) :
  all_chars p s = true -> all_chars p (tail_from n s) = true.
Proof. intros H. unfold tail_from. apply all_chars_drop. exact H. Qed.

Lemma filter_chars_append (p : ascii -> bool) (a b : string) :
  filter_chars p (a ++ b) = filter_chars p a ++ filter_chars p b.
Proof.
  induction a as [|c a IH]; simpl; [reflexivity|].
  destruct (p c); simpl; rewrite IH; reflexivity.
Qed.

Lemma filter_chars_twice (p q : ascii -> bool) (s : string) :
  (forall c, q c = true -> p c = true) ->
  filter_chars q (filter_chars p s) = filter_chars q s.
Proof.
  intros H. induction s as [|c s IH]; simpl; [reflexivity|].
  destruct (p c) eqn:P; simpl; rewrite IH.
  - reflexivity.
  - destruct (q c) eqn:Q; [rewrite (H c Q) in P; discriminate | reflexivity].
Qed.

Lemma digit_not_separator (c : ascii) :
  is_digit c = true -> negb (separator c) = true.
Proof. by_cases_on_char c. Qed.

(** The last ten of at least ten digits; fewer digits are kept. *)
Lemma last_ten (digits : string) :
  let r := if (10 <=? len digits)%Z then tail_from (-10) digits else digits in
  String.length r = Nat.min 10 (String.length digits).
Proof.
  unfold len, tail_from.
  destruct (Z.leb_spec 10 (Z.of_nat (String.length digits))); cbn zeta.
  - rewrite drop_length. change (-10 <? 0)%Z with true. cbv iota. unfold len. lia.
  - lia.
Qed.

Lemma normalize_unfold (phone : string) :
  normalize phone =
  if is_empty phone then ""
  else if (10 <=? len (national phone))%Z
       then tail_from (-10) (national phone) else national phone.
Proof. reflexivity. Qed.

Lemma national_digits (phone : string) :
  all_chars is_digit (national phone) = true.
Proof.
  unfold national. pose proof (filter_chars_all is_digit phone) as H.
  destruct (_ && _); [apply tail_from_facts|]; exact H.
Qed.

(** X13: [PhoneValidator.normalize] returns digits only, at most ten of
    them, whatever it is given, and it is idempotent. *)
Theorem normalize_digits (phone : string) :
  all_chars is_digit (normalize phone) = true /\
  (len (normalize phone) <= 10)%Z /\
  normalize (normalize phone) = normalize phone.
Proof.
  assert (Hfacts : all_chars is_digit (normalize phone) = true /\
                   (len (normalize phone) <= 10)%Z).
  { rewrite normalize_unfold. destruct (is_empty phone); [split; [reflexivity | cbn; lia]|].
    pose proof (last_ten (national phone)) as Hl. cbn zeta in Hl.
    pose proof (national_digits phone) as Hd.
    split.
    - destruct (10 <=? len (national phone))%Z; [apply tail_from_facts|]; exact Hd.
    - unfold len at 1. rewrite Hl. lia. }
  destruct Hfacts as [Hd Hl]. split; [exact Hd|]. split; [exact Hl|].
  set (r := normalize phone) in *.
  rewrite (normalize_unfold r).
  destruct (is_empty r) eqn:E; [destruct r; [reflexivity | discriminate]|].
  assert (Hn : national r = r).
  { unfold national. rewrite (filter_chars_id _ _ Hd).
    destruct (Z.eqb_spec (len r) 12); [lia | reflexivity]. }
  rewrite Hn.
  destruct (Z.leb_spec 10 (len r)); [|reflexivity].
  unfold tail_from. change (-10 <? 0)%Z with true. cbv iota.
  replace (Z.to_nat (len r + -10)) with 0%nat by lia.
  destruct r; reflexivity.
Qed.

Lemma all_chars_weaken (p q : ascii -> bool) (s : string) :
  (forall c, p c = true -> q c = true) ->
  all_chars p s = true -> all_chars q s = true.
Proof.
  intros H. induction s as [|c s IH]; simpl; [reflexivity|].
  intros Hs. apply andb_prop in Hs. destruct Hs as [Hc Hs].
  rewrite (H c Hc), (IH Hs). reflexivity.
Qed.

(** Ten digits are their own normal form. *)
Lemma normalize_ten (d : string) :
  String.length d = 10%nat -> all_chars is_digit d = true -> normalize d = d.
Proof.
  intros Hl Hd. rewrite normalize_unfold.
  destruct d as [|c d]; [discriminate|]. cbn [is_empty].
  assert (Hn : national (String c d) = String c d).
  { unfold national. rewrite (filter_chars_id _ _ Hd).
    unfold len. rewrite Hl. reflexivity. }
  rewrite Hn. unfold tail_from, len. rewrite Hl. reflexivity.
Qed.

Lemma ten_valid (d : string) :
  String.length d = 10%nat -> all_chars is_digit d = true -> is_valid d = true.
Proof.
  intros Hl Hd. unfold is_valid.
  destruct d as [|c d]; [discriminate|]. cbn [is_empty].
  rewrite filter_chars_id
    by (apply (all_chars_weaken is_digit); [exact digit_not_separator | exact Hd]).
  apply match_anchored_spec. exists (String c d). split; [|auto].
  change (String c d) with ("" ++ String c d).
  constructor; [apply matches_alt_right; constructor | apply matches_rep; auto].
Qed.

(** A valid number is ten digits once its separators are taken out, with
    or without the country code before them. *)
Lemma is_valid_shape (phone : string) :
  is_valid phone = true ->
  exists d,
    String.length d = 10%nat /\ all_chars is_digit d = true /\
    (filter_chars (fun c => negb (separator c)) phone = d \/
     filter_chars (fun c => negb (separator c)) phone = "+91" ++ d).
Proof.
  unfold is_valid. destruct (is_empty phone); [discriminate|].
  pose proof (filter_chars_all (fun c => negb (separator c)) phone) as Hclean.
  set (cleaned := filter_chars (fun c => negb (separator c)) phone) in *.
  rewrite match_anchored_spec. intros (m & Hm & Heq).
  assert (Hcm : cleaned = m).
  { destruct Heq as [-> | Heq]; [reflexivity|]. exfalso.
    rewrite Heq, all_chars_append in Hclean.
    apply andb_prop in Hclean. destruct Hclean as [_ Hnl]. discriminate. }
  clear Heq. subst m.
  apply matches_seq_inv in Hm. destruct Hm as (u & d & Hsplit & Hu & Hd).
  apply matches_rep in Hd. destruct Hd as [Hl Hd].
  exists d. split; [exact Hl|]. split; [exact Hd|].
  apply matches_opt_inv in Hu. destruct Hu as [-> | Hu]; [left; exact Hsplit|].
  right.
  apply matches_seq_inv in Hu. destruct Hu as (u1 & r1 & -> & H1 & Hu).
  apply matches_seq_inv in Hu. destruct Hu as (u2 & r2 & -> & H2 & Hu).
  apply matches_seq_inv in Hu. destruct Hu as (u3 & o & -> & H3 & Ho).
  apply matches_chr_inv in H1, H2, H3. subst u1 u2 u3.
  apply matches_opt_inv in Ho. destruct Ho as [-> | Ho]; [exact Hsplit|].
  exfalso. apply matches_class_inv in Ho. destruct Ho as (c & -> & Hc).
  rewrite Hsplit in Hclean. simpl in Hclean. rewrite Hc in Hclean.
  discriminate.
Qed.

Lemma valid_normalize (phone : string) :
  is_valid phone = true ->
  String.length (normalize phone) = 10%nat /\
  all_chars is_digit (normalize phone) = true.
Proof.
  intros Hv. destruct (is_valid_shape phone Hv) as (d & Hl & Hd & Hshape).
  assert (Hdigits : filter_chars is_digit phone = d \/
                    filter_chars is_digit phone = "91" ++ d).
  { rewrite <- (filter_chars_twice (fun c => negb (separator c)) is_digit phone)
      by exact digit_not_separator.
    destruct Hshape as [-> | ->]; [left | right].
    - apply filter_chars_id. exact Hd.
    - simpl. rewrite (filter_chars_id _ _ Hd). reflexivity. }
  assert (Hn : normalize phone = d); [|rewrite Hn; auto].
  rewrite normalize_unfold. unfold is_valid in Hv.
  destruct (is_empty phone); [discriminate|].
  assert (Hnat : national phone = d).
  { unfold national. destruct Hdigits as [-> | ->].
    - unfold len. rewrite Hl. reflexivity.
    - unfold len. simpl String.length. rewrite Hl.
      change (Z.of_nat 12 =? 12)%Z with true. cbn [andb].
      unfold startswith. cbn [append String.prefix].
      destruct (ascii_dec "9" "9") as [_|N]; [|congruence].
      destruct (ascii_dec "1" "1") as [_|N]; [|congruence].
      destruct d; reflexivity. }
  rewrite Hnat. unfold tail_from, len. rewrite Hl. destruct d; reflexivity.
Qed.

(** X14: when [ClientSchema.validate_phone] returns a number, it is
    exactly ten digits, and the validator returns that number unchanged
    when it is given it again: every phone [PhoneValidator.is_valid]
    accepts normalizes to ten digits. *)
Theorem validate_phone_ten_digits (v : option string) (r : string) :
  validate_phone v = Returned (Some r) ->
  String.length r = 10%nat /\
  all_chars is_digit r = true /\
  validate_phone (Some r) = Returned (Some r).
Proof.
  unfold validate_phone at 1. destruct v as [phone|]; [|discriminate].
  destruct (is_empty phone); cbn [negb andb]; [discriminate|].
  destruct (is_valid phone) eqn:Hv; cbn [negb]; [|discriminate].
  intros H. injection H as <-.
  destruct (valid_normalize phone Hv) as [Hl Hd].
  split; [exact Hl|]. split; [exact Hd|].
  unfold validate_phone.
  rewrite (ten_valid _ Hl Hd), (normalize_ten _ Hl Hd).
  destruct (normalize phone); [discriminate | reflexivity].
Qed.

Lemma validate_phone_ten_digits_witness :
  String.length "9876543210" = 10%nat /\
  all_chars is_digit "9876543210" = true /\
  validate_phone (Some "9876543210") = Returned (Some "9876543210").
Proof.
  apply (validate_phone_ten_digits (Some "+91-98765 43210")).
  vm_compute. reflexivity.
Defined.

End PhoneFacts.

(** ** The retry schedule *)

Module TasksFacts.
Import Tasks.
Local Open Scope Z_scope.

Lemma countdown_cases (retries : Z) :
  0 <= retries ->
  countdown retries
  = Some (if retries =? 0 then 30 else if retries =? 1 then 300 else 1800).
Proof.
  intros H. unfold countdown, retry_delays. cbn [List.length].
  destruct (Z.eq_dec retries 0) as [->|N0]; [reflexivity|].
  destruct (Z.eq_dec retries 1) as [->|N1]; [reflexivity|].
  replace (Z.min retries (Z.of_nat 3 - 1)) with 2 by lia.
  destruct (retries =? 0) eqn:E0; [lia|].
  destruct (retries =? 1) eqn:E1; [lia|]. reflexivity.
Qed.

(** X15: the retry delay of the notification task.  For a retry count
    that is not negative the index is in range, so the lookup never
    raises; the delay is one of 30, 300 and 1800 seconds, it never
    decreases as retries go up, and from the third attempt on it stays at
    1800. *)
Theorem countdown_schedule (retries later : Z) :
  0 <= retries <= later ->
  exists d d',
    countdown retries = Some d /\ countdown later = Some d' /\
    In d retry_delays /\ d <= d' <= 1800 /\
    (2 <= retries -> d = 1800).
Proof.
  intros [H0 Hle].
  rewrite (countdown_cases retries H0), (countdown_cases later) by lia.
  eexists. eexists. split; [reflexivity|]. split; [reflexivity|].
  destruct (retries =? 0) eqn:E0; destruct (retries =? 1) eqn:E1;
    destruct (later =? 0) eqn:L0; destruct (later =? 1) eqn:L1;
    cbn; lia.
Qed.

Lemma countdown_schedule_witness :
  exists d d',
    countdown 1 = Some d /\ countdown 5 = Some d' /\
    In d retry_delays /\ d <= d' <= 1800 /\
    (2 <= 1 -> d = 1800).
Proof. apply (countdown_schedule 1 5). lia. Defined.

End TasksFacts.

(** ** Template rendering *)

Module TemplateFacts.
Import Pystr EmailTemplate.
Local Open Scope string_scope.

Lemma replace_from_absent old new : forall s,
  occurs old s = false -> replace_from old new 0 s = s.
Proof.
  induction s as [|c s IH]; [reflexivity|].
  cbn [occurs replace_from].
  destruct (String.prefix old (String c s)); [discriminate|].
  intros H. rewrite (IH H). reflexivity.
Qed.

Lemma occurs_empty (s : string) : occurs "" s = true.
Proof. destruct s; reflexivity. Qed.

Lemma replace_absent (s old new : string) :
  occurs old s = false -> replace s old new = s.
Proof.
  unfold replace. destruct old as [|c old].
  - rewrite occurs_empty. discriminate.
  - cbn [is_empty]. apply replace_from_absent.
Qed.

Lemma prefix_append (a b : string) : forall s,
  String.prefix (a ++ b) s = true -> String.prefix a s = true.
Proof.
  induction a as [|c a IH]; intros s; [destruct s; reflexivity|].
  destruct s as [|d s]; cbn; [discriminate|].
  destruct (ascii_dec c d); [apply IH | discriminate].
Qed.

Lemma occurs_append (a b : string) : forall s,
  occurs a s = false -> occurs (a ++ b) s = false.
Proof.
  induction s as [|c s IH]; cbn [occurs].
  - destruct (String.prefix a "") eqn:Ea; [discriminate|]. intros _.
    destruct (String.prefix (a ++ b) "") eqn:Eab; [|reflexivity].
    apply prefix_append in Eab. congruence.
  - destruct (String.prefix a (String c s)) eqn:Ea; [discriminate|].
    intros H.
    destruct (String.prefix (a ++ b) (String c s)) eqn:Eab; [|exact (IH H)].
    apply prefix_append in Eab. congruence.
Qed.

Lemma replace_plain (s var value : string) :
  occurs "{{" s = false -> replace s ("{{" ++ var ++ "}}") value = s.
Proof.
  intros H. apply replace_absent.
  exact (occurs_append "{{" (var ++ "}}") s H).
Qed.

Lemma render_loop_plain context : forall subject body_text body_html,
  let r := render_loop context subject body_text body_html in
  (occurs "{{" subject = false -> fst (fst r) = subject) /\
  (occurs "{{" body_text = false -> snd (fst r) = body_text) /\
  (occurs "{{" body_html = false -> snd r = body_html).
Proof.
  induction context as [|[var value] rest IH]; intros subject body_text body_html.
  - cbn. tauto.
  - cbn [render_loop].
    destruct (IH (replace subject ("{{" ++ var ++ "}}") value)
                 (replace body_text ("{{" ++ var ++ "}}") value)
                 (replace body_html ("{{" ++ var ++ "}}") value))
      as (Hs & Hb & Hh).
    cbv zeta. split; [|split]; intros H;
      rewrite (replace_plain _ var value H) in *; auto.
Qed.

(** X16: [EmailTemplate.render] leaves alone what holds no placeholder:
    whatever the context, a subject, text body or HTML body without two
    opening braces in a row comes back unchanged (an absent body as the
    empty string), each of the three independently of the others. *)
Theorem render_plain (t : EmailTemplate) (context : list (string * string)) :
  let r := render t context in
  (occurs "{{" (subject_template t) = false ->
   fst (fst r) = subject_template t) /\
  (occurs "{{" (or_empty (body_template t)) = false ->
   snd (fst r) = or_empty (body_template t)) /\
  (occurs "{{" (or_empty (body_html_template t)) = false ->
   snd r = or_empty (body_html_template t)).
Proof. apply render_loop_plain. Qed.

Lemma render_plain_witness :
  fst (fst (render sample_template sample_context))
  = "Quarterly filing reminder".
Proof.
  exact (proj1 (render_plain sample_template sample_context) eq_refl).
Defined.

End TemplateFacts.

(** ** Mailbox synchronisation *)

Module SyncFacts.
Import Threading SyncService.
Local Open Scope Z_scope.

Section Service.
Variable Session : Type.
Variable get_valid_access_token : Session -> Session * outcome string.
Variable list_messages :
  string -> string -> Z -> option string -> outcome value.
Variable existing : Session -> value -> Session * outcome bool.
Variable sync_email_from_graph : Session -> value -> Session * outcome unit.
Variable touch : Session -> Session * string.
Variable commit : Session -> Session * outcome unit.

Lemma sync_one_balanced db c email_data db' c' seen :
  balanced seen c ->
  sync_one existing sync_email_from_graph db c email_data = (db', Returned c') ->
  balanced (seen + 1) c'.
Proof.
  unfold balanced, sync_one. intros (H1 & H2 & H3 & H4).
  destruct (get email_data "id" VNone) as [id|e]; [|discriminate].
  destruct (existing db id) as [db1 [[|]|e]].
  - intros E. injection E as _ <-. cbn. lia.
  - destruct (sync_email_from_graph db1 email_data) as [db2 [u|e]];
      intros E; injection E as _ <-; cbn.
    + lia.
    + rewrite length_app. cbn. lia.
  - intros E. injection E as _ <-. cbn. rewrite length_app. cbn. lia.
Qed.

Lemma sync_loop_balanced messages : forall db c db' c' seen,
  balanced seen c ->
  sync_loop existing sync_email_from_graph messages db c = (db', Returned c') ->
  balanced (seen + Z.of_nat (List.length messages)) c'.
Proof.
  induction messages as [|m rest IH]; intros db c db' c' seen Hb.
  - cbn. intros E. injection E as _ <-. replace (seen + 0) with seen by lia.
    exact Hb.
  - cbn [sync_loop].
    destruct (sync_one existing sync_email_from_graph db c m)
      as [db1 [c1|e]] eqn:E1; [|discriminate].
    intros E. apply (IH _ _ _ _ (seen + 1)) in E.
    + replace (seen + Z.of_nat (List.length (m :: rest)))
        with (seen + 1 + Z.of_nat (List.length rest))
        by (cbn [List.length]; lia).
      exact E.
    + exact (sync_one_balanced _ _ _ _ _ _ Hb E1).
Qed.

Lemma size_or_none (l : list (value * string)) :
  size (or_none l) = Z.of_nat (List.length l).
Proof. destruct l; reflexivity. Qed.

(** X17: the counters of a successful [sync_user_inbox].  Whatever the
    collaborators do, [synced_count] is [new_count + updated_count], no
    counter is negative, [errors] is never an empty list ([None]
    instead), and every listed message is counted once, as synced or as
    an error. *)
Theorem sync_user_inbox_counts db folder limit since db' synced new updated
  errors last_sync :
  sync_user_inbox get_valid_access_token list_messages existing
    sync_email_from_graph touch commit db folder limit since
  = (db', Success synced new updated errors last_sync) ->
  synced = new + updated /\ 0 <= new /\ 0 <= updated /\
  errors <> Some [] /\
  exists db1 access_token result messages,
    get_valid_access_token db = (db1, Returned access_token) /\
    list_messages access_token folder limit (filter_query since)
      = Returned result /\
    listed result = Returned messages /\
    synced + size errors = Z.of_nat (List.length messages).
Proof.
  unfold sync_user_inbox.
  destruct (get_valid_access_token db) as [db1 [token|e]] eqn:Et;
    [|discriminate].
  destruct (list_messages token folder limit (filter_query since))
    as [result|e] eqn:Er; [|discriminate].
  destruct (listed result) as [messages|e] eqn:Em; [|discriminate].
  destruct (sync_loop existing sync_email_from_graph messages db1
              (mkCounts 0 0 0 [])) as [db2 [c|e]] eqn:El; [|discriminate].
  destruct (touch db2) as [db3 t].
  destruct (commit db3) as [db4 [u|e]]; [|discriminate].
  intros E. injection E as _ <- <- <- <- _.
  apply (sync_loop_balanced _ _ _ _ _ 0) in El;
    [|unfold balanced; cbn; lia].
  destruct El as (H1 & H2 & H3 & H4).
  split; [exact H1|]. split; [exact H2|]. split; [exact H3|].
  split; [destruct (SyncService.errors c); discriminate|].
  exists db1, token, result, messages.
  rewrite size_or_none. split; [reflexivity|]. split; [exact Er|].
  split; [exact Em | lia].
Qed.

Lemma sync_user_inbox_accounted db folder limit since db' r :
  sync_user_inbox get_valid_access_token list_messages existing
    sync_email_from_graph touch commit db folder limit since = (db', r) ->
  synced_of r = accounted r.
Proof.
  unfold sync_user_inbox.
  destruct (get_valid_access_token db) as [db1 [token|e]];
    [|intros E; injection E as _ <-; reflexivity].
  destruct (list_messages token folder limit (filter_query since))
    as [result|e]; [|intros E; injection E as _ <-; reflexivity].
  destruct (listed result) as [messages|e];
    [|intros E; injection E as _ <-; reflexivity].
  destruct (sync_loop existing sync_email_from_graph messages db1
              (mkCounts 0 0 0 [])) as [db2 [c|e]] eqn:El;
    [|intros E; injection E as _ <-; reflexivity].
  destruct (touch db2) as [db3 t].
  destruct (commit db3) as [db4 [u|e]];
    intros E; injection E as _ <-; [|reflexivity].
  apply (sync_loop_balanced _ _ _ _ _ 0) in El;
    [|unfold balanced; cbn; lia].
  exact (proj1 El).
Qed.

Lemma sync_folders_total folders : forall db limit db' results,
  sync_folders get_valid_access_token list_messages existing
    sync_email_from_graph touch commit folders db limit = (db', results) ->
  map fst results = folders /\
  fold_right Z.add 0 (map (fun kr => synced_of (snd kr)) results)
  = fold_right Z.add 0 (map (fun kr => accounted (snd kr)) results).
Proof.
  induction folders as [|f rest IH]; intros db limit db' results.
  - cbn. intros E. injection E as _ <-. split; reflexivity.
  - cbn [sync_folders].
    destruct (sync_user_inbox get_valid_access_token list_messages existing
                sync_email_from_graph touch commit db f limit None)
      as [db1 r] eqn:Er.
    destruct (sync_folders get_valid_access_token list_messages existing
                sync_email_from_graph touch commit rest db1 limit)
      as [db2 rs] eqn:Ers.
    intros E. injection E as _ <-.
    destruct (IH _ _ _ _ Ers) as [Hk Hs].
    split; [cbn; rewrite Hk; reflexivity|].
    cbn [map fold_right snd]. rewrite Hs. f_equal.
    exact (sync_user_inbox_accounted _ _ _ _ _ _ Er).
Qed.

(** X18: [sync_all_folders] reports the inbox, the sent items and the
    drafts, in this order, and its [total_synced] is the number of new
    and updated messages of the folders whose run succeeded; a folder
    whose run failed adds nothing. *)
Theorem sync_all_folders_total db limit db' total results :
  sync_all_folders get_valid_access_token list_messages existing
    sync_email_from_graph touch commit db limit = (db', (total, results)) ->
  map fst results = FOLDERS /\
  total = fold_right Z.add 0 (map (fun kr => accounted (snd kr)) results).
Proof.
  unfold sync_all_folders.
  destruct (sync_folders get_valid_access_token list_messages existing
              sync_email_from_graph touch commit FOLDERS db limit)
    as [db1 rs] eqn:E.
  intros H. injection H as _ <- <-.
  exact (sync_folders_total _ _ _ _ _ E).
Qed.

End Service.

Lemma sync_user_inbox_counts_witness :
  3 = 1 + 2 /\ 0 <= 1 /\ 0 <= 2 /\
  Some [(VNone, "unsupported operand")] <> Some [] /\
  exists db1 access_token result messages,
    sample_token ["m2"] = (db1, Returned access_token) /\
    sample_messages access_token "inbox" 50 (filter_query None)
      = Returned result /\
    listed result = Returned messages /\
    3 + size (Some [(VNone, "unsupported operand")])
    = Z.of_nat (List.length messages).
Proof.
  apply (sync_user_inbox_counts (list string) sample_token sample_messages
           sample_existing sample_sync sample_touch sample_commit
           ["m2"] "inbox" 50 None ["m1"; "m2"] 3 1 2
           (Some [(VNone, "unsupported operand")]) "2024-03-31T10:00:00").
  reflexivity.
Defined.

Lemma sync_all_folders_total_witness :
  map fst [("inbox", Success 3 1 2 (Some [(VNone, "unsupported operand")])
                             "2024-03-31T10:00:00");
           ("sentItems", Success 0 0 0 None "2024-03-31T10:00:00");
           ("drafts", Error "Graph API error: 503")] = FOLDERS /\
  3 = fold_right Z.add 0
        (map (fun kr => accounted (snd kr))
           [("inbox", Success 3 1 2 (Some [(VNone, "unsupported operand")])
                              "2024-03-31T10:00:00");
            ("sentItems", Success 0 0 0 None "2024-03-31T10:00:00");
            ("drafts", Error "Graph API error: 503")]).
Proof.
  apply (sync_all_folders_total (list string) sample_token sample_messages
           sample_existing sample_sync sample_touch sample_commit
           ["m2"] 50 ["m1"; "m2"]).
  reflexivity.
Defined.

End SyncFacts.

(** ** Authentication dependencies *)

Module DecoratorFacts.
Import Decorators.
Local Open Scope string_scope.

Section Auth.
Variable decrypt : string -> outcome string.

Lemma by_access_token_sound users token : forall u,
  by_access_token decrypt users token = Some u ->
  In u users /\
  exists encrypted,
    access_token u = Some encrypted /\ decrypt encrypted = Returned token.
Proof.
  induction users as [|v rest IH]; intros u; cbn [by_access_token];
    [discriminate|].
  destruct (access_token v) as [enc|] eqn:Ea.
  - destruct (decrypt enc) as [d|e] eqn:Ed.
    + destruct (String.eqb d token) eqn:Et.
      * intros H. injection H as <-. apply String.eqb_eq in Et. subst d.
        split; [left; reflexivity | exists enc; split; assumption].
      * intros H. destruct (IH _ H) as [Hin Hx]. split; [right|]; assumption.
    + intros H. destruct (IH _ H) as [Hin Hx]. split; [right|]; assumption.
  - intros H. destruct (IH _ H) as [Hin Hx]. split; [right|]; assumption.
Qed.

Lemma by_access_token_none users token :
  by_access_token decrypt users token = None ->
  forall u encrypted,
    In u users -> access_token u = Some encrypted ->
    decrypt encrypted <> Returned token.
Proof.
  induction users as [|v rest IH]; cbn [by_access_token]; intros H u enc Hin Ha;
    [destruct Hin|].
  destruct Hin as [<-|Hin].
  - rewrite Ha in H. intros Hd. rewrite Hd, String.eqb_refl in H. discriminate.
  - apply (IH) with (u := u); try assumption.
    destruct (access_token v) as [e|]; [|exact H].
    destruct (decrypt e) as [d|]; [|exact H].
    destruct (String.eqb d token); [discriminate | exact H].
Qed.

Lemma get_current_user_ok credentials db u :
  get_current_user decrypt credentials db = Ok u ->
  exists token,
    credentials = Some token /\ In u db /\ holds decrypt u token /\
    is_active u = Some true.
Proof.
  unfold get_current_user. destruct credentials as [token|]; [|discriminate].
  intros H. exists token. split; [reflexivity|].
  destruct (find (fun u => String.eqb (id u) token) db) as [v|] eqn:Ef.
  - destruct (is_active v) as [[|]|] eqn:Ev; cbn in H; try discriminate.
    injection H as <-. apply find_some in Ef. destruct Ef as [Hin Hid].
    apply String.eqb_eq in Hid.
    split; [exact Hin|]. split; [left; exact Hid | exact Ev].
  - destruct (by_access_token decrypt db token) as [v|] eqn:Eb; [|discriminate].
    destruct (is_active v) as [[|]|] eqn:Ev; cbn in H; try discriminate.
    injection H as <-. destruct (by_access_token_sound _ _ _ Eb) as [Hin Hx].
    split; [exact Hin|]. split; [right; exact Hx | exact Ev].
Qed.

(** X19: whom [get_current_user] lets in.  A user it returns is a row of
    the table, is active, and holds the bearer token: the token is the
    user's id or what the stored access token decrypts to.  And it
    answers "Invalid authentication credentials" exactly when no row
    holds the token, whatever [decrypt] does. *)
Theorem get_current_user_sound (credentials : option string) (db : list User) :
  (forall u,
     get_current_user decrypt credentials db = Ok u ->
     exists token,
       credentials = Some token /\ In u db /\ holds decrypt u token /\
       is_active u = Some true) /\
  (forall token,
     credentials = Some token ->
     (get_current_user decrypt credentials db
      = HTTPException 401 "Invalid authentication credentials"
      <-> forall u, In u db -> ~ holds decrypt u token)).
Proof.
  split; [intros u; apply get_current_user_ok|].
  intros token ->. unfold get_current_user.
  destruct (find (fun u => String.eqb (id u) token) db) as [v|] eqn:Ef.
  - split.
    + destruct (negb (truthy (is_active v))); discriminate.
    + intros Hno. exfalso. apply find_some in Ef. destruct Ef as [Hin Hid].
      apply String.eqb_eq in Hid. apply (Hno v Hin). left. exact Hid.
  - destruct (by_access_token decrypt db token) as [v|] eqn:Eb.
    + split.
      * destruct (negb (truthy (is_active v))); discriminate.
      * intros Hno. exfalso.
        destruct (by_access_token_sound _ _ _ Eb) as [Hin Hx].
        apply (Hno v Hin). right. exact Hx.
    + split; [|reflexivity]. intros _ u Hin [Hid | (enc & Ha & Hd)].
      * pose proof (find_none _ _ Ef u Hin) as Hn. cbn in Hn.
        rewrite Hid, String.eqb_refl in Hn. discriminate.
      * exact (by_access_token_none _ _ Eb u enc Hin Ha Hd).
Qed.

(** X20: [require_role] and [get_current_user_optional] add nothing to
    [get_current_user].  A user [require_role] returns is the active user
    [get_current_user] returns, with a role among the allowed ones; status
    403 is only raised for an authenticated user whose role is not
    allowed; and the optional dependency returns a user exactly when the
    strict one does. *)
Theorem require_role_sound (allowed_roles : list string)
  (credentials : option string) (db : list User) :
  (forall u,
     require_role decrypt allowed_roles credentials db = Ok u ->
     get_current_user decrypt credentials db = Ok u /\
     is_active u = Some true /\
     exists r, role u = Some r /\ In r allowed_roles) /\
  (forall detail,
     require_role decrypt allowed_roles credentials db
     = HTTPException 403 detail ->
     exists u,
       get_current_user decrypt credentials db = Ok u /\
       forall r, role u = Some r -> ~ In r allowed_roles) /\
  (forall u,
     get_current_user_optional decrypt credentials db = Some u <->
     get_current_user decrypt credentials db = Ok u).
Proof.
  split; [|split].
  - intros u. unfold require_role.
    destruct (get_current_user decrypt credentials db) as [v|c d] eqn:Eg;
      [|discriminate].
    destruct (role_in v allowed_roles) eqn:Er; cbn [negb]; [|discriminate].
    intros H. injection H as <-. split; [reflexivity|].
    destruct (get_current_user_ok _ _ _ Eg) as (t & _ & _ & _ & Ha).
    split; [exact Ha|]. unfold role_in in Er.
    destruct (role v) as [r|]; [|discriminate]. exists r. split; [reflexivity|].
    apply existsb_exists in Er. destruct Er as (x & Hin & Hx).
    apply String.eqb_eq in Hx. subst x. exact Hin.
  - intros detail. unfold require_role.
    destruct (get_current_user decrypt credentials db) as [v|c d] eqn:Eg.
    + destruct (role_in v allowed_roles) eqn:Er; cbn [negb]; [discriminate|].
      intros _. exists v. split; [reflexivity|]. intros r Hr Hin.
      unfold role_in in Er. rewrite Hr in Er.
      assert (Ht : existsb (String.eqb r) allowed_roles = true)
        by (apply existsb_exists; exists r; split;
            [exact Hin | apply String.eqb_refl]).
      congruence.
    + intros H. injection H as -> _. exfalso. revert Eg.
      unfold get_current_user. destruct credentials as [t|]; [|discriminate].
      destruct (match find (fun u => String.eqb (id u) t) db with
                | Some u => Some u
                | None => by_access_token decrypt db t
                end) as [w|]; [|discriminate].
      destruct (negb (truthy (is_active w))); discriminate.
  - intros u. unfold get_current_user_optional.
    destruct credentials as [t|]; [|split; discriminate].
    destruct (get_current_user decrypt (Some t) db) as [v|c d].
    + split; intros H; injection H as <-; reflexivity.
    + split; discriminate.
Qed.

End Auth.

Lemma get_current_user_sound_witness :
  get_current_user sample_decrypt (Some "nobody") sample_users
  = HTTPException 401 "Invalid authentication credentials".
Proof.
  apply (proj2 (get_current_user_sound sample_decrypt (Some "nobody")
                  sample_users) "nobody" eq_refl).
  intros u Hin [Hid | (enc & Ha & Hd)];
    repeat (destruct Hin as [<- | Hin]; [try discriminate|]);
    try destruct Hin;
    cbn in Ha; injection Ha as <-; discriminate.
Defined.

Lemma require_role_sound_witness :
  get_current_user sample_decrypt (Some "secret-2") sample_users
  = Ok (mkUser "u-2" (Some "enc:secret-2") (Some "admin") (Some true)) /\
  is_active (mkUser "u-2" (Some "enc:secret-2") (Some "admin") (Some true))
  = Some true /\
  exists r,
    role (mkUser "u-2" (Some "enc:secret-2") (Some "admin") (Some true))
    = Some r /\ In r ["admin"].
Proof.
  apply (proj1 (require_role_sound sample_decrypt ["admin"] (Some "secret-2")
                  sample_users)).
  reflexivity.
Defined.

End DecoratorFacts.

(** ** Webhook notifications *)

Module WebhookFacts.
Import Threading SyncService Webhooks.
Local Open Scope string_scope.
Local Open Scope Z_scope.

Section Route.
Variable Session : Type.
Variable User : Type.
Variable user_id : User -> string.
Variable webhook_secret : string.
Variable find_user : Session -> value -> Session * outcome (option User).
Variable get_valid_access_token : Session -> User -> Session * outcome string.
Variable get_message : string -> value -> outcome value.
Variable sync_email_from_graph :
  Session -> value -> User -> Session * outcome unit.

Lemma handle_foreign db p notification :
  authentic webhook_secret notification = false ->
  handle user_id webhook_secret find_user get_valid_access_token get_message
    sync_email_from_graph db p notification
  = (db, note p (reject notification)).
Proof.
  unfold authentic, handle, reject, attempt.
  destruct (get notification "clientState" VNone) as [[| | |s| |]|e];
    try reflexivity.
  intros ->. reflexivity.
Qed.

Lemma notify_loop_foreign notifications : forall db p,
  forallb (fun n => negb (authentic webhook_secret n)) notifications = true ->
  notify_loop user_id webhook_secret find_user get_valid_access_token
    get_message sync_email_from_graph notifications db p
  = (db, mkProgress (processed p) (errors p ++ map reject notifications)).
Proof.
  induction notifications as [|n rest IH]; intros db p H; cbn [notify_loop map].
  - rewrite app_nil_r. destruct p; reflexivity.
  - cbn [forallb] in H. apply andb_true_iff in H. destruct H as [Hn Hrest].
    apply negb_true_iff in Hn. rewrite (handle_foreign _ _ _ Hn).
    rewrite (IH _ _ Hrest). cbn [note processed errors].
    rewrite <- app_assoc. reflexivity.
Qed.

(** X21: notifications without the webhook secret change nothing.  When
    no notification of the body carries the secret as its client state,
    the route answers [processed = 0] with one error entry for each
    notification, and leaves the session as it was: no user is looked up,
    no token fetched and no message synchronised, whatever these
    collaborators would do. *)
Theorem webhook_rejects_foreign_state (body : value)
  (notifications : list value) (db : Session) :
  contains body "validationTokens" = Returned false ->
  notifications_of body = Returned notifications ->
  forallb (fun n => negb (authentic webhook_secret n)) notifications = true ->
  webhook_notification user_id webhook_secret find_user
    get_valid_access_token get_message sync_email_from_graph
    None (Returned body) db
  = (db, Processed 0 (or_none (map reject notifications))).
Proof.
  intros Hc Hn Hf. unfold webhook_notification. rewrite Hc, Hn.
  rewrite (notify_loop_foreign _ _ _ Hf). reflexivity.
Qed.

Lemma step_note a p e : step_ok a p (note p e).
Proof.
  unfold step_ok, note. cbn. rewrite length_app. cbn. lia.
Qed.

Lemma step_count p : step_ok true p (count p).
Proof. unfold step_ok, count. cbn. repeat split; try lia; discriminate. Qed.

Lemma step_same p : step_ok true p p.
Proof. unfold step_ok. cbn. repeat split; try lia; discriminate. Qed.

Lemma apply_change_step db p user token change_type resource_data db' p' :
  apply_change get_message sync_email_from_graph db p user token change_type
    resource_data = (db', p') ->
  step_ok true p p'.
Proof.
  unfold apply_change.
  assert (Hn : forall d e, (d, note p e) = (db', p') -> step_ok true p p')
    by (intros d e H; injection H as _ <-; apply step_note).
  assert (Hc : forall d, (d, count p) = (db', p') -> step_ok true p p')
    by (intros d H; injection H as _ <-; apply step_count).
  assert (Hs : forall d, (d, p) = (db', p') -> step_ok true p p')
    by (intros d H; injection H as _ <-; apply step_same).
  destruct change_type as [| | |s| |]; try apply Hs.
  repeat match goal with
         | |- context [match ?x with _ => _ end] =>
             lazymatch x with
             | get _ _ _ => fail
             | _ => destruct x
             end
         end;
    try apply Hs; try apply Hc.
  destruct (get resource_data "id" VNone) as [m|e]; [|apply Hn].
  destruct (truthy m); [|apply Hs].
  destruct (get_message token m) as [d|e]; [|apply Hn].
  destruct (sync_email_from_graph db d user) as [db1 [u|e]];
    [apply Hc | apply Hn].
Qed.

Lemma handle_step db p notification db' p' :
  handle user_id webhook_secret find_user get_valid_access_token get_message
    sync_email_from_graph db p notification = (db', p') ->
  step_ok (authentic webhook_secret notification) p p'.
Proof.
  destruct (authentic webhook_secret notification) eqn:Ea.
  - unfold handle, attempt.
    assert (Hn : forall d e, (d, note p e) = (db', p') -> step_ok true p p')
      by (intros d e H; injection H as _ <-; apply step_note).
    destruct (get notification "clientState" VNone) as [c|e]; [|apply Hn].
    destruct (match c with VStr s => negb (String.eqb s webhook_secret)
                         | _ => true end); [apply Hn|].
    destruct (get notification "subscriptionId" VNone) as [sid|e]; [|apply Hn].
    destruct (get notification "changeType" VNone) as [ct|e]; [|apply Hn].
    destruct (get notification "resource" (VStr "")) as [r|e]; [|apply Hn].
    destruct (get notification "resourceData" (VDict [])) as [rd|e]; [|apply Hn].
    destruct (find_user db sid) as [db1 [[user|]|e]]; try apply Hn.
    destruct (get_valid_access_token db1 user) as [db2 [token|e]]; [|apply Hn].
    apply apply_change_step.
  - rewrite (handle_foreign _ _ _ Ea). intros H. injection H as _ <-.
    apply step_note.
Qed.

Lemma notify_loop_counts notifications : forall db p db' p',
  notify_loop user_id webhook_secret find_user get_valid_access_token
    get_message sync_email_from_graph notifications db p = (db', p') ->
  let dp := processed p' - processed p in
  let de := Z.of_nat (List.length (errors p'))
            - Z.of_nat (List.length (errors p)) in
  0 <= dp <= authentic_count webhook_secret notifications /\
  Z.of_nat (List.length notifications)
  - authentic_count webhook_secret notifications <= de /\
  dp + de <= Z.of_nat (List.length notifications).
Proof.
  unfold authentic_count.
  induction notifications as [|n rest IH]; intros db p db' p';
    cbn [notify_loop].
  - intros H. injection H as _ <-. cbn. lia.
  - destruct (handle user_id webhook_secret find_user get_valid_access_token
                get_message sync_email_from_graph db p n) as [db1 p1] eqn:Eh.
    intros H. apply IH in H. apply handle_step in Eh.
    unfold step_ok in Eh. cbn zeta in *. cbn [filter List.length].
    destruct (authentic webhook_secret n); cbn [List.length];
      destruct Eh as (H1 & H2 & H3 & H4).
    + lia.
    + destruct (H4 eq_refl). lia.
Qed.

Lemma size_entries (l : list entry) :
  size (or_none l) = Z.of_nat (List.length l).
Proof. destruct l; reflexivity. Qed.

(** X22: the counters of a processed webhook call.  [processed] is never
    more than the number of notifications that carry the secret, every
    notification without it leaves an error entry, no notification is
    counted twice, and [errors] is never an empty list. *)
Theorem webhook_counts (validation_token : option string)
  (body : outcome value) (db db' : Session) (count : Z)
  (errors : option (list entry)) :
  webhook_notification user_id webhook_secret find_user
    get_valid_access_token get_message sync_email_from_graph
    validation_token body db
  = (db', Processed count errors) ->
  errors <> Some [] /\
  exists payload notifications,
    body = Returned payload /\
    notifications_of payload = Returned notifications /\
    0 <= count <= authentic_count webhook_secret notifications /\
    Z.of_nat (List.length notifications)
    - authentic_count webhook_secret notifications <= size errors /\
    count + size errors <= Z.of_nat (List.length notifications).
Proof.
  unfold webhook_notification.
  destruct validation_token; [discriminate|].
  destruct body as [payload|e]; [|discriminate].
  destruct (contains payload "validationTokens") as [[|]|e]; try discriminate.
  - destruct (item payload "validationTokens") as [t|e]; [|discriminate].
    destruct (first t); discriminate.
  - destruct (notifications_of payload) as [ns|e] eqn:En; [|discriminate].
    destruct (notify_loop user_id webhook_secret find_user
                get_valid_access_token get_message sync_email_from_graph ns db
                (mkProgress 0 [])) as [db1 p] eqn:El.
    intros H. injection H as _ <- <-.
    split; [destruct (Webhooks.errors p); discriminate|].
    exists payload, ns. split; [reflexivity|]. split; [exact En|].
    apply notify_loop_counts in El. cbn zeta in El. cbn in El.
    rewrite size_entries. lia.
Qed.

End Route.

Lemma webhook_rejects_foreign_state_witness :
  webhook_notification (fun u : string => u) "s3cret" sample_find sample_token
    sample_message sample_sync None (Returned foreign_body) 0%nat
  = (0%nat,
     Processed 0
       (Some [InvalidClientState; InvalidClientState;
              Failed "'str' object has no attribute 'get'"])).
Proof.
  apply (webhook_rejects_foreign_state nat string (fun u => u) "s3cret"
           sample_find sample_token sample_message sample_sync foreign_body
           [VDict [("clientState", VStr "guess"); ("subscriptionId", VStr "sub-1");
                   ("changeType", VStr "created");
                   ("resourceData", VDict [("id", VStr "m-2")])];
            VDict [("subscriptionId", VStr "sub-1"); ("changeType", VStr "deleted")];
            VStr "sub-1"] 0%nat); reflexivity.
Defined.

Lemma webhook_counts_witness :
  Some [InvalidClientState; UnknownSubscription (VStr "sub-9")] <> Some [] /\
  exists payload notifications,
    Returned sample_body = Returned payload /\
    notifications_of payload = Returned notifications /\
    0 <= 1 <= authentic_count "s3cret" notifications /\
    Z.of_nat (List.length notifications) - authentic_count "s3cret" notifications
    <= size (Some [InvalidClientState; UnknownSubscription (VStr "sub-9")]) /\
    1 + size (Some [InvalidClientState; UnknownSubscription (VStr "sub-9")])
    <= Z.of_nat (List.length notifications).
Proof.
  apply (webhook_counts nat string (fun u => u) "s3cret" sample_find
           sample_token sample_message sample_sync None (Returned sample_body)
           0%nat 1%nat).
  reflexivity.
Defined.

End WebhookFacts.
